(** * Prometeo: a parallel, resumable HTTP download manager

    A shallow embedding of the TypeScript sources ([lib/manager.ts],
    [lib/file.ts], [lib/connection.ts], [utils/url.ts],
    [utils/writeStream.ts]) and the properties of its range planner,
    manifest codec, range worker, coordinator and prober.

    Conventions of the embedding.
    - A JavaScript [number] is an extended rational ([JS.number]): finite
      values are exact rationals kept in lowest terms, next to [+Infinity],
      [-Infinity] and [NaN].  Arithmetic is exact, so the embedding agrees
      with IEEE doubles wherever the doubles are exact (integers below
      2^53, which covers byte offsets and sizes); negative zero is not
      distinguished from zero.
    - A JavaScript string is the [string] of its UTF-8 code units.
    - Objects whose property order matters are association lists.
    - Platform services (URL parser, [fetch], file system, path algebra,
      random bytes) are explicit arguments of the functions that call them. *)

From Stdlib Require Import ZArith QArith Qround Qreduction Qfield String Ascii List Lia Bool.
From Stdlib Require Import DecimalString DecimalZ DecimalPos DecimalFacts.
From stdpp Require Import gmap strings list.

Open Scope Z_scope.

(* ================================================================== *)
(** * JavaScript numbers *)
(* ================================================================== *)

Module JS.

Inductive number : Type :=
| Fin (q : Q)
| PInf
| NInf
| NaN.

Definition of_Z (z : Z) : number := Fin (inject_Z z).
Arguments of_Z z%_Z_scope.
Definition of_nat (n : nat) : number := of_Z (Z.of_nat n).

Definition isNaN (a : number) : bool :=
  match a with NaN => true | _ => false end.

Definition neg (a : number) : number :=
  match a with
  | Fin x => Fin (Qred (- x))
  | PInf => NInf
  | NInf => PInf
  | NaN => NaN
  end.

(** [a + b] *)
Definition add (a b : number) : number :=
  match a, b with
  | NaN, _ | _, NaN => NaN
  | Fin x, Fin y => Fin (Qred (x + y))
  | PInf, NInf | NInf, PInf => NaN
  | PInf, _ | _, PInf => PInf
  | NInf, _ | _, NInf => NInf
  end.

(** [a - b] *)
Definition sub (a b : number) : number :=
  match a, b with
  | NaN, _ | _, NaN => NaN
  | Fin x, Fin y => Fin (Qred (x - y))
  | PInf, PInf | NInf, NInf => NaN
  | PInf, _ | _, NInf => PInf
  | NInf, _ | _, PInf => NInf
  end.

(** The sign of an infinity scaled by a finite factor. *)
Definition scale_inf (positive : bool) (y : Q) : number :=
  match (y ?= 0)%Q with
  | Eq => NaN
  | Gt => if positive then PInf else NInf
  | Lt => if positive then NInf else PInf
  end.

(** [a * b] *)
Definition mul (a b : number) : number :=
  match a, b with
  | NaN, _ | _, NaN => NaN
  | Fin x, Fin y => Fin (Qred (x * y))
  | PInf, Fin y | Fin y, PInf => scale_inf true y
  | NInf, Fin y | Fin y, NInf => scale_inf false y
  | PInf, PInf | NInf, NInf => PInf
  | PInf, NInf | NInf, PInf => NInf
  end.

(** [a / b]: a finite value over zero is an infinity of the sign of the
    numerator, and [0 / 0] is [NaN]. *)
Definition div (a b : number) : number :=
  match a, b with
  | NaN, _ | _, NaN => NaN
  | Fin x, Fin y =>
      if Qeq_bool y 0 then
        match (x ?= 0)%Q with
        | Eq => NaN
        | Gt => PInf
        | Lt => NInf
        end
      else Fin (Qred (x / y))
  | Fin _, PInf | Fin _, NInf => Fin 0
  | PInf, Fin y => if Qle_bool 0 y then PInf else NInf
  | NInf, Fin y => if Qle_bool 0 y then NInf else PInf
  | PInf, PInf | PInf, NInf | NInf, PInf | NInf, NInf => NaN
  end.

(** [Math.floor] *)
Definition Math_floor (a : number) : number :=
  match a with
  | Fin x => of_Z (Qfloor x)
  | _ => a
  end.

(** [Math.round]: the nearest integer, ties towards [+Infinity]. *)
Definition Math_round (a : number) : number :=
  match a with
  | Fin x => of_Z (Qfloor (x + (1 # 2)))
  | _ => a
  end.

(** [a < b]; every comparison with [NaN] is false. *)
Definition ltb (a b : number) : bool :=
  match a, b with
  | NaN, _ | _, NaN => false
  | Fin x, Fin y => negb (Qle_bool y x)
  | NInf, NInf | PInf, _ | _, NInf => false
  | NInf, _ | _, PInf => true
  end.

(** [a <= b] *)
Definition leb (a b : number) : bool :=
  match a, b with
  | NaN, _ | _, NaN => false
  | Fin x, Fin y => Qle_bool x y
  | NInf, _ | _, PInf => true
  | PInf, _ | _, NInf => false
  end.

(** [a > b] and [a >= b] *)
Definition gtb (a b : number) : bool := ltb b a.
Definition geb (a b : number) : bool := leb b a.

(** [a === b] *)
Definition eqb (a b : number) : bool :=
  match a, b with
  | Fin x, Fin y => Qeq_bool x y
  | PInf, PInf | NInf, NInf => true
  | _, _ => false
  end.

(** The integer a finite number denotes, when it denotes one. *)
Definition to_Z (a : number) : option Z :=
  match a with
  | Fin x => if Qeq_bool x (inject_Z (Qfloor x)) then Some (Qfloor x) else None
  | _ => None
  end.

(** Decimal digits of an integer, as [Number::toString] prints integers of
    magnitude below 10^21. *)
Definition Z_toString (z : Z) : string := NilZero.string_of_int (Z.to_int z).

(** Truthiness of a string. *)
Definition truthy (s : string) : bool :=
  match s with EmptyString => false | _ => true end.

End JS.

Declare Scope js_scope.
Delimit Scope js_scope with js.
Infix "+" := JS.add : js_scope.
Infix "-" := JS.sub : js_scope.
Infix "*" := JS.mul : js_scope.
Infix "/" := JS.div : js_scope.
Infix "<?" := JS.ltb : js_scope.
Infix "<=?" := JS.leb : js_scope.
Infix ">?" := JS.gtb : js_scope.
Infix ">=?" := JS.geb : js_scope.

(* ================================================================== *)
(** * Errors ([utils/errors.ts]) *)
(* ================================================================== *)

Inductive ErrorName : Type :=
| InvalidArgumentError
| BadMetadataError
| BadURLError
| InternalError.

Record PrometeoError : Type := mkError { name : ErrorName; message : string }.

(** What a [throw] or a rejected promise carries: an error of the
    library, or an error raised by the platform ([fetch], [fs]). *)
Inductive exn : Type :=
| Err (e : PrometeoError)
| NodeErr (what : string).

(** A computation that either returns or throws. *)
Inductive result (A : Type) : Type :=
| Ok (a : A)
| Throw (e : exn).
Arguments Ok {A} a.
Arguments Throw {A} e.

Definition throw {A} (n : ErrorName) (m : string) : result A :=
  Throw (Err (mkError n m)).

Definition bind {A B} (r : result A) (k : A -> result B) : result B :=
  match r with
  | Ok a => k a
  | Throw e => Throw e
  end.

Notation "'let*' x ':=' r 'in' k" := (bind r (fun x => k))
  (at level 10, x name, r at level 100, k at level 200).

(** The library error a computation ends with, if it ends with one. *)
Definition thrown {A} (r : result A) : option ErrorName :=
  match r with
  | Throw (Err e) => Some (name e)
  | _ => None
  end.

Definition returns {A} (r : result A) : bool :=
  match r with Ok _ => true | Throw _ => false end.

(* ================================================================== *)
(** * The platform *)
(* ================================================================== *)

(** The response of a [HEAD] request: [res.ok] and [res.headers]. *)
Record Response : Type := mkResponse {
  ok : bool;
  headers : gmap string string
}.

(** The file system: absolute paths to directories and regular files. *)
Inductive node : Type :=
| Directory
| Regular (content : string).

Definition FS : Type := gmap string node.

(** Services of the JavaScript runtime that the library calls. *)
Record Platform : Type := mkPlatform {
  (** [new URL(url)] returns instead of throwing *)
  URL_valid : string -> bool;
  (** [new URL(url).pathname] *)
  URL_pathname : string -> string;
  (** [fetch(url, {method: "HEAD"})]; [None] when the promise rejects *)
  fetch_HEAD : string -> option Response;
  (** [Number(s)] on a string *)
  StringToNumber : string -> JS.number;
  (** [String(x)] on a finite number that is not an integer below 10^21 *)
  NumberToString : Q -> string;
  (** [s.trim()] *)
  String_trim : string -> string;
  (** the capture of [s.match(/filename="(.+)"/)] *)
  match_filename : string -> option string;
  (** [path.resolve(a, b)], [path.extname(p)] *)
  path_resolve : string -> string -> string;
  path_extname : string -> string;
  (** [crypto.randomBytes(16).toString("hex")] *)
  randomBytes16_hex : string;
  (** [mkdirp.sync(p)] and [fs.rmSync(p, {recursive: true, force: true})];
      [None] when they throw *)
  mkdirp_sync : FS -> string -> option FS;
  rmSync_recursive : FS -> string -> option FS;
  (** [StreamSpeed.toHuman(n, {timeUnit: "s", precision: 3})] *)
  toHuman : JS.number -> string;
  (** [n.toFixed(2)] *)
  toFixed2 : JS.number -> string;
  (** [utils.inspect(e, {depth: null})] on an error with message [m] *)
  inspect : string -> string;
  (** the UTF-8 decoder on ill-formed bytes *)
  utf8_decode_lossy : list Byte.byte -> string
}.

Module fs.
Definition existsSync (d : FS) (p : string) : bool :=
  match d !! p with Some _ => true | None => false end.

(** [fs.statSync(p).isFile()] and [.isDirectory()]; [statSync] throws on
    a path that does not exist. *)
Definition isFile (d : FS) (p : string) : result bool :=
  match d !! p with
  | Some (Regular _) => Ok true
  | Some Directory => Ok false
  | None => Throw (NodeErr "ENOENT")
  end.

Definition isDirectory (d : FS) (p : string) : result bool :=
  match d !! p with
  | Some Directory => Ok true
  | Some (Regular _) => Ok false
  | None => Throw (NodeErr "ENOENT")
  end.

(** [fs.writeFileSync(p, data)]: creates or replaces a regular file;
    throws on a directory. *)
Definition writeFileSync (d : FS) (p data : string) : result FS :=
  match d !! p with
  | Some Directory => Throw (NodeErr "EISDIR")
  | _ => Ok (<[p := Regular data]> d)
  end.

(** [fs.readFileSync(p)] *)
Definition readFileSync (d : FS) (p : string) : result string :=
  match d !! p with
  | Some (Regular c) => Ok c
  | Some Directory => Throw (NodeErr "EISDIR")
  | None => Throw (NodeErr "ENOENT")
  end.

(** The length of a regular file, as [fs.statSync(p).size] reports it. *)
Definition size (d : FS) (p : string) : option Z :=
  match d !! p with
  | Some (Regular c) => Some (Z.of_nat (String.length c))
  | _ => None
  end.
End fs.

(** [String(a)] *)
Definition Number_toString (P : Platform) (a : JS.number) : string :=
  match a with
  | JS.NaN => "NaN"
  | JS.PInf => "Infinity"
  | JS.NInf => "-Infinity"
  | JS.Fin q =>
      match JS.to_Z a with
      | Some z =>
          if Z.abs z <? 10 ^ 21 then JS.Z_toString z else NumberToString P q
      | None => NumberToString P q
      end
  end.

(** [Number(h)] on the result of [headers.get]: [null] converts to 0. *)
Definition Number_of_header (P : Platform) (h : option string) : JS.number :=
  match h with
  | None => JS.of_Z 0
  | Some s => StringToNumber P s
  end.

(* ================================================================== *)
(** * String helpers *)
(* ================================================================== *)

(** [s.split(sep)[0]] for a one-character separator. *)
Fixpoint split_head (sep : ascii) (s : string) : string :=
  match s with
  | EmptyString => EmptyString
  | String c r => if Ascii.eqb c sep then EmptyString else String c (split_head sep r)
  end.

(** [s.split(sep).pop()] for a one-character separator: what follows the
    last separator. *)
Fixpoint split_last_aux (sep : ascii) (acc s : string) : string :=
  match s with
  | EmptyString => acc
  | String c r =>
      if Ascii.eqb c sep then split_last_aux sep r r
      else split_last_aux sep acc r
  end.
Definition split_last (sep : ascii) (s : string) : string := split_last_aux sep s s.

(** [s.replace(pat, empty)] for a string pattern: the first occurrence goes. *)
Fixpoint remove_first (pat s : string) : string :=
  if String.prefix pat s then
    substring (String.length pat) (String.length s - String.length pat) s
  else
    match s with
    | EmptyString => EmptyString
    | String c r => String c (remove_first pat r)
    end.

(** [s.length === 0] *)
Definition is_empty (s : string) : bool :=
  match s with EmptyString => true | _ => false end.

Definition any_of (cs : list string) (m : string) : bool :=
  existsb (String.eqb m) cs.

(* ================================================================== *)
(** * The URL prober ([utils/url.ts]) *)
(* ================================================================== *)

Module URLUtils.

Record URLData : Type := mkURLData {
  fileType : string;
  size : JS.number;
  acceptRange : bool;
  fileName : string;
  contentType : string
}.

Section WithPlatform.
Variable P : Platform.

Definition validate (url : string) : bool := URL_valid P url.

(** [/^[a-zA-Z0-9\.\-\_]+$/.test(filename)] *)
Definition name_char (c : ascii) : bool :=
  let n := N_of_ascii c in
  ((97 <=? n) && (n <=? 122) || (65 <=? n) && (n <=? 90) ||
   (48 <=? n) && (n <=? 57) || (n =? 46) || (n =? 45) || (n =? 95))%N.

Definition isValidFileName (filename : string) : bool :=
  JS.truthy filename && forallb name_char (list_ascii_of_string filename).

Definition generateFilename (ext : string) : string :=
  randomBytes16_hex P +:+ ext.

Definition getFileName (url : string) (data : Response) : string :=
  let fromHeader :=
    match headers data !! "content-disposition" with
    | Some contentDisposition =>
        if JS.truthy contentDisposition then match_filename P contentDisposition
        else None
    | None => None
    end in
  match fromHeader with
  | Some nombreDelArchivo => nombreDelArchivo
  | None => split_last "/" url
  end.

Definition getFileType (url : string) (data : Response) : string :=
  match headers data !! "content-type" with
  | None => ".unknow"
  | Some header =>
      if negb (JS.truthy header) then ".unknow"
      else
        let contentTypeParte := String_trim P (split_head ";" header) in
        let tipoDeArchivo := split_last "/" contentTypeParte in
        let ext := path_extname P (URL_pathname P url) in
        let fileType :=
          if (0 <? String.length ext)%nat then ext
          else if JS.truthy tipoDeArchivo then tipoDeArchivo else "unknow" in
        "." +:+ remove_first "." fileType
  end.

(** [getData]: a [HEAD] request and the metadata read off its headers. *)
Definition getData (url : string) : result URLData :=
  match fetch_HEAD P url with
  | None => Throw (NodeErr "fetch failed")
  | Some res =>
      if negb (ok res) then
        throw InvalidArgumentError "The url entered returned an incorrect response"
      else
        let contentType := default EmptyString (headers res !! "content-type") in
        let size := Number_of_header P (headers res !! "content-length") in
        let size := if JS.isNaN size then JS.of_Z 0 else size in
        let acceptRange :=
          match headers res !! "accept-ranges" with
          | Some v => String.eqb v "bytes"
          | None => false
          end in
        let fileType := getFileType url res in
        let fileName := getFileName url res in
        Ok (mkURLData fileType size acceptRange fileName contentType)
  end.
End WithPlatform.

End URLUtils.

(* ================================================================== *)
(** * The log writer ([utils/writeStream.ts]) *)
(* ================================================================== *)

Module Writer.

Section WithListeners.
(** The closures registered with [on]. *)
Context {L : Type}.

Record t : Type := mk {
  (** [pendingWrites] *)
  pendingWrites : Z;
  (** data handed to [stream.write] whose callback has not run yet *)
  inflight : list string;
  (** data whose callback has run *)
  flushed : list string;
  (** [stream.close()] was called *)
  closed : bool;
  (** registrations made with [on(event, listener)], oldest first *)
  registered : list (string * L)
}.

Definition create : t := mk 0 [] [] false [].

Definition on (event : string) (l : L) (w : t) : t :=
  mk (pendingWrites w) (inflight w) (flushed w) (closed w)
     (registered w ++ [(event, l)]).

(** The listeners [emit(event)] calls, in registration order. *)
Definition listeners (event : string) (w : t) : list L :=
  map snd (filter (fun r => String.eqb (fst r) event) (registered w)).

(** [write(data)]: count the write and queue it on the stream. *)
Definition write (data : string) (w : t) : t :=
  mk (pendingWrites w + 1) (inflight w ++ [data]) (flushed w) (closed w)
     (registered w).

(** The callback passed to [stream.write], run for the oldest queued
    write: [pendingWrites--] and [emit("write")].  Returns the
    listeners that the emit calls. *)
Definition write_callback (w : t) : t * list L :=
  match inflight w with
  | [] => (w, [])
  | data :: rest =>
      let w' := mk (pendingWrites w - 1) rest (flushed w ++ [data]) (closed w)
                   (registered w) in
      (w', listeners "write" w')
  end.

(** [stop()] *)
Definition stop (w : t) : t :=
  mk 0 (inflight w) (flushed w) true (registered w).
End WithListeners.
Arguments t : clear implicits.

End Writer.

(* ================================================================== *)
(** * Buffers ([Buffer.from], [reverse], [toString]) *)
(* ================================================================== *)

Module Buffer.

Definition t : Type := list Byte.byte.

(** Lowercase hexadecimal digit of a value below 16. *)
Definition hex_digit (n : N) : ascii :=
  if (n <? 10)%N then ascii_of_N (48 + n) else ascii_of_N (87 + n).

(** The value of a hexadecimal digit, of either case. *)
Definition hex_value (c : ascii) : option N :=
  let n := N_of_ascii c in
  if ((48 <=? n) && (n <=? 57))%N then Some (n - 48)%N
  else if ((97 <=? n) && (n <=? 102))%N then Some (n - 87)%N
  else if ((65 <=? n) && (n <=? 70))%N then Some (n - 55)%N
  else None.

(** [Buffer.from(s)]: the UTF-8 bytes of a string. *)
Definition from_utf8 (s : string) : t := list_byte_of_string s.

(** [buf.reverse()] *)
Definition reverse (b : t) : t := rev b.

(** [buf.toString("hex")] *)
Fixpoint toString_hex (b : t) : string :=
  match b with
  | [] => EmptyString
  | x :: r =>
      let n := Byte.to_N x in
      String (hex_digit (n / 16)) (String (hex_digit (n mod 16)) (toString_hex r))
  end.

(** [Buffer.from(s, "hex")]: decodes pairs of digits and stops at the
    first pair that is not hexadecimal. *)
Fixpoint from_hex (s : string) : t :=
  match s with
  | String c1 (String c2 r) =>
      match hex_value c1, hex_value c2 with
      | Some h, Some l =>
          match Byte.of_N (16 * h + l) with
          | Some x => x :: from_hex r
          | None => []
          end
      | _, _ => []
      end
  | _ => []
  end.

(** Well-formed UTF-8 (Unicode, table 3-7). *)
Definition in_range (lo hi : N) (x : Byte.byte) : bool :=
  ((lo <=? Byte.to_N x) && (Byte.to_N x <=? hi))%N.

Definition cont (x : Byte.byte) : bool := in_range 128 191 x.

Fixpoint utf8_wellformed (b : t) : bool :=
  match b with
  | [] => true
  | x :: r =>
      if in_range 0 127 x then utf8_wellformed r
      else if in_range 194 223 x then
        match r with
        | y :: r' => cont y && utf8_wellformed r'
        | _ => false
        end
      else if in_range 224 239 x then
        match r with
        | y :: z :: r' =>
            (if in_range 224 224 x then in_range 160 191 y
             else if in_range 237 237 x then in_range 128 159 y
             else cont y) && cont z && utf8_wellformed r'
        | _ => false
        end
      else if in_range 240 244 x then
        match r with
        | y :: z :: w :: r' =>
            (if in_range 240 240 x then in_range 144 191 y
             else if in_range 244 244 x then in_range 128 143 y
             else cont y) && cont z && cont w && utf8_wellformed r'
        | _ => false
        end
      else false
  end.

Section WithDecoder.
(** The decoder of ill-formed input, which substitutes U+FFFD. *)
Variable utf8_decode_lossy : t -> string.

(** [buf.toString("utf-8")] *)
Definition toString_utf8 (b : t) : string :=
  if utf8_wellformed b then string_of_list_byte b else utf8_decode_lossy b.
End WithDecoder.

End Buffer.

(* ================================================================== *)
(** * JSON ([JSON.stringify], [JSON.parse]) *)
(* ================================================================== *)

Module JSON.

(** JavaScript values that JSON denotes.  The members of an object are
    listed in the order in which the object enumerates its own keys. *)
#[local] Unset Elimination Schemes.
Inductive value : Type :=
| Null
| Bool (b : bool)
| Num (n : JS.number)
| Str (s : string)
| Arr (l : list value)
| Obj (l : list (string * value)).
#[local] Set Elimination Schemes.

(** ** Printing *)

Definition hex4 (n : N) : string :=
  String (Buffer.hex_digit (n / 4096))
    (String (Buffer.hex_digit ((n / 256) mod 16))
      (String (Buffer.hex_digit ((n / 16) mod 16))
        (String (Buffer.hex_digit (n mod 16)) EmptyString))).

(** [QuoteJSONString], one code unit at a time. *)
Definition escape_char (c : ascii) : string :=
  let n := N_of_ascii c in
  if (n =? 8)%N then "\b"
  else if (n =? 9)%N then "\t"
  else if (n =? 10)%N then "\n"
  else if (n =? 12)%N then "\f"
  else if (n =? 13)%N then "\r"
  else if (n =? 34)%N then String "\" (String "034" EmptyString)
  else if (n =? 92)%N then "\\"
  else if (n <? 32)%N then "\u" +:+ hex4 n
  else String c EmptyString.

Fixpoint escape (s : string) : string :=
  match s with
  | EmptyString => EmptyString
  | String c r => escape_char c +:+ escape r
  end.

(** The items of an array or an object, with a separator between them. *)
Fixpoint join (sep : string) (l : list string) : string :=
  match l with
  | [] => EmptyString
  | [x] => x
  | x :: r => x +:+ sep +:+ join sep r
  end.

Definition quote (s : string) : string :=
  String "034" (escape s +:+ String "034" EmptyString).

Section Printer.
Variable P : Platform.

Definition print_number (n : JS.number) : string :=
  match n with
  | JS.Fin _ => Number_toString P n
  | _ => "null"
  end.

Fixpoint stringify (v : value) : string :=
  match v with
  | Null => "null"
  | Bool true => "true"
  | Bool false => "false"
  | Num n => print_number n
  | Str s => quote s
  | Arr l => "[" +:+ join "," (map stringify l) +:+ "]"
  | Obj l =>
      "{" +:+ join "," (map (fun m => quote (fst m) +:+ ":" +:+ stringify (snd m)) l)
        +:+ "}"
  end.
End Printer.

(** ** Parsing *)

Definition is_ws (c : ascii) : bool :=
  let n := N_of_ascii c in ((n =? 32) || (n =? 9) || (n =? 10) || (n =? 13))%N.

Fixpoint skip_ws (s : string) : string :=
  match s with
  | String c r => if is_ws c then skip_ws r else s
  | EmptyString => s
  end.

Definition is_digit (c : ascii) : bool :=
  let n := N_of_ascii c in ((48 <=? n) && (n <=? 57))%N.

(** The longest prefix of digits, and what follows it. *)
Fixpoint span_digits (s : string) : string * string :=
  match s with
  | String c r =>
      if is_digit c then let '(ds, r') := span_digits r in (String c ds, r')
      else (EmptyString, s)
  | EmptyString => (EmptyString, s)
  end.

(** [0] or a digit from 1 to 9 followed by digits. *)
Definition parse_int_part (s : string) : option (string * string) :=
  match s with
  | String c r =>
      if Ascii.eqb c "0" then Some ("0"%string, r)
      else if is_digit c then let '(ds, r') := span_digits r in Some (String c ds, r')
      else None
  | EmptyString => None
  end.

(** An optional fraction: a point and at least one digit. *)
Definition parse_frac (s : string) : option (string * string) :=
  match s with
  | String "." r =>
      let '(ds, r') := span_digits r in
      if is_empty ds then None else Some (String "." ds, r')
  | _ => Some (EmptyString, s)
  end.

(** An optional exponent: [e] or [E], an optional sign, at least one digit. *)
Definition parse_exp (s : string) : option (string * string) :=
  match s with
  | String c r =>
      if Ascii.eqb c "e" || Ascii.eqb c "E" then
        let '(sign, r1) :=
          match r with
          | String "+" r1 => ("+"%string, r1)
          | String "-" r1 => ("-"%string, r1)
          | _ => (EmptyString, r)
          end in
        let '(ds, r') := span_digits r1 in
        if is_empty ds then None else Some (String c (sign +:+ ds), r')
      else Some (EmptyString, s)
  | EmptyString => Some (EmptyString, s)
  end.

Definition simple_escape (e : ascii) : option ascii :=
  let n := N_of_ascii e in
  if (n =? 34)%N then Some "034"%char
  else if (n =? 92)%N then Some "\"%char
  else if (n =? 47)%N then Some "/"%char
  else if (n =? 98)%N then Some "008"%char
  else if (n =? 102)%N then Some "012"%char
  else if (n =? 110)%N then Some "010"%char
  else if (n =? 114)%N then Some "013"%char
  else if (n =? 116)%N then Some "009"%char
  else None.

Definition hex4_value (h1 h2 h3 h4 : ascii) : option N :=
  a ← Buffer.hex_value h1; b ← Buffer.hex_value h2;
  c ← Buffer.hex_value h3; d ← Buffer.hex_value h4;
  Some (4096 * a + 256 * b + 16 * c + d)%N.

(** The UTF-8 code units of a code point; a surrogate that stands alone
    is kept in the same three-unit form. *)
Definition utf8_of_code (n : N) : string :=
  if (n <? 128)%N then String (ascii_of_N n) EmptyString
  else if (n <? 2048)%N then
    String (ascii_of_N (192 + n / 64))
      (String (ascii_of_N (128 + n mod 64)) EmptyString)
  else if (n <? 65536)%N then
    String (ascii_of_N (224 + n / 4096))
      (String (ascii_of_N (128 + (n / 64) mod 64))
        (String (ascii_of_N (128 + n mod 64)) EmptyString))
  else
    String (ascii_of_N (240 + n / 262144))
      (String (ascii_of_N (128 + (n / 4096) mod 64))
        (String (ascii_of_N (128 + (n / 64) mod 64))
          (String (ascii_of_N (128 + n mod 64)) EmptyString))).

Definition is_high_surrogate (u : N) : bool := ((55296 <=? u) && (u <=? 56319))%N.
Definition is_low_surrogate (u : N) : bool := ((56320 <=? u) && (u <=? 57343))%N.

(** The low surrogate escaped at the head of [s], if there is one. *)
Definition low_surrogate_ahead (s : string) : option N :=
  match s with
  | String "\" (String "u" (String l1 (String l2 (String l3 (String l4 _))))) =>
      u ← hex4_value l1 l2 l3 l4;
      if is_low_surrogate u then Some u else None
  | _ => None
  end.

(** The characters of a string literal after its opening quote, up to
    the closing quote, and what follows it. *)
Fixpoint parse_string (s : string) : option (string * string) :=
  match s with
  | EmptyString => None
  | String c r =>
      if Ascii.eqb c "034" then Some (EmptyString, r)
      else if Ascii.eqb c "\" then
        match r with
        | String e r1 =>
            match simple_escape e with
            | Some d => '(t, r') ← parse_string r1; Some (String d t, r')
            | None =>
                if Ascii.eqb e "u" then
                  match r1 with
                  | String h1 (String h2 (String h3 (String h4 r2))) =>
                      u ← hex4_value h1 h2 h3 h4;
                      match (if is_high_surrogate u then low_surrogate_ahead r2
                             else None), r2 with
                      | Some l, String _ (String _ (String _ (String _
                                  (String _ (String _ r3))))) =>
                          '(t, r') ← parse_string r3;
                          Some (utf8_of_code
                                  (65536 + 1024 * (u - 55296) + (l - 56320))
                                +:+ t, r')
                      | _, _ => '(t, r') ← parse_string r2; Some (utf8_of_code u +:+ t, r')
                      end
                  | _ => None
                  end
                else None
            end
        | EmptyString => None
        end
      else if (N_of_ascii c <? 32)%N then None
      else '(t, r') ← parse_string r; Some (String c t, r')
  end.

(** *** Objects as the parser builds them *)

(** An array index: the canonical decimal form of an integer below
    2^32 - 1. *)
Definition array_index (k : string) : option Z :=
  d ← NilZero.uint_of_string k;
  let z := Z.of_uint d in
  if String.eqb (JS.Z_toString z) k && (z <? 2 ^ 32 - 1) then Some z else None.

Definition has_key (k : string) (o : list (string * value)) : bool :=
  existsb (fun m => String.eqb (fst m) k) o.

Definition replace_key (k : string) (v : value) (o : list (string * value)) :=
  map (fun m => if String.eqb (fst m) k then (k, v) else m) o.

(** Where a new index key goes: before the first key that is not an
    index or is a larger index. *)
Fixpoint insert_index (i : Z) (k : string) (v : value) (o : list (string * value)) :=
  match o with
  | [] => [(k, v)]
  | m :: r =>
      match array_index (fst m) with
      | Some j => if j <? i then m :: insert_index i k v r else (k, v) :: o
      | None => (k, v) :: o
      end
  end.

(** [CreateDataProperty]: an existing key keeps its place, a new index
    key is enumerated among the indices in ascending order, any other
    new key comes last. *)
Definition define_property (o : list (string * value)) (m : string * value) :=
  let '(k, v) := m in
  if has_key k o then replace_key k v o
  else match array_index k with
       | Some i => insert_index i k v o
       | None => o ++ [(k, v)]
       end.

Definition object_of (members : list (string * value)) : list (string * value) :=
  fold_left define_property members [].

Definition strip_prefix (p s : string) : option string :=
  if String.prefix p s
  then Some (substring (String.length p) (String.length s - String.length p) s)
  else None.

Section Parser.
Variable P : Platform.

Definition parse_number (s : string) : option (JS.number * string) :=
  let '(minus, s1) :=
    match s with
    | String "-" r => (true, r)
    | _ => (false, s)
    end in
  '(i, s2) ← parse_int_part s1;
  '(f, s3) ← parse_frac s2;
  '(e, s4) ← parse_exp s3;
  if is_empty f && is_empty e then
    d ← NilZero.uint_of_string i;
    Some (JS.of_Z (if minus then - Z.of_uint d else Z.of_uint d), s4)
  else
    Some (StringToNumber P ((if minus then "-" else EmptyString) +:+ i +:+ f +:+ e), s4).

Fixpoint parse_value (fuel : nat) (s : string) : option (value * string) :=
  match fuel with
  | O => None
  | S fuel' =>
      match skip_ws s with
      | EmptyString => None
      | String c r =>
          if Ascii.eqb c "n" then r' ← strip_prefix "ull" r; Some (Null, r')
          else if Ascii.eqb c "t" then r' ← strip_prefix "rue" r; Some (Bool true, r')
          else if Ascii.eqb c "f" then r' ← strip_prefix "alse" r; Some (Bool false, r')
          else if Ascii.eqb c "034" then '(t, r') ← parse_string r; Some (Str t, r')
          else if Ascii.eqb c "[" then
            match skip_ws r with
            | String "]" r' => Some (Arr [], r')
            | r0 => '(l, r') ← parse_elements fuel' r0; Some (Arr l, r')
            end
          else if Ascii.eqb c "{" then
            match skip_ws r with
            | String "}" r' => Some (Obj [], r')
            | r0 => '(l, r') ← parse_members fuel' r0; Some (Obj (object_of l), r')
            end
          else if Ascii.eqb c "-" || is_digit c then
            '(n, r') ← parse_number (String c r); Some (Num n, r')
          else None
      end
  end
with parse_elements (fuel : nat) (s : string) : option (list value * string) :=
  match fuel with
  | O => None
  | S fuel' =>
      '(v, r) ← parse_value fuel' s;
      match skip_ws r with
      | String "," r' => '(l, r'') ← parse_elements fuel' r'; Some (v :: l, r'')
      | String "]" r' => Some ([v], r')
      | _ => None
      end
  end
with parse_members (fuel : nat) (s : string) : option (list (string * value) * string) :=
  match fuel with
  | O => None
  | S fuel' =>
      match skip_ws s with
      | String "034" r =>
          '(k, r1) ← parse_string r;
          match skip_ws r1 with
          | String ":" r2 =>
              '(v, r3) ← parse_value fuel' r2;
              match skip_ws r3 with
              | String "," r4 =>
                  '(l, r5) ← parse_members fuel' r4; Some ((k, v) :: l, r5)
              | String "}" r4 => Some ([(k, v)], r4)
              | _ => None
              end
          | _ => None
          end
      | _ => None
      end
  end.

(** [JSON.parse(s)]; [None] stands for the [SyntaxError]. *)
Definition parse (s : string) : option value :=
  '(v, r) ← parse_value (S (String.length s)) s;
  if is_empty (skip_ws r) then Some v else None.
End Parser.

End JSON.

(* ================================================================== *)
(** * Ranges and parts ([lib/file.ts]) *)
(* ================================================================== *)

(** A range [[start, end]], both ends included. *)
Abbreviation Range := (JS.number * JS.number)%type.

(** [Part]: the object [{ [index]: [file, [start, end]] }].  Its keys are
    array indices, which an object enumerates in ascending order. *)
Abbreviation Part := (list (nat * (string * Range))).

(* ================================================================== *)
(** * The range worker ([lib/connection.ts]) *)
(* ================================================================== *)

Module Connection.

(** [ConnectionEvents] *)
Inductive event : Type :=
| log (msg : string)
| finish (status : bool)
| destroy.

(** The request handed to [axios]. *)
Record request : Type := mkRequest {
  method : string;
  request_url : string;
  header_Range : string;
  header_User_Agent : string
}.

(** Where the asynchronous body of [start] stands. *)
Inductive pc : Type :=
| NotStarted
| AwaitingResponse   (* at [await axios(...)] *)
| Piping             (* at [await pipeline(...)] *)
| Returned.

Record t : Type := mk {
  file : string;
  url : string;
  speedLimit : JS.number;
  range : Range;
  speed : JS.number;
  index : nat;
  _progress : JS.number;
  finished : bool;
  stopped : bool;
  totalDownloaded : JS.number;
  (** the locals of [start] that its callbacks capture *)
  at_pc : pc;
  partSize : JS.number;
  throttle : option JS.number;   (* the rate of the [Throttle] *)
  st_closed : bool;              (* [st.close()] was called *)
  aborted : bool                 (* [controller.abort()] was called *)
}.

(** [ConnectionOptions] *)
Record ConnectionOptions : Type := mkOptions {
  o_url : string;
  o_part : nat * string * Range;
  o_speed : JS.number;
  o_contentType : string
}.

(** [new Connection(Manager, options)] *)
Definition create (options : ConnectionOptions) : t :=
  let '(i, f, r) := o_part options in
  {| file := f; url := o_url options; speedLimit := o_speed options; range := r;
     speed := JS.of_Z 0; index := i; _progress := JS.of_Z 0; finished := false;
     stopped := false; totalDownloaded := JS.of_Z 0;
     at_pc := NotStarted; partSize := JS.of_Z 0; throttle := None;
     st_closed := false; aborted := false |}.

Definition getSpeed (c : t) : JS.number := speedLimit c.
Definition progress (c : t) : JS.number := _progress c.

Section WithPlatform.
Variable P : Platform.
Local Open Scope js_scope.

(** [log(message)] *)
Definition log_event (c : t) (message : string) : event :=
  log ("[Connection - " +:+ JS.Z_toString (Z.of_nat (index c)) +:+ "] " +:+ message).

(** The length of the part file on disk, 0 when it is missing. *)
Definition existing (d : FS) (c : t) : JS.number :=
  if fs.existsSync d (file c) then
    match fs.size d (file c) with
    | Some n => JS.of_Z n
    | None => (JS.of_Z 0)
    end
  else (JS.of_Z 0).

(** The test that guards the short circuit of [start]. *)
Definition already_downloaded (c : t) (partSize : JS.number) : bool :=
  fst (range c) + partSize >=? snd (range c).

(** The [Range] header of the request. *)
Definition Range_header (c : t) (partSize : JS.number) : string :=
  "bytes=" +:+ Number_toString P (fst (range c) + partSize) +:+ "-"
    +:+ Number_toString P (snd (range c)).

Definition the_request (c : t) (partSize : JS.number) : request :=
  {| method := "GET"; request_url := url c;
     header_Range := Range_header c partSize;
     header_User_Agent :=
       "Mozilla/5.0 (Windows NT 10.0; Win64; x64) AppleWebKit/53" |}.

(** [fs.createWriteStream(file, {flags: "a"})] opens the file for
    appending and creates it when it is missing. *)
Definition open_append (d : FS) (p : string) : FS :=
  match d !! p with
  | None => <[p := Regular EmptyString]> d
  | Some _ => d
  end.

(** [start()], up to its first suspension: the worker after it, the
    file system, the events it emitted, and the request it issued, if
    it issued one. *)
Definition start (d : FS) (c : t) : t * FS * list event * option request :=
  let started :=
    log_event c ("Starting download with a limit speed of: "
                 +:+ toHuman P (speedLimit c)) in
  let partSize := existing d c in
  if already_downloaded c partSize then
    (mk (file c) (url c) (speedLimit c) (range c) (speed c) (index c)
        (_progress c) true (stopped c) (totalDownloaded c)
        Returned partSize (throttle c) (st_closed c) (aborted c),
     d,
     [started; log_event c "Part is already downloaded"; finish true],
     None)
  else
    let resuming :=
      if partSize >? (JS.of_Z 0)
      then [log_event c "Part already downloaded, but not complete, resuming..."]
      else [] in
    (mk (file c) (url c) (speedLimit c) (range c) (speed c) (index c)
        (_progress c) (finished c) (stopped c) (totalDownloaded c)
        AwaitingResponse partSize (Some (getSpeed c)) false false,
     open_append d (file c),
     started :: resuming,
     Some (the_request c partSize)).

(** The three log lines of an unexpected failure. *)
Definition failure_logs (c : t) (message : string) : list event :=
  if any_of ["closed"; "Premature close"; "canceled"]%string message then []
  else
    let i := JS.Z_toString (Z.of_nat (index c)) in
    [log_event c ("Stopping Connection " +:+ i +:+ " [" +:+ message +:+ "]");
     log_event c ("Connection " +:+ i +:+ " Error:");
     log_event c (inspect P message)].

(** The [catch] of the request: log, close, abort, [emit("destroy")];
    [start] then returns, as [req] is undefined. *)
Definition request_failed (message : string) (c : t) : t * list event :=
  (mk (file c) (url c) (speedLimit c) (range c) (speed c) (index c)
      (_progress c) (finished c) (stopped c) (totalDownloaded c)
      Returned (partSize c) (throttle c) true true,
   failure_logs c message ++ [destroy]).

(** [onDownloadProgress]; [rate] and [progress] may be undefined. *)
Definition or_zero (x : option JS.number) : JS.number :=
  match x with
  | Some (JS.Fin q) => if Qeq_bool q 0 then (JS.of_Z 0) else JS.Fin q
  | Some JS.NaN | None => (JS.of_Z 0)
  | Some v => v
  end.

Definition onDownloadProgress (loaded : JS.number) (rate progress : option JS.number)
    (c : t) : t * list event :=
  let speed' := or_zero rate in
  let progress' := or_zero progress * (JS.of_Z 100) in
  let c' :=
    mk (file c) (url c) (speedLimit c) (range c) speed' (index c)
       progress' (finished c) (stopped c) (loaded + partSize c)
       (at_pc c) (partSize c) (throttle c) (st_closed c) (aborted c) in
  (c',
   if stopped c then []
   else [log_event c ("Downloading " +:+ toFixed2 P progress'
                      +:+ "% with a speed of " +:+ toHuman P speed')]).

(** The listener of the coordinator's [speed] event. *)
Definition on_speed (v : JS.number) (c : t) : t * list event :=
  if finished c then (c, [])
  else
    (mk (file c) (url c) v (range c) (speed c) (index c)
        (_progress c) (finished c) (stopped c) (totalDownloaded c)
        (at_pc c) (partSize c) (Some v) (st_closed c) (aborted c),
     [log_event c ("Changing speed to: " +:+ toHuman P v)]).

(** The listener of the coordinator's [stop] event. *)
Definition on_stop (c : t) : t * list event :=
  if negb (stopped c) && negb (finished c) then
    (mk (file c) (url c) (speedLimit c) (range c) (speed c) (index c)
        (_progress c) (finished c) true (totalDownloaded c)
        (at_pc c) (partSize c) (throttle c) true true,
     [log_event c ("Stopping Connection " +:+ JS.Z_toString (Z.of_nat (index c)));
      destroy])
  else (c, []).

(** The pipeline ended without an error. *)
Definition pipeline_done (c : t) : t * list event :=
  (mk (file c) (url c) (speedLimit c) (range c) (speed c) (index c)
      (_progress c) true (stopped c) (totalDownloaded c)
      Returned (partSize c) (throttle c) (st_closed c) (aborted c),
   [log_event c "Download finished"; finish true]).

(** The outer [catch]: an unexpected failure is logged and destroys the
    worker, an expected one is dropped. *)
Definition pipeline_failed (message : string) (c : t) : t * list event :=
  if any_of ["closed"; "Premature close"; "canceled"]%string message then
    (mk (file c) (url c) (speedLimit c) (range c) (speed c) (index c)
        (_progress c) (finished c) (stopped c) (totalDownloaded c)
        Returned (partSize c) (throttle c) (st_closed c) (aborted c), [])
  else
    (mk (file c) (url c) (speedLimit c) (range c) (speed c) (index c)
        (_progress c) (finished c) (stopped c) (totalDownloaded c)
        Returned (partSize c) (throttle c) true true,
     failure_logs c message ++ [destroy]).
End WithPlatform.

End Connection.

(* ================================================================== *)
(** * The plan and its manifest ([FileOptions], [lib/file.ts]) *)
(* ================================================================== *)

Module FileOptions.

Record t : Type := mk {
  url : string;
  path : string;
  name : string;
  size : JS.number;
  parts : Part;
  resumed : option bool;       (* [resumed?: boolean] *)
  speed : JS.number;
  destination : string;
  contentType : string;
  finished : bool
}.

Definition part_value (p : nat * (string * Range)) : string * JSON.value :=
  let '(i, (f, (a, b))) := p in
  (JS.Z_toString (Z.of_nat i),
   JSON.Arr [JSON.Str f; JSON.Arr [JSON.Num a; JSON.Num b]]).

(** The object a plan is, with its keys in the order in which
    [Manager.download] writes them; [resumed] is added last by
    [Object.assign] when a download is rehydrated. *)
Definition to_value (d : t) : JSON.value :=
  JSON.Obj
    ([("url", JSON.Str (url d)); ("path", JSON.Str (path d));
      ("name", JSON.Str (name d)); ("size", JSON.Num (size d));
      ("parts", JSON.Obj (map part_value (parts d)));
      ("destination", JSON.Str (destination d));
      ("speed", JSON.Num (speed d));
      ("contentType", JSON.Str (contentType d));
      ("finished", JSON.Bool (finished d))]%string
     ++ match resumed d with
        | Some b => [("resumed"%string, JSON.Bool b)]
        | None => []
        end).

(** Reading an object at the type [FileOptions]. *)
Definition get (k : string) (o : list (string * JSON.value)) : option JSON.value :=
  snd <$> find (fun m => String.eqb (fst m) k) o.

Definition get_string k o : option string :=
  match get k o with Some (JSON.Str s) => Some s | _ => None end.
Definition get_number k o : option JS.number :=
  match get k o with Some (JSON.Num n) => Some n | _ => None end.
Definition get_bool k o : option bool :=
  match get k o with Some (JSON.Bool b) => Some b | _ => None end.

Definition part_of_value (m : string * JSON.value) : option (nat * (string * Range)) :=
  match JSON.array_index (fst m), snd m with
  | Some i, JSON.Arr [JSON.Str f; JSON.Arr [JSON.Num a; JSON.Num b]] =>
      Some (Z.to_nat i, (f, (a, b)))
  | _, _ => None
  end.

Definition of_value (v : JSON.value) : option t :=
  match v with
  | JSON.Obj o =>
      url ← get_string "url" o;
      path ← get_string "path" o;
      name ← get_string "name" o;
      size ← get_number "size" o;
      parts ← match get "parts" o with
              | Some (JSON.Obj l) => mapM part_of_value l
              | _ => None
              end;
      resumed ← match get "resumed" o with
                | None => Some None
                | Some (JSON.Bool b) => Some (Some b)
                | Some _ => None
                end;
      speed ← get_number "speed" o;
      destination ← get_string "destination" o;
      contentType ← get_string "contentType" o;
      finished ← get_bool "finished" o;
      Some (mk url path name size parts resumed speed destination contentType finished)
  | _ => None
  end.

Section Codec.
Variable P : Platform.

(** [Buffer.from(JSON.stringify(download)).reverse().toString("hex")] *)
Definition encode (d : t) : string :=
  Buffer.toString_hex
    (Buffer.reverse (Buffer.from_utf8 (JSON.stringify P (to_value d)))).

(** What [File.validate] does with the content of [prometeo.config]:
    [Buffer.from(content.toString("utf-8"), "hex").reverse()
     .toString("utf-8")], then [JSON.parse]. *)
Definition decode (content : string) : option JSON.value :=
  let text := Buffer.toString_utf8 (utf8_decode_lossy P) (list_byte_of_string content) in
  let data :=
    Buffer.toString_utf8 (utf8_decode_lossy P)
      (Buffer.reverse (Buffer.from_hex text)) in
  JSON.parse P data.
End Codec.

End FileOptions.

(* ================================================================== *)
(** * The download coordinator ([lib/file.ts]) *)
(* ================================================================== *)

Module File.

(** The closures that workers register on the coordinator, by the
    worker that owns them. *)
Inductive listener : Type :=
| on_speed (cid : nat)
| on_stop (cid : nat).

(** The closures that the coordinator registers on its log writer. *)
Inductive log_listener : Type :=
| stop_drained (k : nat)   (* of the [k]-th call of [stop]: resolve once drained *)
| log_finished.            (* of [start]: clear the sampler, resolve with [false] *)

(** [FileEvents], as emitted. *)
Inductive emitted : Type :=
| ev_start
| ev_progress (speed : string) (progress estimated : JS.number)
| ev_speed (speed : JS.number)
| ev_stop
| ev_finish.

Inductive promise (A : Type) : Type :=
| Pending
| Resolved (a : A)
| Rejected (e : exn).
Arguments Pending {A}.
Arguments Resolved {A} a.
Arguments Rejected {A} e.

(** Resolving a promise that is settled has no effect. *)
Definition resolve {A} (a : A) (p : promise A) : promise A :=
  match p with
  | Pending => Resolved a
  | _ => p
  end.

(** A call of [stop]: the promise it returned and its 1000 ms timer. *)
Record stop_call : Type := mkStop {
  outcome : promise bool;
  timer_armed : bool
}.

(** Where [observer] stands.  [outer] tells whether the invocation is the
    one that [start] awaits: the recursive invocations hand their result
    to [path.resolve], so nothing awaits them. *)
Inductive observing : Type :=
| NotObserving
| Waiting (prevValue : nat)       (* at [await wait(100)] *)
| Composing (outer : bool)        (* at [await composeFile], stream closing *)
| Joining                         (* at [await composeFile], on a part that never ends *)
| Observed.

Record t : Type := mk {
  url : string;
  path : string;
  name : string;
  size : JS.number;
  progress : JS.number;
  parts : Part;
  logStream : Writer.t log_listener;
  (** every [Connection] that [start] created, by creation order *)
  workers : list Connection.t;
  (** the array [connections]: references into [workers] *)
  connections : list nat;
  speed : JS.number;
  inter : bool;                  (* the sampler is installed *)
  contentType : string;
  stoped : bool;
  destination : string;
  allConfig : FileOptions.t;
  (** registrations on the coordinator itself, oldest first *)
  registered : list (string * listener);
  (** events emitted so far, oldest first *)
  trace : list emitted;
  (** requests issued so far, with the worker that issued each *)
  issued : list (nat * Connection.request);
  stop_calls : list stop_call;
  started : promise (option string);
  waitingLog : bool;
  observer_at : observing;
  revalidating : bool
}.

(** Field updates. *)
Definition with_logStream (w : Writer.t log_listener) (f : t) : t :=
  mk (url f) (path f) (name f) (size f) (progress f) (parts f) w (workers f)
     (connections f) (speed f) (inter f) (contentType f) (stoped f) (destination f)
     (allConfig f) (registered f) (trace f) (issued f) (stop_calls f) (started f)
     (waitingLog f) (observer_at f) (revalidating f).
Definition with_workers (ws : list Connection.t) (f : t) : t :=
  mk (url f) (path f) (name f) (size f) (progress f) (parts f) (logStream f) ws
     (connections f) (speed f) (inter f) (contentType f) (stoped f) (destination f)
     (allConfig f) (registered f) (trace f) (issued f) (stop_calls f) (started f)
     (waitingLog f) (observer_at f) (revalidating f).
Definition with_connections (cs : list nat) (f : t) : t :=
  mk (url f) (path f) (name f) (size f) (progress f) (parts f) (logStream f) (workers f)
     cs (speed f) (inter f) (contentType f) (stoped f) (destination f)
     (allConfig f) (registered f) (trace f) (issued f) (stop_calls f) (started f)
     (waitingLog f) (observer_at f) (revalidating f).
Definition with_speed (v : JS.number) (f : t) : t :=
  mk (url f) (path f) (name f) (size f) (progress f) (parts f) (logStream f) (workers f)
     (connections f) v (inter f) (contentType f) (stoped f) (destination f)
     (allConfig f) (registered f) (trace f) (issued f) (stop_calls f) (started f)
     (waitingLog f) (observer_at f) (revalidating f).
Definition with_inter (b : bool) (f : t) : t :=
  mk (url f) (path f) (name f) (size f) (progress f) (parts f) (logStream f) (workers f)
     (connections f) (speed f) b (contentType f) (stoped f) (destination f)
     (allConfig f) (registered f) (trace f) (issued f) (stop_calls f) (started f)
     (waitingLog f) (observer_at f) (revalidating f).
Definition with_stoped (b : bool) (f : t) : t :=
  mk (url f) (path f) (name f) (size f) (progress f) (parts f) (logStream f) (workers f)
     (connections f) (speed f) (inter f) (contentType f) b (destination f)
     (allConfig f) (registered f) (trace f) (issued f) (stop_calls f) (started f)
     (waitingLog f) (observer_at f) (revalidating f).
Definition with_allConfig (c : FileOptions.t) (f : t) : t :=
  mk (url f) (path f) (name f) (size f) (progress f) (parts f) (logStream f) (workers f)
     (connections f) (speed f) (inter f) (contentType f) (stoped f) (destination f)
     c (registered f) (trace f) (issued f) (stop_calls f) (started f)
     (waitingLog f) (observer_at f) (revalidating f).
Definition with_registered (r : list (string * listener)) (f : t) : t :=
  mk (url f) (path f) (name f) (size f) (progress f) (parts f) (logStream f) (workers f)
     (connections f) (speed f) (inter f) (contentType f) (stoped f) (destination f)
     (allConfig f) r (trace f) (issued f) (stop_calls f) (started f)
     (waitingLog f) (observer_at f) (revalidating f).
Definition with_trace (tr : list emitted) (f : t) : t :=
  mk (url f) (path f) (name f) (size f) (progress f) (parts f) (logStream f) (workers f)
     (connections f) (speed f) (inter f) (contentType f) (stoped f) (destination f)
     (allConfig f) (registered f) tr (issued f) (stop_calls f) (started f)
     (waitingLog f) (observer_at f) (revalidating f).
Definition with_issued (rs : list (nat * Connection.request)) (f : t) : t :=
  mk (url f) (path f) (name f) (size f) (progress f) (parts f) (logStream f) (workers f)
     (connections f) (speed f) (inter f) (contentType f) (stoped f) (destination f)
     (allConfig f) (registered f) (trace f) rs (stop_calls f) (started f)
     (waitingLog f) (observer_at f) (revalidating f).
Definition with_stop_calls (ss : list stop_call) (f : t) : t :=
  mk (url f) (path f) (name f) (size f) (progress f) (parts f) (logStream f) (workers f)
     (connections f) (speed f) (inter f) (contentType f) (stoped f) (destination f)
     (allConfig f) (registered f) (trace f) (issued f) ss (started f)
     (waitingLog f) (observer_at f) (revalidating f).
Definition with_started (p : promise (option string)) (f : t) : t :=
  mk (url f) (path f) (name f) (size f) (progress f) (parts f) (logStream f) (workers f)
     (connections f) (speed f) (inter f) (contentType f) (stoped f) (destination f)
     (allConfig f) (registered f) (trace f) (issued f) (stop_calls f) p
     (waitingLog f) (observer_at f) (revalidating f).
Definition with_waitingLog (b : bool) (f : t) : t :=
  mk (url f) (path f) (name f) (size f) (progress f) (parts f) (logStream f) (workers f)
     (connections f) (speed f) (inter f) (contentType f) (stoped f) (destination f)
     (allConfig f) (registered f) (trace f) (issued f) (stop_calls f) (started f)
     b (observer_at f) (revalidating f).
Definition with_observer (o : observing) (f : t) : t :=
  mk (url f) (path f) (name f) (size f) (progress f) (parts f) (logStream f) (workers f)
     (connections f) (speed f) (inter f) (contentType f) (stoped f) (destination f)
     (allConfig f) (registered f) (trace f) (issued f) (stop_calls f) (started f)
     (waitingLog f) o (revalidating f).
Definition with_revalidating (b : bool) (f : t) : t :=
  mk (url f) (path f) (name f) (size f) (progress f) (parts f) (logStream f) (workers f)
     (connections f) (speed f) (inter f) (contentType f) (stoped f) (destination f)
     (allConfig f) (registered f) (trace f) (issued f) (stop_calls f) (started f)
     (waitingLog f) (observer_at f) b.

(** [calculateTime(bytes, size, downloaded)] *)
Definition calculateTime (bytes size downloaded : JS.number) : JS.number :=
  let sizeLeft := (size - downloaded)%js in
  let estimatedTime := (sizeLeft / bytes)%js in
  let ms := (estimatedTime * (JS.of_Z 1000))%js in
  ms.

(** [log(message)]: the line written is the message between a time
    stamp and a line feed. *)
Definition log (message : string) (f : t) : t :=
  with_logStream (Writer.write message (logStream f)) f.

Definition logs (messages : list string) (f : t) : t :=
  fold_left (fun f m => log m f) messages f.

(** The connections of the array that are not finished. *)
Definition unfinished (f : t) : list Connection.t :=
  filter (fun c => negb (Connection.finished c))
         (omap (fun cid => workers f !! cid) (connections f)).

(** The listeners that the coordinator attaches to a new connection:
    [log] goes to the coordinator's log, [destroy] is logged and removes
    the connection from the array. *)
Definition heard (cid : nat) (part_index : nat) (e : Connection.event) (f : t) : t :=
  match e with
  | Connection.log msg => log msg f
  | Connection.destroy =>
      let f := log ("Connection " +:+ JS.Z_toString (Z.of_nat part_index)
                    +:+ " destroyed") f in
      with_connections (filter (fun c => negb (Nat.eqb c cid)) (connections f)) f
  | Connection.finish _ => f
  end.

Definition part_index_of (cid : nat) (f : t) : nat :=
  match workers f !! cid with
  | Some c => Connection.index c
  | None => 0%nat
  end.

Definition hear_all (cid : nat) (es : list Connection.event) (f : t) : t :=
  fold_left (fun f e => heard cid (part_index_of cid f) e f) es f.

(** Running a callback of worker [cid] and delivering what it emits. *)
Definition run_worker (cid : nat)
    (callback : Connection.t -> Connection.t * list Connection.event) (f : t) : t :=
  match workers f !! cid with
  | Some c =>
      let '(c', es) := callback c in
      hear_all cid es (with_workers (<[cid := c']> (workers f)) f)
  | None => f
  end.

Section WithPlatform.
Variable P : Platform.
Local Open Scope js_scope.

Definition deliver (payload : JS.number) (l : listener) (f : t) : t :=
  match l with
  | on_speed cid => run_worker cid (Connection.on_speed P payload) f
  | on_stop cid => run_worker cid Connection.on_stop f
  end.

(** [emit(event, payload)]: the listeners registered when the emit
    starts are called in registration order. *)
Definition emit (event : string) (e : emitted) (payload : JS.number) (f : t) : t :=
  let ls := map snd (filter (fun r => String.eqb (fst r) event) (registered f)) in
  fold_left (fun f l => deliver payload l f) ls (with_trace (trace f ++ [e]) f).

(** [setSpeed(speed)] *)
Definition setSpeed (v : JS.number) (f : t) : result t :=
  if JS.isNaN v then
    throw InvalidArgumentError "The speed must be a positive number."
  else
    let f := with_speed v f in
    let share := v / JS.of_nat (length (connections f)) in
    Ok (emit "speed" (ev_speed share) share f).

(** [stop()]: the promise it returns is the last of [stop_calls]. *)
Definition stop (f : t) : t :=
  let f := with_stoped true f in
  let k := length (stop_calls f) in
  let f := with_stop_calls (stop_calls f ++ [mkStop Pending true]) f in
  let f := with_logStream (Writer.on "writed" (stop_drained k) (logStream f)) f in
  emit "stop" ev_stop (JS.of_Z 0) f.

Definition resolve_stop (k : nat) (f : t) : t :=
  match stop_calls f !! k with
  | Some s =>
      with_stop_calls
        (<[k := mkStop (resolve true (outcome s)) (timer_armed s)]> (stop_calls f)) f
  | None => f
  end.

(** The callback of the 1000 ms timer of the [k]-th call of [stop]. *)
Definition stop_timer (k : nat) (f : t) : t :=
  match stop_calls f !! k with
  | Some s =>
      if timer_armed s then
        let f := with_stop_calls (<[k := mkStop (outcome s) false]> (stop_calls f)) f in
        if Writer.pendingWrites (logStream f) =? 0 then resolve_stop k f else f
      else f
  | None => f
  end.

Definition run_log_listener (l : log_listener) (f : t) : t :=
  match l with
  | stop_drained k =>
      if Writer.pendingWrites (logStream f) =? 0 then resolve_stop k f else f
  | log_finished =>
      with_started (resolve None (started f)) (with_inter false f)
  end.

(** The callback of a write of the log stream. *)
Definition write_callback (f : t) : t :=
  let '(w, ls) := Writer.write_callback (logStream f) in
  fold_left (fun f l => run_log_listener l f) ls (with_logStream w f).

(** [cleanup()]; the result tells whether its promise resolved. *)
Definition cleanup (d : FS) (f : t) : t * FS * bool :=
  let f := with_logStream (Writer.stop (logStream f)) f in
  match rmSync_recursive P d (path f) with
  | Some d' => (f, d', true)
  | None =>
      if fs.existsSync d (path f) then
        let c := allConfig f in
        let c' := FileOptions.mk (FileOptions.url c) (FileOptions.path c)
                    (FileOptions.name c) (FileOptions.size c) (FileOptions.parts c)
                    (FileOptions.resumed c) (FileOptions.speed c)
                    (FileOptions.destination c) (FileOptions.contentType c) true in
        let f := with_allConfig c' f in
        match fs.writeFileSync d (path_resolve P (path f) "./prometeo.config")
                (FileOptions.encode P c') with
        | Ok d' => (f, d', true)
        | Throw _ => (f, d, false)
        end
      else (f, d, true)
  end.

(** [composeFile(parts, path)], up to its first suspension.  The
    destination is opened for appending; with no part the stream is
    closed at once; otherwise the first part is announced and a read
    stream is made from [file[1][0]], the start offset of the range,
    which opens no file, so its [end] never comes. *)
Definition composeFile (d : FS) (f : t) : t * FS * observing :=
  let d := Connection.open_append d (destination f) in
  match parts f with
  | [] => (f, d, Composing true)
  | (_, (file0, _)) :: _ => (log ("Joining part " +:+ file0) f, d, Joining)
  end.

(** One invocation of [observer(prevValue)]. *)
Definition observer (prevValue : option nat) (outer : bool) (d : FS) (f : t) : t * FS :=
  let finished := unfinished f in
  if Nat.eqb (length finished) 0 && negb (stoped f) then
    let f := with_inter false f in
    let f := log "File download finished" f in
    let f := emit "finish" ev_finish (JS.of_Z 0) f in
    let f := log "Joining parts to form the original file" f in
    let '(f, d, o) := composeFile d f in
    (with_observer (match o with Composing _ => Composing outer | _ => o end) f, d)
  else
    let f :=
      if bool_decide (prevValue = Some (length finished)) then f
      else
        let share := speed f / JS.of_nat (length finished) in
        emit "speed" (ev_speed share) share f in
    (with_observer (Waiting (length finished)) f, d).

(** The destination stream closed: [composeFile] resolves and the
    observer goes on to [cleanup]. *)
Definition compose_closed (d : FS) (f : t) : t * FS :=
  match observer_at f with
  | Composing outer =>
      let f := log "File joined successfully" f in
      let f := log "Cleaning up" f in
      let '(f, d, cleaned) := cleanup d f in
      if cleaned then
        (with_observer Observed
           (if outer then with_started (resolve (Some (destination f)) (started f)) f
            else f), d)
      else (with_observer Observed f, d)
  | _ => (f, d)
  end.

(** The 100 ms wait of the observer elapsed. *)
Definition observer_wake (d : FS) (f : t) : t * FS :=
  match observer_at f with
  | Waiting n => observer (Some n) false d f
  | _ => (f, d)
  end.

(** The locals of the sampler: [progress], [totalDownloaded], [speed],
    and the estimate it emits. *)
Definition sampled_progress (f : t) : JS.number :=
let connections' := unfinished f in
JS.Math_round
  (fold_left (fun a b => a + Connection.progress b) connections' (JS.of_Z 0)
   / JS.of_nat (length connections')).

Definition sampled_totalDownloaded (f : t) : JS.number :=
fold_left (fun a b => a + Connection.totalDownloaded b)
  (omap (fun cid => workers f !! cid) (connections f)) (JS.of_Z 0).

Definition sampled_speed (f : t) : JS.number :=
JS.Math_round (fold_left (fun a b => a + Connection.speed b) (unfinished f) (JS.of_Z 0)).

Definition sampled_estimate (f : t) : JS.number :=
JS.Math_round
  (calculateTime (sampled_speed f) (size f) (sampled_totalDownloaded f)).

(** The callback of the 500 ms sampler. *)
Definition sample (f : t) : t :=
if negb (inter f) then f
else
  let connections' := unfinished f in
  if Nat.eqb (length (connections f)) 0 then
    if waitingLog f then f
    else
      with_waitingLog true
        (with_logStream (Writer.on "finish" log_finished (logStream f)) f)
  else if negb (Nat.eqb (length connections') 0) then
    let progress := sampled_progress f in
    let speed := sampled_speed f in
    with_trace
      (trace f ++
       [ev_progress (toHuman P speed)
          (if progress >? (JS.of_Z 100) then (JS.of_Z 100) else progress)
          (sampled_estimate f)]) f
  else f.

(** The body of the loop of [start] for one part. *)
Definition spawn (part : nat * (string * Range)) (st : t * FS) : t * FS :=
  let '(f, d) := st in
  let '(i, (file, range)) := part in
  let connection :=
    Connection.create
      {| Connection.o_speed := speed f / JS.of_nat (length (parts f));
         Connection.o_url := url f;
         Connection.o_part := (i, file, range);
         Connection.o_contentType := contentType f |} in
  let cid := length (workers f) in
  let f := with_connections (connections f ++ [cid])
             (with_workers (workers f ++ [connection]) f) in
  let '(c', d', es, req) := Connection.start P d connection in
  let f := with_workers (<[cid := c']> (workers f)) f in
  let f := hear_all cid es f in
  let f :=
    match req with
    | Some r => with_issued (issued f ++ [(cid, r)]) f
    | None => f
    end in
  (f, d').

(** [start()], up to its first suspension. *)
Definition start (d : FS) (f : t) : t * FS :=
  let f :=
    log ("Starting file parts download with a speed limit of "
         +:+ toHuman P (JS.Math_round (speed f))) f in
  let f := emit "start" ev_start (JS.of_Z 0) f in
  let f := with_inter true f in
  match fs.isDirectory d (path f) with
  | Ok true =>
      if negb (URLUtils.validate P (url f)) then
        (logs ["Invalid URL: " +:+ url f; "Stopping Download"]%string f, d)
      else
        let '(f, d) := fold_left (fun st part => spawn part st) (parts f) (f, d) in
        observer None true d f
  | _ => (f, d)
  end.

(** The continuation of [revalidateURL] in the constructor. *)
Definition revalidated (f : t) : t :=
  if revalidating f then
    let f := with_revalidating false f in
    match URLUtils.getData P (url f) with
    | Ok _ => logs ["URL is valid"; "Download restarted"]%string f
    | Throw _ => f
    end
  else f.

(** [new File(download)] *)
Definition create (d : FS) (download : FileOptions.t) : result (t * FS) :=
  let blank s := is_empty (String_trim P s) in
  if blank (FileOptions.url download) then
    throw InvalidArgumentError "The URL must be a non-empty string."
  else if blank (FileOptions.path download) then
    throw InvalidArgumentError "The path must be a non-empty string."
  else if blank (FileOptions.destination download) then
    throw InvalidArgumentError "The destination must be a non-empty string."
  else if blank (FileOptions.name download) then
    throw InvalidArgumentError "The name must be a non-empty string."
  else if blank (FileOptions.contentType download) then
    throw InvalidArgumentError "The contentType must be a non-empty string."
  else if FileOptions.size download <=? (JS.of_Z 0) then
    throw InvalidArgumentError "The size must be a positive number."
  else if FileOptions.speed download <=? (JS.of_Z 0) then
    throw InvalidArgumentError "The speed must be a positive number."
  else
    let* d :=
      if fs.existsSync d (FileOptions.path download) then Ok d
      else match mkdirp_sync P d (FileOptions.path download) with
           | Some d' => Ok d'
           | None =>
               throw InternalError
                 "An error occurred while trying to create the temporary folder for the file."
           end in
    let f :=
      {| url := FileOptions.url download;
         path := FileOptions.path download;
         name := FileOptions.name download;
         destination := FileOptions.destination download;
         size := FileOptions.size download;
         progress := (JS.of_Z 0);
         parts := FileOptions.parts download;
         speed := FileOptions.speed download;
         stoped := false;
         allConfig := download;
         contentType := FileOptions.contentType download;
         connections := [];
         logStream := Writer.create;
         workers := []; inter := false; registered := []; trace := [];
         issued := []; stop_calls := []; started := Pending;
         waitingLog := false; observer_at := NotObserving;
         revalidating := false |} in
    let d := Connection.open_append d (path_resolve P (path f) "./prometeo.log") in
    if negb (default false (FileOptions.resumed download)) then
      let f :=
        logs ["Starting Download";
              "URL: " +:+ url f;
              "Path: " +:+ path f;
              "Name: " +:+ name f;
              "Size: " +:+ Number_toString P (size f)]%string f in
      let* d := fs.writeFileSync d (path_resolve P (path f) "./prometeo.config")
                  (FileOptions.encode P download) in
      Ok (f, d)
    else
      let f := logs ["Restarting download"; "Revalidating URL"]%string f in
      if negb (URLUtils.validate P (url f)) then
        Ok (logs ["Invalid URL: " +:+ url f; "Stopping Download"]%string f, d)
      else Ok (with_revalidating true f, d).

(** [File.validate(path)]; [Ok None] is [undefined]. *)
Definition validate (d : FS) (path : string) : result (option JSON.value) :=
  let* dir := fs.isDirectory d path in
  if negb dir then Ok None
  else
    match fs.readFileSync d (path +:+ "/prometeo.config") with
    | Ok content => Ok (FileOptions.decode P content)
    | Throw _ => Ok None
    end.
End WithPlatform.

End File.

(* ================================================================== *)
(** * The manager ([lib/manager.ts]) *)
(* ================================================================== *)

Module Manager.

(** [Prometeo].  [connections] is the length of an array, hence a
    natural number. *)
Record t : Type := mk {
  connections : nat;
  tempDir : string;
  userAgent : string;
  speedLimit : JS.number;
  downloads : list File.t
}.

(** The argument of [download]. *)
Record options : Type := mkOptions {
  url : string;
  path : string;
  filename : option string
}.

Section WithPlatform.
Variable P : Platform.
Local Open Scope js_scope.

(** The callback mapped over [[...new Array(connections)]]. *)
Definition plan_part (size : JS.number) (connections : nat)
    (tempDir finalName : string) (i : nat) : nat * (string * Range) :=
  let sliceSize := JS.Math_floor (size / JS.of_nat connections) in
  let startByte := JS.of_nat i * sliceSize in
  let endByte :=
    if Nat.eqb i (connections - 1) then size - (JS.of_Z 1)
    else startByte + sliceSize - (JS.of_Z 1) in
  let currentRange := (startByte, endByte) in
  (i, (path_resolve P tempDir (finalName +:+ JS.Z_toString (Z.of_nat i)),
       currentRange)).

(** [Object.fromEntries([...new Array(connections)].map(...))] *)
Definition plan (size : JS.number) (connections : nat)
    (tempDir finalName : string) : Part :=
  map (plan_part size connections tempDir finalName) (seq 0 connections).

(** The locals of [download]: the name the caller gave, if it is a
    non-empty string; [fileType]; [finalName]; [tempDir]; and the
    final [options.path]. *)
Definition given_name (o : options) : option string :=
  match filename o with
  | Some n => if JS.truthy n then Some n else None
  | None => None
  end.

Definition fileType_of (o : options) (URLData : URLUtils.URLData) : string :=
  match given_name o with
  | Some n => path_extname P n
  | None => URLUtils.fileType URLData
  end.

Definition finalName_of (o : options) (URLData : URLUtils.URLData) : string :=
  let finalName := default (URLUtils.fileName URLData) (given_name o) in
  if URLUtils.isValidFileName finalName then finalName
  else URLUtils.generateFilename P (fileType_of o URLData).

Definition tempDir_of (M : t) (o : options) (URLData : URLUtils.URLData) : string :=
  path_resolve P (tempDir M)
    (remove_first (fileType_of o URLData) (finalName_of o URLData)).

Definition destination_of (o : options) (URLData : URLUtils.URLData) : string :=
  path_resolve P (path o) (finalName_of o URLData).

(** [if (!fs.existsSync(p)) mkdirp.sync(p)], with the [InternalError]
    of its [catch]. *)
Definition ensure_directory (d : FS) (p : string) : result FS :=
  if fs.existsSync d p then Ok d
  else match mkdirp_sync P d p with
       | Some d' => Ok d'
       | None =>
           throw InternalError
             "An error occurred while trying to create the temporary folder for the file."
       end.

(** [download(options)] *)
Definition download (M : t) (d : FS) (o : options) : result (t * FS * File.t) :=
  if Nat.eqb (String.length (url o)) 0 then
    throw InvalidArgumentError "The URL must be a non-empty string."
  else if match filename o with
          | Some n => JS.truthy n && Nat.eqb (String.length n) 0
          | None => false
          end then
    throw InvalidArgumentError "The filename must be a non-empty string."
  else if Nat.eqb (String.length (path o)) 0 then
    throw InvalidArgumentError "The path must be a non-empty string."
  else if negb (URLUtils.validate P (url o)) then
    throw BadURLError "The URL is invalid."
  else
    match URLUtils.getData P (url o) with
    | Throw _ => throw BadURLError "The URL returned an incorrect answer."
    | Ok URLData =>
        if negb (URLUtils.acceptRange URLData) then
          throw BadURLError "The URL does not accept range requests."
        else
          let* d := ensure_directory d (path o) in
          let finalName := finalName_of o URLData in
          let tempDir := tempDir_of M o URLData in
          let destination := destination_of o URLData in
          let* is_file :=
            if fs.existsSync d destination then fs.isFile d destination else Ok false in
          if is_file then
            throw InvalidArgumentError
              "The path already exists. Delete the file or rename it."
          else
            let connections := connections M in
            let parts := plan (URLUtils.size URLData) connections tempDir finalName in
            let* created :=
              File.create P d
                {| FileOptions.url := url o;
                   FileOptions.path := tempDir;
                   FileOptions.name := finalName;
                   FileOptions.size := URLUtils.size URLData;
                   FileOptions.parts := parts;
                   FileOptions.resumed := None;
                   FileOptions.destination := destination;
                   FileOptions.speed := speedLimit M;
                   FileOptions.contentType := URLUtils.contentType URLData;
                   FileOptions.finished := false |} in
            let '(file, d) := created in
            Ok (mk (Manager.connections M) (Manager.tempDir M) (userAgent M)
                   (speedLimit M) (downloads M ++ [file]),
                d, file)
    end.

(** [setSpeed(speed)]: the manager after the call and what the call
    threw, if it threw.  A [File.setSpeed] that throws ends the
    [forEach]; the downloads before it keep the new speed. *)
Fixpoint setSpeed_each (v : JS.number) (fs : list File.t) : list File.t * option exn :=
  match fs with
  | [] => ([], None)
  | f :: r =>
      match File.setSpeed P v f with
      | Ok f' => let '(r', e) := setSpeed_each v r in (f' :: r', e)
      | Throw e => (fs, Some e)
      end
  end.

Definition setSpeed (speed : JS.number) (M : t) : t * option exn :=
  if speed <=? (JS.of_Z 0) then
    (M, Some (Err (mkError InvalidArgumentError
                     "The speed limit must be a positive number.")))
  else
    let '(ds, e) := setSpeed_each (speed * (JS.of_Z 125000)) (downloads M) in
    (mk (connections M) (tempDir M) (userAgent M) (speed * (JS.of_Z 125000)) ds, e).
End WithPlatform.

End Manager.

(* ================================================================== *)
(** * Executions *)
(* ================================================================== *)

(** What happens to a download, one event at a time: calls of its
    public methods, and the callbacks that the event loop runs. *)
Module Run.

(** Callbacks of the request of a worker. *)
Inductive worker_event : Type :=
| Responded                      (* [await axios(...)] resumes with a response *)
| RequestFailed (message : string)
| DownloadProgress (loaded : JS.number) (rate progress : option JS.number)
| PipelineDone                   (* [await pipeline(...)] resumes *)
| PipelineFailed (message : string).

Inductive event : Type :=
| Start
| Stop
| SetSpeed (speed : JS.number)
| Sampler                        (* the 500 ms interval *)
| ObserverWake                   (* the 100 ms wait of [observer] *)
| StopTimer (k : nat)            (* the 1000 ms timer of the [k]-th [stop] *)
| WriteCallback                  (* the callback of the oldest queued log write *)
| ComposeClosed                  (* [close] of the destination stream *)
| Revalidated                    (* the probe of a resumed download returned *)
| Worker (cid : nat) (e : worker_event).

Section WithPlatform.
Variable P : Platform.

Definition at_pc_is (cid : nat) (pc : Connection.pc) (f : File.t) : bool :=
  match File.workers f !! cid with
  | Some c =>
      match Connection.at_pc c, pc with
      | Connection.AwaitingResponse, Connection.AwaitingResponse
      | Connection.Piping, Connection.Piping => true
      | _, _ => false
      end
  | None => false
  end.

(** The response arrived: the worker subscribes to [speed] and [stop]
    and starts the pipeline. *)
Definition responded (cid : nat) (f : File.t) : File.t :=
  match File.workers f !! cid with
  | Some c =>
      let c' :=
        Connection.mk (Connection.file c) (Connection.url c) (Connection.speedLimit c)
          (Connection.range c) (Connection.speed c) (Connection.index c)
          (Connection._progress c) (Connection.finished c) (Connection.stopped c)
          (Connection.totalDownloaded c) Connection.Piping (Connection.partSize c)
          (Connection.throttle c) (Connection.st_closed c) (Connection.aborted c) in
      File.with_registered
        (File.registered f ++
         [("speed"%string, File.on_speed cid); ("stop"%string, File.on_stop cid)])
        (File.with_workers (<[cid := c']> (File.workers f)) f)
  | None => f
  end.

Definition worker_step (cid : nat) (e : worker_event) (f : File.t) : File.t :=
  match e with
  | Responded =>
      if at_pc_is cid Connection.AwaitingResponse f then responded cid f else f
  | RequestFailed m =>
      if at_pc_is cid Connection.AwaitingResponse f
      then File.run_worker cid (Connection.request_failed P m) f else f
  | DownloadProgress loaded rate progress =>
      if at_pc_is cid Connection.Piping f
      then File.run_worker cid (Connection.onDownloadProgress P loaded rate progress) f
      else f
  | PipelineDone =>
      if at_pc_is cid Connection.Piping f
      then File.run_worker cid Connection.pipeline_done f else f
  | PipelineFailed m =>
      if at_pc_is cid Connection.Piping f
      then File.run_worker cid (Connection.pipeline_failed P m) f else f
  end.

Definition step (st : File.t * FS) (e : event) : File.t * FS :=
  let '(f, d) := st in
  match e with
  | Start => File.start P d f
  | Stop => (File.stop P f, d)
  | SetSpeed v =>
      match File.setSpeed P v f with
      | Ok f' => (f', d)
      | Throw _ => (f, d)
      end
  | Sampler => (File.sample P f, d)
  | ObserverWake => File.observer_wake P d f
  | StopTimer k => (File.stop_timer k f, d)
  | WriteCallback => (File.write_callback f, d)
  | ComposeClosed => File.compose_closed P d f
  | Revalidated => (File.revalidated P f, d)
  | Worker cid we => (worker_step cid we f, d)
  end.

Definition run (st : File.t * FS) (es : list event) : File.t * FS :=
  fold_left step es st.

(** Events of the downloads of a manager. *)
Inductive manager_event : Type :=
| Manager_setSpeed (mbps : JS.number)
| On (i : nat) (e : event).

Definition manager_step (st : Manager.t * FS) (e : manager_event) : Manager.t * FS :=
  let '(M, d) := st in
  match e with
  | Manager_setSpeed mbps => (fst (Manager.setSpeed P mbps M), d)
  | On i e =>
      match Manager.downloads M !! i with
      | Some f =>
          let '(f', d') := step (f, d) e in
          (Manager.mk (Manager.connections M) (Manager.tempDir M)
             (Manager.userAgent M) (Manager.speedLimit M)
             (<[i := f']> (Manager.downloads M)), d')
      | None => (M, d)
      end
  end.

Definition manager_run (st : Manager.t * FS) (es : list manager_event) : Manager.t * FS :=
  fold_left manager_step es st.
End WithPlatform.

End Run.

(* ================================================================== *)
(** * A concrete platform *)
(* ================================================================== *)

(** A small POSIX-like platform on which the definitions evaluate: URLs
    are [http://host/path] or [https://host/path], numbers in headers
    are decimal, paths are absolute and need no normalisation. *)
Module Posix.

Fixpoint drop (n : nat) (s : string) : string :=
  match n, s with
  | S n', String _ r => drop n' r
  | _, _ => s
  end.

Fixpoint from_first (sep : ascii) (s : string) : string :=
  match s with
  | EmptyString => EmptyString
  | String c r => if Ascii.eqb c sep then s else from_first sep r
  end.

Definition after_scheme (url : string) : option string :=
  if String.prefix "http://" url then Some (drop 7 url)
  else if String.prefix "https://" url then Some (drop 8 url)
  else None.

Definition valid (url : string) : bool :=
  match after_scheme url with
  | Some (String c _) => negb (Ascii.eqb c "/")
  | _ => false
  end.

Definition pathname (url : string) : string :=
  match after_scheme url with
  | Some r => match from_first "/" r with EmptyString => "/" | p => p end
  | None => EmptyString
  end.

Definition to_number (s : string) : JS.number :=
  match s with
  | EmptyString => JS.of_Z 0
  | _ => match NilZero.uint_of_string s with
         | Some d => JS.of_Z (Z.of_uint d)
         | None => JS.NaN
         end
  end.

Fixpoint trim_start (s : string) : string :=
  match s with
  | String c r => if JSON.is_ws c then trim_start r else s
  | EmptyString => s
  end.

Definition trim (s : string) : string :=
  String.rev (trim_start (String.rev (trim_start s))).

Definition resolve (a b : string) : string :=
  a +:+ "/" +:+ (if String.prefix "./" b then drop 2 b else b).

Fixpoint has_char (c : ascii) (s : string) : bool :=
  match s with
  | EmptyString => false
  | String x r => Ascii.eqb x c || has_char c r
  end.

Definition extname (p : string) : string :=
  let base := split_last "/" p in
  if has_char "." base then "." +:+ split_last "." base else EmptyString.

Definition shown (n : JS.number) : string :=
  match n with
  | JS.NaN => "NaN"
  | JS.PInf => "Infinity"
  | JS.NInf => "-Infinity"
  | JS.Fin q => JS.Z_toString (Qfloor q)
  end.

Definition remove_tree (d : FS) (p : string) : option FS :=
  Some (filter (fun kv => negb (String.prefix p (fst kv))) d).

(** The platform that answers [HEAD] requests by [head]. *)
Definition platform (head : string -> option Response) : Platform :=
  {| URL_valid := valid;
     URL_pathname := pathname;
     fetch_HEAD := head;
     StringToNumber := to_number;
     NumberToString := fun q => shown (JS.Fin q);
     String_trim := trim;
     match_filename := fun _ => None;
     path_resolve := resolve;
     path_extname := extname;
     randomBytes16_hex := "000102030405060708090a0b0c0d0e0f";
     mkdirp_sync := fun d p => Some (<[p := Directory]> d);
     rmSync_recursive := remove_tree;
     toHuman := fun n => shown n +:+ "B/s";
     toFixed2 := shown;
     inspect := fun m => m;
     utf8_decode_lossy := string_of_list_byte |}.

(** A string of [n] bytes. *)
Fixpoint bytes (n : nat) : string :=
  match n with
  | O => EmptyString
  | S n' => String "x" (bytes n')
  end.

End Posix.

(* ================================================================== *)
(** * The partition, as the specification words it *)
(* ================================================================== *)

Module PlanSpec.

(** [slice = floor(size / N)] *)
Definition slice (size : Z) (N : nat) : Z := size / Z.of_nat N.

(** [start[i] = i * slice] *)
Definition range_start (size : Z) (N : nat) (i : nat) : Z :=
  Z.of_nat i * slice size N.

(** [end[i] = start[i] + slice - 1] for [i < N - 1], and
    [end[N-1] = size - 1] *)
Definition range_end (size : Z) (N : nat) (i : nat) : Z :=
  if Nat.eqb i (N - 1) then size - 1
  else range_start size N i + slice size N - 1.

End PlanSpec.

(** The ranges of a plan, in index order. *)
Definition ranges_of (parts : Part) : list Range :=
  map (fun p => snd (snd p)) parts.



(* ================================================================== *)
(** * Scenarios *)
(* ================================================================== *)

(** Concrete downloads on the platform [Posix], on which the
    definitions above are evaluated. *)
Module Scenario.

(** An origin that answers every [HEAD] with the given length and
    declares that it serves ranges. *)
Definition origin (content_length : string) : string -> option Response :=
  fun _ =>
    Some (mkResponse true
            (list_to_map [("content-length", content_length);
                          ("accept-ranges", "bytes");
                          ("content-type", "application/zip")]%string)).

Definition platform (content_length : string) : Platform :=
  Posix.platform (origin content_length).

(** A manager with [connections] connections and a ceiling of 10 Mbps. *)
Definition manager (connections : nat) : Manager.t :=
  {| Manager.connections := connections;
     Manager.tempDir := "/tmp/Prometeo";
     Manager.userAgent := "Mozilla/5.0 (Windows NT 10.0; Win64; x64) AppleWebKit";
     Manager.speedLimit := JS.of_Z 1250000;
     Manager.downloads := [] |}.

Definition disk : FS :=
  list_to_map [("/tmp/Prometeo", Directory); ("/home/user", Directory)]%string.

Definition request : Manager.options :=
  {| Manager.url := "http://example.com/files/big.zip";
     Manager.path := "/home/user";
     Manager.filename := None |}.

(** [download(request)] for a resource of [content_length] bytes. *)
Definition downloaded (content_length : string) (connections : nat)
  : result (Manager.t * FS * File.t) :=
  Manager.download (platform content_length) (manager connections) disk request.

(** The handle that a successful [download] returned. *)
Definition file_of (r : result (Manager.t * FS * File.t)) : option File.t :=
  match r with
  | Ok (_, _, f) => Some f
  | Throw _ => None
  end.

(** The same, as a state on which events run; a download that was
    rejected leaves the manager without downloads. *)
Definition after_download (content_length : string) (connections : nat)
  : Manager.t * FS :=
  match downloaded content_length connections with
  | Ok (M, d, _) => (M, d)
  | Throw _ => (manager connections, disk)
  end.

(** The events of a download of 100 bytes over 2 connections whose
    origin disregards the [Range] header and sends each worker 60 bytes,
    at 5 bytes per second each, before the sampler runs. *)
Definition overshoot : list Run.event :=
  [Run.Start;
   Run.Worker 0 Run.Responded;
   Run.Worker 1 Run.Responded;
   Run.Worker 0 (Run.DownloadProgress (JS.of_Z 60) (Some (JS.of_Z 5)) None);
   Run.Worker 1 (Run.DownloadProgress (JS.of_Z 60) (Some (JS.of_Z 5)) None);
   Run.Sampler].

(** The state of the first download of a manager after some events. *)
Definition first_after (P : Platform) (st : Manager.t * FS) (es : list Run.event)
  : option File.t :=
  match Manager.downloads (fst st) with
  | f :: _ => Some (fst (Run.run P (f, snd st) es))
  | [] => None
  end.


(** The plan that [download(request)] writes for a resource of 100
    bytes over 2 connections. *)
Definition plan : FileOptions.t :=
  {| FileOptions.url := Manager.url request;
     FileOptions.path := "/tmp/Prometeo/big";
     FileOptions.name := "big.zip";
     FileOptions.size := JS.of_Z 100;
     FileOptions.parts :=
       [(0%nat, ("/tmp/Prometeo/big/big.zip0"%string, (JS.of_Z 0, JS.of_Z 49)));
        (1%nat, ("/tmp/Prometeo/big/big.zip1"%string, (JS.of_Z 50, JS.of_Z 99)))];
     FileOptions.resumed := None;
     FileOptions.speed := Manager.speedLimit (manager 2);
     FileOptions.destination := "/home/user/big.zip";
     FileOptions.contentType := "application/zip";
     FileOptions.finished := false |}.

End Scenario.

(* ================================================================== *)
(** * Valid plans *)
(* ================================================================== *)

(** ASCII text. *)
Definition ascii_only (s : string) : bool :=
  forallb (fun c => (N_of_ascii c <? 128)%N) (list_ascii_of_string s).

(** What may follow a value in a JSON text: nothing, or a comma or a
    closing bracket. *)
Definition delimited (r : string) : bool :=
  match r with
  | EmptyString => true
  | String c _ => Ascii.eqb c "," || Ascii.eqb c "]" || Ascii.eqb c "}"
  end.

(** The first character of a printed value. *)
Definition opens_value (c : ascii) : bool :=
  Ascii.eqb c "n" || Ascii.eqb c "t" || Ascii.eqb c "f" || Ascii.eqb c "034" ||
  Ascii.eqb c "[" || Ascii.eqb c "{" || Ascii.eqb c "-" || JSON.is_digit c.


(** A string that is well-formed UTF-8, as every JavaScript string
    without a lone surrogate is. *)
Definition wellformed_string (s : string) : bool :=
  Buffer.utf8_wellformed (list_byte_of_string s).

(** An integer that a double holds exactly. *)
Definition safe_integer (n : JS.number) : bool :=
  match n with
  | JS.Fin (Qmake z 1) => Z.abs z <? 2 ^ 53
  | _ => false
  end.

Fixpoint distinct (ks : list string) : bool :=
  match ks with
  | [] => true
  | k :: r => negb (existsb (String.eqb k) r) && distinct r
  end.

Definition is_index (k : string) : bool :=
  match JSON.array_index k with Some _ => true | None => false end.

(** The order in which an object enumerates its own keys: the array
    indices in ascending order, then the other keys; no key twice. *)
Fixpoint enumeration_order (lo : Z) (ks : list string) : bool :=
  match ks with
  | [] => true
  | k :: r =>
      match JSON.array_index k with
      | Some i => (lo <? i) && enumeration_order i r
      | None => forallb (fun k' => negb (is_index k')) r && distinct ks
      end
  end.

(** The values that [JSON.stringify] and [JSON.parse] carry unchanged:
    no [NaN] or infinity, integers that doubles hold exactly, well-formed
    strings, and objects listed in their enumeration order. *)
Fixpoint serializable (v : JSON.value) : bool :=
  match v with
  | JSON.Null | JSON.Bool _ => true
  | JSON.Num n => safe_integer n
  | JSON.Str s => wellformed_string s
  | JSON.Arr l => forallb serializable l
  | JSON.Obj l =>
      enumeration_order (-1) (map fst l) &&
      forallb (fun m => wellformed_string (fst m) && serializable (snd m)) l
  end.

(** A valid plan: its strings are well formed, its numbers are integers
    that doubles hold exactly, and its parts are keyed by ascending array
    indices. *)
Fixpoint ascending (lo : Z) (indices : list nat) : bool :=
  match indices with
  | [] => true
  | i :: r => (lo <? Z.of_nat i) && (Z.of_nat i <? 2 ^ 32 - 1) && ascending (Z.of_nat i) r
  end.

Definition valid_part (p : nat * (string * Range)) : bool :=
  let '(_, (f, (a, b))) := p in
  wellformed_string f && safe_integer a && safe_integer b.

Definition valid_plan (d : FileOptions.t) : bool :=
  wellformed_string (FileOptions.url d) &&
  wellformed_string (FileOptions.path d) &&
  wellformed_string (FileOptions.name d) &&
  wellformed_string (FileOptions.destination d) &&
  wellformed_string (FileOptions.contentType d) &&
  safe_integer (FileOptions.size d) &&
  safe_integer (FileOptions.speed d) &&
  ascending (-1) (map fst (FileOptions.parts d)) &&
  forallb valid_part (FileOptions.parts d).

(* ================================================================== *)
(** * Frames *)
(* ================================================================== *)

(** [kept f g]: [g] has the [progress], the calls of [stop] and the
    listeners of the log writer that [f] has. *)
Definition kept (f g : File.t) : Prop :=
  File.progress g = File.progress f /\
  File.stop_calls g = File.stop_calls f /\
  Writer.registered (File.logStream g) = Writer.registered (File.logStream f).


(* ================================================================== *)
(** * Observations *)
(* ================================================================== *)

(** The number of [finish] events that a download has emitted. *)
Definition is_finish (e : File.emitted) : bool :=
  match e with File.ev_finish => true | _ => false end.

Definition finishes (f : File.t) : nat :=
  length (List.filter is_finish (File.trace f)).

(** A [progress] event that reports no more than 100. *)
Definition within_100 (e : File.emitted) : bool :=
  match e with
  | File.ev_progress _ p _ => negb (p >? JS.of_Z 100)%js
  | _ => true
  end.

(** What the constructor copies from the plan and no method assigns. *)
Definition settings (f : File.t) :=
  (File.url f, File.path f, File.name f, File.size f, File.parts f,
   File.destination f, File.contentType f).

(** The counter of a writer agrees with its queue. *)
Definition balanced {L} (w : Writer.t L) : Prop :=
  Writer.pendingWrites w = Z.of_nat (length (Writer.inflight w)).

(** The callbacks of [n] queued writes, on a writer and as events of a
    download. *)
Definition flush {L} (n : nat) (w : Writer.t L) : Writer.t L :=
  Nat.iter n (fun w => fst (Writer.write_callback w)) w.

Definition drain (n : nat) : list Run.event := repeat Run.WriteCallback n.


(** The worker that a listener belongs to. *)
Definition owner (l : File.listener) : nat :=
  match l with File.on_speed cid | File.on_stop cid => cid end.

(* ================================================================== *)
(** * Cases *)
(* ================================================================== *)

(** Downloads of the file of [Scenario] at the level of the coordinator:
    the constructor applied to [Scenario.plan] on a disk that holds the
    working directory. *)
Module Cases.

(** What a computation returned, if it returned. *)
Definition value_of {A} (r : result A) : option A :=
  match r with Ok a => Some a | Throw _ => None end.

Definition P : Platform := Scenario.platform "100".

Definition disk : FS :=
  <["/tmp/Prometeo/big"%string := Directory]> Scenario.disk.

Definition created : result (File.t * FS) := File.create P disk Scenario.plan.

(** The same download once [start] has run: both workers await their
    response. *)
Definition started : result (File.t * FS) :=
  let* st := created in Ok (File.start P (snd st) (fst st)).

(** The same download once both responses have arrived: both workers
    are piping and have subscribed to [speed] and [stop]. *)
Definition piping : result (File.t * FS) :=
  let* st := started in
  Ok (Run.run P st [Run.Worker 0 Run.Responded; Run.Worker 1 Run.Responded]).

(** A download of one part, started. *)
Definition single : FileOptions.t :=
  {| FileOptions.url := FileOptions.url Scenario.plan;
     FileOptions.path := FileOptions.path Scenario.plan;
     FileOptions.name := FileOptions.name Scenario.plan;
     FileOptions.size := FileOptions.size Scenario.plan;
     FileOptions.parts :=
       [(0%nat, ("/tmp/Prometeo/big/big.zip0"%string, (JS.of_Z 0, JS.of_Z 99)))];
     FileOptions.resumed := None;
     FileOptions.speed := FileOptions.speed Scenario.plan;
     FileOptions.destination := FileOptions.destination Scenario.plan;
     FileOptions.contentType := FileOptions.contentType Scenario.plan;
     FileOptions.finished := false |}.

Definition single_started : result (File.t * FS) :=
  let* st := File.create P disk single in Ok (File.start P (snd st) (fst st)).

(** A platform on which the working directory cannot be removed. *)
Definition locked : Platform :=
  {| URL_valid := URL_valid P;
     URL_pathname := URL_pathname P;
     fetch_HEAD := fetch_HEAD P;
     StringToNumber := StringToNumber P;
     NumberToString := NumberToString P;
     String_trim := String_trim P;
     match_filename := match_filename P;
     path_resolve := path_resolve P;
     path_extname := path_extname P;
     randomBytes16_hex := randomBytes16_hex P;
     mkdirp_sync := mkdirp_sync P;
     rmSync_recursive := fun _ _ => None;
     toHuman := toHuman P;
     toFixed2 := toFixed2 P;
     inspect := inspect P;
     utf8_decode_lossy := utf8_decode_lossy P |}.

End Cases.


(* ================================================================== *)
(** * The manager: construction, resumption and lookup ([lib/manager.ts]) *)
(* ================================================================== *)

Module Prometeo.

(** [PrometeoOptions].  [connections] becomes the length of an array:
    the embedding takes it among the integers. *)
Record PrometeoOptions : Type := mkOptions {
  connections : option Z;
  tempdir : option string;
  userAgent : option string;
  speedLimit : option JS.number
}.

(** What the constructor asks of the host beside the platform: the
    default of [tempdir], which is
    [resolve(process.env.APPDATA || process.env.HOME || tmpdir(), "Prometeo")];
    [fs.mkdirSync(p)], [None] when it throws; and [fs.readdirSync(p)]. *)
Record Host : Type := mkHost {
  default_tempdir : string;
  mkdirSync : FS -> string -> option FS;
  readdirSync : FS -> string -> result (list string)
}.

(** [defaultProps] *)
Definition default_connections : Z := 4.
Definition default_userAgent : string :=
  "Mozilla/5.0 (Windows NT 10.0; Win64; x64) AppleWebKit".
Definition default_speedLimit : JS.number := JS.of_Z 10.

(** Truthiness of a number and of a value read by [JSON.parse]. *)
Definition number_truthy (n : JS.number) : bool :=
  match n with
  | JS.Fin q => negb (Qeq_bool q 0)
  | JS.NaN => false
  | _ => true
  end.

Definition value_truthy (v : JSON.value) : bool :=
  match v with
  | JSON.Null => false
  | JSON.Bool b => b
  | JSON.Num n => number_truthy n
  | JSON.Str s => JS.truthy s
  | JSON.Arr _ | JSON.Obj _ => true
  end.

(** [v[k]] for one of the keys of a plan; [None] is [undefined]. *)
Definition member (k : string) (v : JSON.value) : option JSON.value :=
  match v with
  | JSON.Obj l => FileOptions.get k l
  | _ => None
  end.

(** [Object.assign(data, {resumed: true, speed})]: on an object, a key
    that exists keeps its place and a new key comes last. *)
Definition assign_resumed (speed : JS.number) (data : JSON.value) : JSON.value :=
  match data with
  | JSON.Obj l =>
      JSON.Obj
        (JSON.define_property
           (JSON.define_property l ("resumed"%string, JSON.Bool true))
           ("speed"%string, JSON.Num speed))
  | v => v
  end.

(** The plan with [resumed] set and the speed of the manager. *)
Definition resumed_plan (speed : JS.number) (o : FileOptions.t) : FileOptions.t :=
  {| FileOptions.url := FileOptions.url o;
     FileOptions.path := FileOptions.path o;
     FileOptions.name := FileOptions.name o;
     FileOptions.size := FileOptions.size o;
     FileOptions.parts := FileOptions.parts o;
     FileOptions.resumed := Some true;
     FileOptions.speed := speed;
     FileOptions.destination := FileOptions.destination o;
     FileOptions.contentType := FileOptions.contentType o;
     FileOptions.finished := FileOptions.finished o |}.

(** Equality of values, member by member and in order. *)
Definition number_same (a b : JS.number) : bool :=
  match a, b with
  | JS.Fin x, JS.Fin y => (Qnum x =? Qnum y) && (Pos.eqb (Qden x) (Qden y))
  | JS.PInf, JS.PInf | JS.NInf, JS.NInf | JS.NaN, JS.NaN => true
  | _, _ => false
  end.

Fixpoint value_same (a b : JSON.value) : bool :=
  match a, b with
  | JSON.Null, JSON.Null => true
  | JSON.Bool x, JSON.Bool y => Bool.eqb x y
  | JSON.Num x, JSON.Num y => number_same x y
  | JSON.Str x, JSON.Str y => String.eqb x y
  | JSON.Arr x, JSON.Arr y =>
      (fix all (x y : list JSON.value) : bool :=
         match x, y with
         | [], [] => true
         | a :: x', b :: y' => value_same a b && all x' y'
         | _, _ => false
         end) x y
  | JSON.Obj x, JSON.Obj y =>
      (fix all (x y : list (string * JSON.value)) : bool :=
         match x, y with
         | [], [] => true
         | (k, a) :: x', (k', b) :: y' =>
             String.eqb k k' && value_same a b && all x' y'
         | _, _ => false
         end) x y
  | _, _ => false
  end.

(** A value at the type [FileOptions]: the plan whose object it is. *)
Definition typed (v : JSON.value) : option FileOptions.t :=
  match FileOptions.of_value v with
  | Some o => if value_same (FileOptions.to_value o) v then Some o else None
  | None => None
  end.

Section WithPlatform.
Variable P : Platform.
Variable H : Host.
Local Open Scope js_scope.

Definition blank (s : string) : bool := is_empty (String_trim P s).

(** [_validateOptions(options)] *)
Definition validateOptions (d : FS) (o : PrometeoOptions) : result FS :=
  if match connections o with
     | Some z => negb (z =? 0)%Z && (z <=? 0)%Z
     | None => false
     end then
    throw InvalidArgumentError "The number of connections must be a positive integer."
  else if match tempdir o with
          | Some s => JS.truthy s && blank s
          | None => false
          end then
    throw InvalidArgumentError
      "The temporary directory (tempdir) must be a non-empty string."
  else
    let* d :=
      match tempdir o with
      | Some s =>
          if JS.truthy s &&
             (negb (fs.existsSync d s) ||
              match fs.isDirectory d s with Ok true => false | _ => true end)
          then
            match mkdirSync H d s with
            | Some d' => Ok d'
            | None =>
                throw InvalidArgumentError
                  "Check the temporary storage address. An error occurred while trying to create the directory."
            end
          else Ok d
      | None => Ok d
      end in
    if match userAgent o with
       | Some s => JS.truthy s && blank s
       | None => false
       end then
      throw InvalidArgumentError "The user agent (userAgent) must be a non-empty string."
    else if match speedLimit o with
            | Some v => number_truthy v && (v <=? JS.of_Z 0)
            | None => false
            end then
      throw InvalidArgumentError "The speed limit must be a positive number."
    else Ok d.

(** [options.x || defaultProps.x] *)
Definition connections_of (o : PrometeoOptions) : Z :=
  match connections o with
  | Some z => if (z =? 0)%Z then default_connections else z
  | None => default_connections
  end.

Definition text_of (x : option string) (default : string) : string :=
  match x with
  | Some s => if JS.truthy s then s else default
  | None => default
  end.

Definition speedLimit_of (o : PrometeoOptions) : JS.number :=
  match speedLimit o with
  | Some v => if number_truthy v then v else default_speedLimit
  | None => default_speedLimit
  end.

(** The assignments of the constructor. *)
Definition configured (o : PrometeoOptions) : Manager.t :=
  {| Manager.connections := Z.to_nat (connections_of o);
     Manager.tempDir := text_of (tempdir o) (default_tempdir H);
     Manager.userAgent := text_of (userAgent o) default_userAgent;
     Manager.speedLimit := speedLimit_of o * JS.of_Z 125000;
     Manager.downloads := [] |}.

(** The checks of the constructor of [File] on a value whose type is
    not known: the message of the error it throws, if it throws one. *)
Definition is_text (x : option JSON.value) : bool :=
  match x with
  | Some (JSON.Str s) => negb (blank s)
  | _ => false
  end.

Definition is_positive (x : option JSON.value) : bool :=
  match x with
  | Some (JSON.Num n) => negb (n <=? JS.of_Z 0)
  | _ => false
  end.

Definition rejected (v : JSON.value) : option string :=
  if negb (is_text (member "url" v)) then
    Some "The URL must be a non-empty string."%string
  else if negb (is_text (member "path" v)) then
    Some "The path must be a non-empty string."%string
  else if negb (is_text (member "destination" v)) then
    Some "The destination must be a non-empty string."%string
  else if negb (is_text (member "name" v)) then
    Some "The name must be a non-empty string."%string
  else if negb (is_text (member "contentType" v)) then
    Some "The contentType must be a non-empty string."%string
  else if negb (is_positive (member "size" v)) then
    Some "The size must be a positive number."%string
  else if negb (is_positive (member "speed" v)) then
    Some "The speed must be a positive number."%string
  else None.

Definition push (file : File.t) (M : Manager.t) : Manager.t :=
  Manager.mk (Manager.connections M) (Manager.tempDir M) (Manager.userAgent M)
    (Manager.speedLimit M) (Manager.downloads M ++ [file]).

(** [new File(Object.assign(data, {resumed: true, speed}))] and
    [downloads.push(file)].  The annotation [FileOptions] of the value
    read from the manifest is not checked; where the value is not the
    object of a plan, the embedding has the outcome only if the
    constructor rejects the value, and [None] otherwise. *)
Definition resume (M : Manager.t) (d : FS) (data : JSON.value)
  : option (result (Manager.t * FS)) :=
  let download := assign_resumed (Manager.speedLimit M) data in
  match typed download with
  | Some o =>
      Some (let* created := File.create P d o in
            Ok (push (fst created) M, snd created))
  | None =>
      match rejected download with
      | Some message => Some (throw InvalidArgumentError message)
      | None => None
      end
  end.

(** [fs.rmSync(folderPath, {recursive: true, force: true})] in its
    [try]. *)
Definition remove (d : FS) (folderPath : string) : FS :=
  default d (rmSync_recursive P d folderPath).

(** The body of the loop of [_loadDownloads_]. *)
Definition load_folder (M : Manager.t) (d : FS) (folder : string)
  : option (result (Manager.t * FS)) :=
  let folderPath := path_resolve P (Manager.tempDir M) folder in
  match File.validate P d folderPath with
  | Throw e => Some (Throw e)
  | Ok (Some data) =>
      if value_truthy data &&
         negb (match member "finished" data with
               | Some x => value_truthy x
               | None => false
               end)
      then resume M d data
      else Some (Ok (M, remove d folderPath))
  | Ok None => Some (Ok (M, remove d folderPath))
  end.

(** [_loadDownloads_()] over the folders that [readdirSync] listed. *)
Fixpoint load_folders (M : Manager.t) (d : FS) (folders : list string)
  : option (result (Manager.t * FS)) :=
  match folders with
  | [] => Some (Ok (M, d))
  | folder :: rest =>
      match load_folder M d folder with
      | Some (Ok (M', d')) => load_folders M' d' rest
      | other => other
      end
  end.

(** [new Prometeo(options)], up to the handlers of [exit] and [SIGINT],
    which it only registers. *)
Definition create (d : FS) (o : PrometeoOptions) : option (result (Manager.t * FS)) :=
  match validateOptions d o with
  | Throw e => Some (Throw e)
  | Ok d =>
      let M := configured o in
      match readdirSync H d (Manager.tempDir M) with
      | Throw e => Some (Throw e)
      | Ok folders => load_folders M d folders
      end
  end.
End WithPlatform.

(** [getDownload(query)] *)
Record query : Type := mkQuery {
  q_filename : option string;
  q_url : option string
}.

Definition matches (q : query) (file : File.t) : bool :=
  match q_filename q with
  | Some n => JS.truthy n && String.eqb (File.name file) n
  | None => false
  end ||
  match q_url q with
  | Some u => JS.truthy u && String.eqb (File.url file) u
  | None => false
  end.

Definition getDownload (q : query) (M : Manager.t) : option File.t :=
  List.find (matches q) (Manager.downloads M).

End Prometeo.

(** Hosts for the cases: the temporary directory [/tmp/Prometeo]
    lists the folder [big], the directory [/srv/empty] lists nothing, and
    no other directory can be read. *)
Module Resumption.

Definition host (default : string) : Prometeo.Host :=
  {| Prometeo.default_tempdir := default;
     Prometeo.mkdirSync := fun d p =>
       match d !! p with
       | Some _ => None
       | None => Some (<[p := Directory]> d)
       end;
     Prometeo.readdirSync := fun d p =>
       if String.eqb p "/tmp/Prometeo" then Ok ["big"%string]
       else if String.eqb p "/srv/empty" then Ok []
       else Throw (NodeErr "ENOENT") |}.

End Resumption.

(* ================================================================== *)
(** * Properties *)
(* ================================================================== *)

Module JSFacts.

Lemma Qred_of_Z (q : Q) (z : Z) : q == inject_Z z -> Qred q = inject_Z z.
Proof.
  intros H. rewrite <- (inject_Z_Qred z). now apply Qred_complete.
Qed.

Lemma add_of_Z a b : ((JS.of_Z a) + (JS.of_Z b) = (JS.of_Z (a + b)))%js.
Proof.
  unfold JS.add, JS.of_Z. f_equal. apply Qred_of_Z.
  now rewrite inject_Z_plus.
Qed.

Lemma sub_of_Z a b : ((JS.of_Z a) - (JS.of_Z b) = (JS.of_Z (a - b)))%js.
Proof.
  unfold JS.sub, JS.of_Z. f_equal. apply Qred_of_Z.
  unfold Z.sub. rewrite inject_Z_plus, inject_Z_opp. reflexivity.
Qed.

Lemma mul_of_Z a b : ((JS.of_Z a) * (JS.of_Z b) = (JS.of_Z (a * b)))%js.
Proof.
  unfold JS.mul, JS.of_Z. f_equal. apply Qred_of_Z.
  now rewrite inject_Z_mult.
Qed.

Lemma Qeq_bool_inject_Z a b : Qeq_bool (inject_Z a) (inject_Z b) = (a =? b).
Proof.
  unfold Qeq_bool, inject_Z. simpl. now rewrite !Z.mul_1_r.
Qed.

Lemma Qle_bool_inject_Z a b : Qle_bool (inject_Z a) (inject_Z b) = (a <=? b).
Proof.
  unfold Qle_bool, inject_Z. simpl. now rewrite !Z.mul_1_r.
Qed.

Lemma floor_div_of_Z a b : b <> 0 -> (JS.Math_floor ((JS.of_Z a) / (JS.of_Z b)) = (JS.of_Z (a / b)))%js.
Proof.
  intros Hb. unfold JS.div, JS.of_Z.
  change 0%Q with (inject_Z 0). rewrite Qeq_bool_inject_Z.
  destruct (Z.eqb_spec b 0) as [->|_]; [congruence|].
  unfold JS.Math_floor, JS.of_Z. f_equal. f_equal.
  rewrite (Qfloor_comp _ _ (Qred_correct _)). symmetry. apply Zdiv_Qdiv.
Qed.

Lemma leb_of_Z a b : ((JS.of_Z a) <=? (JS.of_Z b))%js = (a <=? b).
Proof. apply Qle_bool_inject_Z. Qed.

Lemma geb_of_Z a b : ((JS.of_Z a) >=? (JS.of_Z b))%js = (b <=? a).
Proof. apply Qle_bool_inject_Z. Qed.

Lemma ltb_of_Z a b : ((JS.of_Z a) <? (JS.of_Z b))%js = (a <? b).
Proof.
  unfold JS.ltb, JS.of_Z. rewrite Qle_bool_inject_Z.
  rewrite Z.ltb_antisym. reflexivity.
Qed.

Lemma gtb_of_Z a b : ((JS.of_Z a) >? (JS.of_Z b))%js = (b <? a).
Proof. apply ltb_of_Z. Qed.

Lemma to_Z_of_Z z : JS.to_Z ((JS.of_Z z))%js = Some z.
Proof.
  unfold JS.to_Z, JS.of_Z. rewrite Qfloor_Z, Qeq_bool_inject_Z, Z.eqb_refl.
  reflexivity.
Qed.

Lemma toString_of_Z P z :
  Z.abs z < 10 ^ 21 -> Number_toString P ((JS.of_Z z))%js = JS.Z_toString z.
Proof.
  intros H. unfold Number_toString.
  change (JS.of_Z z) with (JS.Fin (inject_Z z)) at 1.
  cbv beta iota. change (JS.Fin (inject_Z z)) with (JS.of_Z z).
  rewrite to_Z_of_Z.
  destruct (Z.ltb_spec (Z.abs z) (10 ^ 21)); [reflexivity | lia].
Qed.

Lemma of_Z_inj a b : ((JS.of_Z a))%js = ((JS.of_Z b))%js -> a = b.
Proof. unfold JS.of_Z, inject_Z. now intros [= ->]. Qed.

End JSFacts.

Lemma create_fields P d o f d' :
  File.create P d o = Ok (f, d') ->
  File.parts f = FileOptions.parts o /\ File.size f = FileOptions.size o /\
  File.progress f = JS.of_Z 0 /\ File.speed f = FileOptions.speed o.
Proof.
  unfold File.create, throw.
  repeat (match goal with |- context [if ?c then _ else _] => destruct c end;
          try discriminate).
  all: unfold bind;
    repeat (match goal with
            | |- context [match ?c with _ => _ end] => destruct c eqn:?
            end; try discriminate).
  all: intros [= <- <-]; auto.
Qed.

Lemma lookup_map {A B} (f : A -> B) (l : list A) (i : nat) :
  map f l !! i = f <$> (l !! i).
Proof.
  revert i. induction l as [|a l IH]; intros [|i]; simpl; auto.
Qed.

(* ================================================================== *)
(** * The range planner *)
(* ================================================================== *)

Section Planner.
Variable P : Platform.
Variables (size : Z) (N : nat) (tempDir finalName : string).
Hypothesis HN : (1 <= N)%nat.

Let zstart := PlanSpec.range_start size N.
Let zend := PlanSpec.range_end size N.
Let slice := PlanSpec.slice size N.

Lemma plan_part_of_Z i :
  Manager.plan_part P (JS.of_Z size) N tempDir finalName i =
  (i, (path_resolve P tempDir (finalName +:+ JS.Z_toString (Z.of_nat i)),
       (JS.of_Z (zstart i), JS.of_Z (zend i)))).
Proof.
  unfold Manager.plan_part, zend, zstart, JS.of_nat.
  unfold PlanSpec.range_end, PlanSpec.range_start, PlanSpec.slice.
  rewrite JSFacts.floor_div_of_Z by lia.
  rewrite JSFacts.mul_of_Z.
  destruct (Nat.eqb i (N - 1)).
  - now rewrite JSFacts.sub_of_Z.
  - now rewrite JSFacts.add_of_Z, JSFacts.sub_of_Z.
Qed.

Lemma plan_lookup i :
  (i < N)%nat ->
  Manager.plan P (JS.of_Z size) N tempDir finalName !! i =
  Some (i, (path_resolve P tempDir (finalName +:+ JS.Z_toString (Z.of_nat i)),
            (JS.of_Z (zstart i), JS.of_Z (zend i)))).
Proof.
  intros Hi. unfold Manager.plan.
  rewrite lookup_map, lookup_seq_lt by lia. simpl.
  now rewrite plan_part_of_Z.
Qed.












End Planner.




(* ================================================================== *)
(** * The range worker *)
(* ================================================================== *)

(** The part file has a whole number of bytes. *)
Lemma existing_integer d c : exists n, 0 <= n /\ Connection.existing d c = JS.of_Z n.
Proof.
  unfold Connection.existing, fs.size.
  destruct (fs.existsSync d (Connection.file c)); [|exists 0; split; [lia|reflexivity]].
  destruct (d !! Connection.file c) as [[|content]|].
  - exists 0; split; [lia|reflexivity].
  - exists (Z.of_nat (String.length content)). split; [lia|reflexivity].
  - exists 0; split; [lia|reflexivity].
Qed.

(** The guard of [start], on whole numbers of bytes. *)
Lemma already_downloaded_of_Z c s e n :
  Connection.range c = (JS.of_Z s, JS.of_Z e) ->
  Connection.already_downloaded c (JS.of_Z n) = (e <=? s + n).
Proof.
  intros Hr. unfold Connection.already_downloaded. rewrite Hr. cbn [fst snd].
  now rewrite JSFacts.add_of_Z, JSFacts.geb_of_Z.
Qed.

(** [start] short-circuits exactly when its guard holds. *)
Lemma start_short_circuits P d c :
  Connection.already_downloaded c (Connection.existing d c) = true ->
  let '(c', d', es, req) := Connection.start P d c in
  Connection.finished c' = true /\ Connection.at_pc c' = Connection.Returned /\
  d' = d /\ last es = Some (Connection.finish true) /\ req = None.
Proof.
  intros H. unfold Connection.start. rewrite H. repeat split; reflexivity.
Qed.


(** C3 (the code departs from the claim).  A worker whose range is
    [[0, 9]] and whose part file holds 9 bytes has [start + existing = end]:
    byte 9 is missing and [start + existing > end] is false, yet [start]
    takes the short circuit: it emits [finish(true)], sets [finished] and
    issues no request.  The same happens to a worker on the one-byte range
    [[0, 0]] with no part file, as in the plan of 5 bytes over 4
    connections, of which [File.start] requests bytes 3 to 4 only. *)
Theorem C3_start_skips_final_byte :
  let P := Scenario.platform "10" in
  let worker r :=
    Connection.create
      {| Connection.o_url := "http://example.com/files/big.zip";
         Connection.o_part := (0%nat, "/tmp/Prometeo/big/big.zip0"%string, r);
         Connection.o_speed := JS.of_Z 1250000;
         Connection.o_contentType := "application/zip" |} in
  let d9 : FS := <["/tmp/Prometeo/big/big.zip0"%string := Regular (Posix.bytes 9)]> Scenario.disk in
  (* nine of the ten bytes of [0, 9] are on disk *)
  (let c := worker (JS.of_Z 0, JS.of_Z 9) in
   Connection.existing d9 c = JS.of_Z 9 /\
   (JS.of_Z 0 + Connection.existing d9 c >? JS.of_Z 9)%js = false /\
   let '(c', _, es, req) := Connection.start P d9 c in
   Connection.finished c' = true /\
   last es = Some (Connection.finish true) /\
   req = None) /\
  (* nothing of the one byte of [0, 0] is on disk *)
  (let c := worker (JS.of_Z 0, JS.of_Z 0) in
   Connection.existing Scenario.disk c = JS.of_Z 0 /\
   (JS.of_Z 0 + Connection.existing Scenario.disk c >? JS.of_Z 0)%js = false /\
   let '(c', _, es, req) := Connection.start P Scenario.disk c in
   Connection.finished c' = true /\
   last es = Some (Connection.finish true) /\
   req = None) /\
  (* 5 bytes over 4 connections: only the last range is requested *)
  (fun f => ranges_of (File.parts f)) <$> Scenario.file_of (Scenario.downloaded "5" 4)
    = Some [(JS.of_Z 0, JS.of_Z 0); (JS.of_Z 1, JS.of_Z 1);
            (JS.of_Z 2, JS.of_Z 2); (JS.of_Z 3, JS.of_Z 4)] /\
  (fun f =>
     map (fun r => (fst r, Connection.header_Range (snd r)))
       (File.issued
          (fst (File.start (Scenario.platform "5")
                  (snd (Scenario.after_download "5" 4)) f))))
    <$> Scenario.file_of (Scenario.downloaded "5" 4)
    = Some [(3%nat, "bytes=3-4"%string)].
Proof.
  vm_compute. repeat split; reflexivity.
Qed.




(* ================================================================== *)
(** * The prober and the rejections of [download] *)
(* ================================================================== *)

(** The constructor rejects a size that is not positive, whatever the
    other fields are. *)
Lemma create_rejects_size_0 P d o :
  FileOptions.size o = JS.of_Z 0 ->
  thrown (File.create P d o) = Some InvalidArgumentError.
Proof.
  intros Hs. unfold File.create, throw. rewrite Hs, JSFacts.leb_of_Z.
  change (0 <=? 0) with true. cbv iota.
  repeat (match goal with |- context [if ?c then _ else _] => destruct c eqn:? end;
          try reflexivity).
Qed.




(** What the prober reads off a response. *)
Lemma getData_ok P url res :
  fetch_HEAD P url = Some res -> ok res = true ->
  exists data,
    URLUtils.getData P url = Ok data /\
    URLUtils.size data =
      (let size := Number_of_header P (headers res !! "content-length"%string) in
       if JS.isNaN size then JS.of_Z 0 else size) /\
    URLUtils.acceptRange data =
      match headers res !! "accept-ranges"%string with
      | Some v => String.eqb v "bytes"
      | None => false
      end.
Proof.
  intros Hf Hok. unfold URLUtils.getData. rewrite Hf, Hok. simpl.
  eexists. split; [reflexivity|]. split; reflexivity.
Qed.

(** C9.  When the response to [HEAD] has no [Content-Length], or one that
    [Number] cannot read, the prober reports size 0; the constructor
    [File] throws [InvalidArgumentError] on a plan of size 0; and
    [Manager.download] of such a resource never returns a handle, so no
    worker is ever created for it. *)
Theorem C9_unknown_length_rejected (P : Platform) (url : string) (res : Response) :
  fetch_HEAD P url = Some res ->
  ok res = true ->
  (headers res !! "content-length"%string = None \/
   exists s, headers res !! "content-length"%string = Some s /\
             JS.isNaN (StringToNumber P s) = true) ->
  (exists data, URLUtils.getData P url = Ok data /\ URLUtils.size data = JS.of_Z 0) /\
  (forall d o, FileOptions.size o = JS.of_Z 0 ->
     thrown (File.create P d o) = Some InvalidArgumentError) /\
  (forall M d o, Manager.url o = url -> returns (Manager.download P M d o) = false).
Proof.
  intros Hf Hok Hlen.
  destruct (getData_ok P url res Hf Hok) as (data & Hdata & Hsize & _).
  assert (Hzero : URLUtils.size data = JS.of_Z 0).
  { rewrite Hsize. destruct Hlen as [-> | (s & -> & Hnan)]; simpl.
    - reflexivity.
    - now rewrite Hnan. }
  split; [exists data; split; assumption|].
  split; [intros d o; apply create_rejects_size_0|].
  intros M d o <-. unfold Manager.download, throw.
  repeat (match goal with |- context [if ?c then _ else _] => destruct c end;
          try reflexivity).
  all: rewrite Hdata.
  all: repeat (match goal with |- context [if ?c then _ else _] => destruct c end;
               try reflexivity).
  all: unfold bind.
  all: repeat (match goal with
               | |- context [match ?c with _ => _ end] => destruct c eqn:?
               end; try reflexivity).
  all: match goal with
       | H : File.create ?P ?d ?o = Ok _ |- _ =>
           pose proof (create_rejects_size_0 P d o Hzero) as Hthrow;
           rewrite H in Hthrow; discriminate
       end.
Qed.

(** An origin whose [Content-Length] is not a number: the probe reports
    size 0 and [download] returns no handle. *)
Lemma C9_witness :
  let P := Scenario.platform "unknown" in
  let url := Manager.url Scenario.request in
  (exists res,
     fetch_HEAD P url = Some res /\ ok res = true /\
     headers res !! "content-length"%string = Some "unknown"%string /\
     JS.isNaN (StringToNumber P "unknown") = true) /\
  (exists data, URLUtils.getData P url = Ok data /\ URLUtils.size data = JS.of_Z 0) /\
  returns (Manager.download P (Scenario.manager 4) Scenario.disk Scenario.request) = false.
Proof.
  intros P url.
  pose (res := mkResponse true
                 (list_to_map [("content-length", "unknown");
                               ("accept-ranges", "bytes");
                               ("content-type", "application/zip")]%string)).
  assert (Hf : fetch_HEAD P url = Some res) by reflexivity.
  assert (Hlen : headers res !! "content-length"%string = Some "unknown"%string)
    by (vm_compute; reflexivity).
  assert (Hnan : JS.isNaN (StringToNumber P "unknown") = true) by reflexivity.
  destruct (C9_unknown_length_rejected P url res Hf eq_refl
              (or_intror (ex_intro _ "unknown"%string (conj Hlen Hnan))))
    as (Hdata & _ & Hdownload).
  split; [exists res; repeat split; assumption|].
  split; [exact Hdata|].
  apply Hdownload. reflexivity.
Defined.






(* ================================================================== *)
(** * The estimate of the sampler *)
(* ================================================================== *)









(* ================================================================== *)
(** * What the operations of a download leave alone *)
(* ================================================================== *)

Lemma kept_refl f : kept f f.
Proof. now repeat split. Qed.

Lemma kept_trans f g h : kept f g -> kept g h -> kept f h.
Proof. intros (? & ? & ?) (? & ? & ?). repeat split; congruence. Qed.

Section Kept.
Variable P : Platform.
Variable f : File.t.

Lemma kept_with_workers ws g : kept f g -> kept f (File.with_workers ws g).
Proof. now intros (? & ? & ?). Qed.
Lemma kept_with_connections cs g : kept f g -> kept f (File.with_connections cs g).
Proof. now intros (? & ? & ?). Qed.
Lemma kept_with_speed v g : kept f g -> kept f (File.with_speed v g).
Proof. now intros (? & ? & ?). Qed.
Lemma kept_with_inter b g : kept f g -> kept f (File.with_inter b g).
Proof. now intros (? & ? & ?). Qed.
Lemma kept_with_stoped b g : kept f g -> kept f (File.with_stoped b g).
Proof. now intros (? & ? & ?). Qed.
Lemma kept_with_allConfig c g : kept f g -> kept f (File.with_allConfig c g).
Proof. now intros (? & ? & ?). Qed.
Lemma kept_with_registered r g : kept f g -> kept f (File.with_registered r g).
Proof. now intros (? & ? & ?). Qed.
Lemma kept_with_trace tr g : kept f g -> kept f (File.with_trace tr g).
Proof. now intros (? & ? & ?). Qed.
Lemma kept_with_issued rs g : kept f g -> kept f (File.with_issued rs g).
Proof. now intros (? & ? & ?). Qed.
Lemma kept_with_started p g : kept f g -> kept f (File.with_started p g).
Proof. now intros (? & ? & ?). Qed.
Lemma kept_with_waitingLog b g : kept f g -> kept f (File.with_waitingLog b g).
Proof. now intros (? & ? & ?). Qed.
Lemma kept_with_observer o g : kept f g -> kept f (File.with_observer o g).
Proof. now intros (? & ? & ?). Qed.
Lemma kept_with_revalidating b g : kept f g -> kept f (File.with_revalidating b g).
Proof. now intros (? & ? & ?). Qed.

Lemma kept_log m g : kept f g -> kept f (File.log m g).
Proof. now intros (? & ? & ?). Qed.

Lemma kept_logs ms g : kept f g -> kept f (File.logs ms g).
Proof.
  unfold File.logs. revert g. induction ms as [|m ms IH]; intros g Hg; simpl.
  - exact Hg.
  - apply IH. now apply kept_log.
Qed.

Lemma kept_heard cid i e g : kept f g -> kept f (File.heard cid i e g).
Proof.
  intros Hg. destruct e; simpl.
  - now apply kept_log.
  - exact Hg.
  - apply kept_with_connections. now apply kept_log.
Qed.

Lemma kept_hear_all cid es g : kept f g -> kept f (File.hear_all cid es g).
Proof.
  unfold File.hear_all. revert g. induction es as [|e es IH]; intros g Hg; simpl.
  - exact Hg.
  - apply IH. now apply kept_heard.
Qed.

Lemma kept_run_worker cid callback g : kept f g -> kept f (File.run_worker cid callback g).
Proof.
  intros Hg. unfold File.run_worker.
  destruct (File.workers g !! cid) as [c|]; [|exact Hg].
  destruct (callback c) as [c' es].
  apply kept_hear_all. now apply kept_with_workers.
Qed.

Lemma kept_deliver v l g : kept f g -> kept f (File.deliver P v l g).
Proof. intros Hg. destruct l; simpl; now apply kept_run_worker. Qed.

Lemma kept_emit event e v g : kept f g -> kept f (File.emit P event e v g).
Proof.
  intros Hg. unfold File.emit.
  generalize (map snd (filter (fun r => String.eqb (fst r) event) (File.registered g))).
  intros ls.
  assert (H : kept f (File.with_trace (File.trace g ++ [e]) g))
    by now apply kept_with_trace.
  revert H. generalize (File.with_trace (File.trace g ++ [e]) g).
  induction ls as [|l ls IH]; intros h Hh; simpl.
  - exact Hh.
  - apply IH. now apply kept_deliver.
Qed.

Lemma kept_setSpeed v g g' : kept f g -> File.setSpeed P v g = Ok g' -> kept f g'.
Proof.
  intros Hg. unfold File.setSpeed, throw.
  destruct (JS.isNaN v); [discriminate|]. intros [= <-].
  apply kept_emit. now apply kept_with_speed.
Qed.

Lemma kept_cleanup d g : kept f g -> kept f (fst (fst (File.cleanup P d g))).
Proof.
  intros Hg. unfold File.cleanup.
  assert (H : kept f (File.with_logStream (Writer.stop (File.logStream g)) g))
    by (destruct Hg as (? & ? & ?); now repeat split).
  destruct (rmSync_recursive P d _); [exact H|].
  destruct (fs.existsSync d _); [|exact H].
  destruct (fs.writeFileSync _ _ _); simpl; now apply kept_with_allConfig.
Qed.

Lemma kept_composeFile d g : kept f g -> kept f (fst (fst (File.composeFile d g))).
Proof.
  intros Hg. unfold File.composeFile.
  destruct (File.parts g) as [|[i [file0 r]] rest]; simpl; [exact Hg|].
  now apply kept_log.
Qed.

Lemma kept_observer prev outer d g : kept f g -> kept f (fst (File.observer P prev outer d g)).
Proof.
  intros Hg. unfold File.observer.
  destruct (Nat.eqb (length (File.unfinished g)) 0 && negb (File.stoped g)).
  - match goal with |- context [File.composeFile ?d ?h] =>
      assert (H : kept f (fst (fst (File.composeFile d h))))
    end.
    { apply kept_composeFile, kept_log, kept_emit, kept_log.
      now apply kept_with_inter. }
    match goal with |- context [File.composeFile ?d ?h] =>
      destruct (File.composeFile d h) as [[h' d'] o]
    end.
    simpl in *. now apply kept_with_observer.
  - simpl. apply kept_with_observer.
    destruct (bool_decide _); [exact Hg|]. now apply kept_emit.
Qed.

Lemma kept_compose_closed d g : kept f g -> kept f (fst (File.compose_closed P d g)).
Proof.
  intros Hg. unfold File.compose_closed.
  destruct (File.observer_at g); try exact Hg.
  match goal with |- context [File.cleanup ?P ?d ?h] =>
    assert (H : kept f (fst (fst (File.cleanup P d h))))
      by (apply kept_cleanup; now do 2 apply kept_log);
    destruct (File.cleanup P d h) as [[h' d'] cleaned]
  end.
  simpl in H. destruct cleaned; simpl.
  - apply kept_with_observer. destruct outer; [now apply kept_with_started|exact H].
  - now apply kept_with_observer.
Qed.

Lemma kept_observer_wake d g : kept f g -> kept f (fst (File.observer_wake P d g)).
Proof.
  intros Hg. unfold File.observer_wake.
  destruct (File.observer_at g); try exact Hg. now apply kept_observer.
Qed.

Lemma kept_spawn part g d : kept f g -> kept f (fst (File.spawn P part (g, d))).
Proof.
  intros Hg. unfold File.spawn. destruct part as [i [file range]].
  match goal with |- context [Connection.start ?P ?d ?c] =>
    destruct (Connection.start P d c) as [[[c' d'] es] req]
  end.
  simpl.
  assert (H : forall h, kept f h ->
                kept f match req with
                       | Some r => File.with_issued (File.issued h ++ [(length (File.workers g), r)]) h
                       | None => h
                       end).
  { intros h Hh. destruct req; [now apply kept_with_issued|exact Hh]. }
  apply H. apply kept_hear_all.
  now apply kept_with_workers, kept_with_connections, kept_with_workers.
Qed.

Lemma kept_spawn_all parts st : kept f (fst st) ->
  kept f (fst (fold_left (fun st part => File.spawn P part st) parts st)).
Proof.
  revert st. induction parts as [|p parts IH]; intros [g d] Hg; simpl.
  - exact Hg.
  - apply IH. now apply kept_spawn.
Qed.

Lemma kept_start d g : kept f g -> kept f (fst (File.start P d g)).
Proof.
  intros Hg. unfold File.start.
  match goal with |- context [File.with_inter true ?h] =>
    assert (H : kept f (File.with_inter true h))
      by (apply kept_with_inter, kept_emit; now apply kept_log);
    generalize dependent (File.with_inter true h)
  end.
  intros h Hh.
  destruct (fs.isDirectory d (File.path h)) as [[|]|]; try exact Hh.
  destruct (negb (URLUtils.validate P (File.url h))); cbn [fst].
  - now apply kept_logs.
  - pose proof (kept_spawn_all (File.parts h) (h, d) Hh) as Hs.
    destruct (fold_left _ (File.parts h) (h, d)) as [h' d'].
    now apply kept_observer.
Qed.

Lemma kept_revalidated g : kept f g -> kept f (File.revalidated P g).
Proof.
  intros Hg. unfold File.revalidated.
  destruct (File.revalidating g); [|exact Hg].
  destruct (URLUtils.getData P _).
  - apply kept_logs. now apply kept_with_revalidating.
  - now apply kept_with_revalidating.
Qed.

Lemma kept_worker_step cid e g : kept f g -> kept f (Run.worker_step P cid e g).
Proof.
  intros Hg. unfold Run.worker_step.
  destruct e;
    match goal with |- context [if ?c then _ else _] => destruct c end;
    try exact Hg; try now apply kept_run_worker.
  unfold Run.responded. destruct (File.workers g !! cid); [|exact Hg].
  now apply kept_with_registered, kept_with_workers.
Qed.
End Kept.

(* ================================================================== *)
(** * [progress] is constant *)
(* ================================================================== *)

Lemma progress_stop P f : File.progress (File.stop P f) = File.progress f.
Proof.
  unfold File.stop.
  match goal with |- File.progress (File.emit _ _ _ _ ?h) = _ =>
    destruct (kept_emit P h "stop" File.ev_stop (JS.of_Z 0) h (kept_refl h)) as (-> & _)
  end.
  reflexivity.
Qed.

Lemma progress_resolve_stop k f : File.progress (File.resolve_stop k f) = File.progress f.
Proof. unfold File.resolve_stop. now destruct (File.stop_calls f !! k). Qed.

Lemma progress_stop_timer k f : File.progress (File.stop_timer k f) = File.progress f.
Proof.
  unfold File.stop_timer. destruct (File.stop_calls f !! k) as [s|]; [|reflexivity].
  destruct (File.timer_armed s); [|reflexivity].
  match goal with |- context [if ?c then _ else _] => destruct c end;
    [rewrite progress_resolve_stop|]; reflexivity.
Qed.

Lemma progress_run_log_listener l f :
  File.progress (File.run_log_listener l f) = File.progress f.
Proof.
  destruct l; simpl; [|reflexivity].
  match goal with |- context [if ?c then _ else _] => destruct c end;
    [apply progress_resolve_stop|reflexivity].
Qed.

Lemma progress_write_callback f :
  File.progress (File.write_callback f) = File.progress f.
Proof.
  unfold File.write_callback.
  destruct (Writer.write_callback (File.logStream f)) as [w ls].
  change (File.progress f) with (File.progress (File.with_logStream w f)).
  generalize (File.with_logStream w f).
  induction ls as [|l ls IH]; intros g; simpl; [reflexivity|].
  now rewrite IH, progress_run_log_listener.
Qed.

Lemma progress_sample P f : File.progress (File.sample P f) = File.progress f.
Proof.
  unfold File.sample.
  repeat (match goal with |- context [if ?c then _ else _] => destruct c end;
          try reflexivity).
Qed.

(** No event changes [progress]. *)
Lemma progress_step P f d e :
  File.progress (fst (Run.step P (f, d) e)) = File.progress f.
Proof.
  destruct e; simpl.
  - apply (kept_start P f d f (kept_refl f)).
  - apply progress_stop.
  - destruct (File.setSpeed P speed f) as [f'|] eqn:Hs; [|reflexivity].
    apply (kept_setSpeed P f speed f f' (kept_refl f) Hs).
  - apply progress_sample.
  - apply (kept_observer_wake P f d f (kept_refl f)).
  - apply progress_stop_timer.
  - apply progress_write_callback.
  - apply (kept_compose_closed P f d f (kept_refl f)).
  - apply (kept_revalidated P f f (kept_refl f)).
  - apply (kept_worker_step P f cid e f (kept_refl f)).
Qed.

Lemma progress_run P es f d :
  File.progress (fst (Run.run P (f, d) es)) = File.progress f.
Proof.
  unfold Run.run. revert f d. induction es as [|e es IH]; intros f d; cbn [fold_left].
  - reflexivity.
  - destruct (Run.step P (f, d) e) as [f' d'] eqn:Hstep.
    rewrite IH. pose proof (progress_step P f d e) as H.
    now rewrite Hstep in H.
Qed.

(** C10.  [progress] is 0 in the [File] that the constructor returns,
    and no operation on it ([start], [stop], [setSpeed], the sampler, the
    observer, [composeFile], [cleanup], the callbacks of its workers and
    of its log) assigns it: after any sequence of events it is still 0. *)
Theorem C10_progress_stays_zero
    (P : Platform) (d d' : FS) (download : FileOptions.t) (f : File.t)
    (es : list Run.event) :
  File.create P d download = Ok (f, d') ->
  File.progress f = JS.of_Z 0 /\
  File.progress (fst (Run.run P (f, d') es)) = JS.of_Z 0.
Proof.
  intros Hcreate.
  destruct (create_fields P d download f d' Hcreate) as (_ & _ & Hzero & _).
  split; [exact Hzero|]. now rewrite progress_run.
Qed.

(** The download of 1000 bytes over 2 connections, run until one worker
    has finished, the speed was changed and [stop] was called: its
    [progress] is 0. *)
Lemma C10_witness :
  let P := Scenario.platform "1000" in
  let events :=
    [Run.Start; Run.Worker 0 Run.Responded; Run.Worker 1 Run.Responded;
     Run.Worker 0 (Run.DownloadProgress (JS.of_Z 500) (Some (JS.of_Z 100)) (Some (JS.of_Z 1)));
     Run.Sampler; Run.Worker 0 Run.PipelineDone; Run.ObserverWake;
     Run.SetSpeed (JS.of_Z 1000000); Run.Stop; Run.WriteCallback; Run.StopTimer 0] in
  exists d download f d',
    File.create P d download = Ok (f, d') /\
    File.progress (fst (Run.run P (f, d') events)) = JS.of_Z 0.
Proof.
  intros P events.
  pose (download :=
          {| FileOptions.url := "http://example.com/files/big.zip";
             FileOptions.path := "/tmp/Prometeo/big";
             FileOptions.name := "big.zip";
             FileOptions.size := JS.of_Z 1000;
             FileOptions.parts :=
               Manager.plan P (JS.of_Z 1000) 2 "/tmp/Prometeo/big" "big.zip";
             FileOptions.resumed := None;
             FileOptions.speed := JS.of_Z 1250000;
             FileOptions.destination := "/home/user/big.zip";
             FileOptions.contentType := "application/zip";
             FileOptions.finished := false |}).
  assert (Hreturns : returns (File.create P Scenario.disk download) = true)
    by (vm_compute; reflexivity).
  destruct (File.create P Scenario.disk download) as [[f d']|] eqn:Hcreate;
    [|discriminate].
  exists Scenario.disk, download, f, d'. split; [exact Hcreate|].
  exact (proj2 (C10_progress_stays_zero P Scenario.disk d' download f events Hcreate)).
Defined.

(* ================================================================== *)
(** * The promise of [stop] *)
(* ================================================================== *)

(** The log writer only ever emits [write], and nothing listens to it:
    the coordinator listens to [writed] and to [finish]. *)
Lemma listeners_on {L} (event other : string) (l : L) (w : Writer.t L) :
  event <> other ->
  Writer.listeners event (Writer.on other l w) = Writer.listeners event w.
Proof.
  intros Hne. unfold Writer.listeners, Writer.on. simpl.
  rewrite filter_app, map_app, filter_cons, filter_nil. simpl.
  case_decide as Heq.
  - apply Is_true_true in Heq. apply String.eqb_eq in Heq. congruence.
  - simpl. now rewrite app_nil_r.
Qed.

Section StopPending.
Variable P : Platform.
Variable k : nat.

(** The [k]-th call of [stop] is pending, its timer has fired, and the
    log writer has no listener of [write]. *)
Let stuck (f : File.t) : Prop :=
  File.stop_calls f !! k = Some (File.mkStop File.Pending false) /\
  Writer.listeners "write" (File.logStream f) = [].

Lemma stuck_kept f g : stuck f -> kept f g -> stuck g.
Proof.
  intros [Hs Hl] (_ & Hstops & Hreg). split.
  - now rewrite Hstops.
  - unfold Writer.listeners in *. now rewrite Hreg.
Qed.

Lemma stuck_stop f : stuck f -> stuck (File.stop P f).
Proof.
  intros [Hs Hl]. unfold File.stop.
  match goal with |- stuck (File.emit _ _ _ _ ?h) =>
    apply (stuck_kept h); [|apply kept_emit, kept_refl]
  end.
  split; simpl.
  - rewrite lookup_app_l; [exact Hs|]. now apply lookup_lt_Some in Hs.
  - rewrite listeners_on by discriminate. exact Hl.
Qed.

Lemma stuck_stop_timer k' f : stuck f -> stuck (File.stop_timer k' f).
Proof.
  intros [Hs Hl]. unfold File.stop_timer.
  destruct (File.stop_calls f !! k') as [s|] eqn:Hk'; [|now split].
  destruct (File.timer_armed s) eqn:Harmed; [|now split].
  assert (Hne : k' <> k).
  { intros ->. rewrite Hs in Hk'. injection Hk' as <-. discriminate. }
  assert (Hlt : (k' < length (File.stop_calls f))%nat)
    by now apply lookup_lt_Some in Hk'.
  match goal with |- context [if ?c then _ else _] => destruct c end.
  - unfold File.resolve_stop. simpl.
    rewrite list_lookup_insert_eq by assumption.
    split; simpl; [|exact Hl].
    rewrite !list_lookup_insert_ne by assumption. exact Hs.
  - split; simpl; [|exact Hl].
    rewrite list_lookup_insert_ne by assumption. exact Hs.
Qed.

Lemma stuck_write_callback f : stuck f -> stuck (File.write_callback f).
Proof.
  intros [Hs Hl]. unfold File.write_callback, Writer.write_callback.
  destruct (Writer.inflight (File.logStream f)) as [|data rest].
  - simpl. now split.
  - change (Writer.listeners "write"
              {| Writer.pendingWrites := Writer.pendingWrites (File.logStream f) - 1;
                 Writer.inflight := rest;
                 Writer.flushed := Writer.flushed (File.logStream f) ++ [data];
                 Writer.closed := Writer.closed (File.logStream f);
                 Writer.registered := Writer.registered (File.logStream f) |})
      with (Writer.listeners "write" (File.logStream f)).
    rewrite Hl. simpl. now split.
Qed.

Lemma stuck_sample f : stuck f -> stuck (File.sample P f).
Proof.
  intros [Hs Hl]. unfold File.sample.
  repeat (match goal with |- context [if ?c then _ else _] => destruct c end;
          try now split).
  split; simpl; [exact Hs|].
  rewrite listeners_on by discriminate. exact Hl.
Qed.

Lemma stuck_step f d e : stuck f -> stuck (fst (Run.step P (f, d) e)).
Proof.
  intros Hf. destruct e; simpl.
  - apply (stuck_kept f); [exact Hf|]. apply kept_start, kept_refl.
  - now apply stuck_stop.
  - destruct (File.setSpeed P speed f) as [f'|] eqn:Hset; [|exact Hf].
    apply (stuck_kept f); [exact Hf|].
    apply (kept_setSpeed P f speed f f' (kept_refl f) Hset).
  - now apply stuck_sample.
  - apply (stuck_kept f); [exact Hf|]. apply kept_observer_wake, kept_refl.
  - now apply stuck_stop_timer.
  - now apply stuck_write_callback.
  - apply (stuck_kept f); [exact Hf|]. apply kept_compose_closed, kept_refl.
  - apply (stuck_kept f); [exact Hf|]. apply kept_revalidated, kept_refl.
  - apply (stuck_kept f); [exact Hf|]. apply kept_worker_step, kept_refl.
Qed.

(** Once the timer of a call of [stop] has fired with writes pending,
    nothing resolves its promise. *)
Lemma stop_stays_pending es f d :
  File.stop_calls f !! k = Some (File.mkStop File.Pending false) ->
  Writer.listeners "write" (File.logStream f) = [] ->
  File.stop_calls (fst (Run.run P (f, d) es)) !! k
  = Some (File.mkStop File.Pending false).
Proof.
  intros Hs Hl. assert (Hf : stuck f) by now split.
  clear Hs Hl. unfold Run.run.
  revert f d Hf. induction es as [|e es IH]; intros f d Hf; cbn [fold_left].
  - exact (proj1 Hf).
  - pose proof (stuck_step f d e Hf) as Hstep.
    destruct (Run.step P (f, d) e) as [f' d']. now apply IH.
Qed.
End StopPending.

(** C4 (the code departs from the claim).  [stop] is called on the
    download of 1000 bytes over 2 connections while the five log lines of
    its construction are still in flight.
    - If the 1000 ms timer fires before those writes complete, the promise
      is pending after the timer, and it stays pending whatever happens
      next, the completion of the writes included: the timer resolves
      only when [pendingWrites] is 0, and the listener that would
      resolve on drain is registered on [writed], while the writer emits
      [write].
    - If the writes complete first, draining the queue resolves nothing:
      the promise is still pending until the timer fires. *)
Theorem C4_stop_can_hang :
  let P := Scenario.platform "1000" in
  let st := Scenario.after_download "1000" 2 in
  let promise f := File.outcome <$> File.stop_calls f !! 0%nat in
  let pending f := Writer.pendingWrites (File.logStream f) in
  let drain := [Run.WriteCallback; Run.WriteCallback; Run.WriteCallback;
                Run.WriteCallback; Run.WriteCallback] in
  (* the timer fires with five writes pending *)
  (fun f => (pending f, promise f))
    <$> Scenario.first_after P st [Run.Stop; Run.StopTimer 0]
  = Some (5, Some File.Pending) /\
  (forall es,
     (fun f => promise f)
       <$> Scenario.first_after P st ([Run.Stop; Run.StopTimer 0] ++ es)
     = Some (Some File.Pending)) /\
  (* the queue drains before the timer *)
  (fun f => (pending f, promise f))
    <$> Scenario.first_after P st (Run.Stop :: drain)
  = Some (0, Some File.Pending) /\
  (fun f => (pending f, promise f))
    <$> Scenario.first_after P st (Run.Stop :: drain ++ [Run.StopTimer 0])
  = Some (0, Some (File.Resolved true)).
Proof.
  intros P st promise pending drain.
  split; [vm_compute; reflexivity|].
  split; [|split; vm_compute; reflexivity].
  intros es. unfold Scenario.first_after.
  destruct (Manager.downloads (fst st)) as [|f fs] eqn:Hd;
    [vm_compute in Hd; discriminate|].
  unfold Run.run. rewrite fold_left_app.
  fold (Run.run P (f, snd st) [Run.Stop; Run.StopTimer 0]).
  assert (Hafter :
            (fun f => (File.stop_calls f !! 0%nat,
                       Writer.listeners "write" (File.logStream f)))
              <$> Scenario.first_after P st [Run.Stop; Run.StopTimer 0]
            = Some (Some (File.mkStop File.Pending false), []))
    by (vm_compute; reflexivity).
  unfold Scenario.first_after in Hafter. rewrite Hd in Hafter.
  destruct (Run.run P (f, snd st) [Run.Stop; Run.StopTimer 0]) as [g d] eqn:Hg.
  simpl in Hafter. injection Hafter as Hs Hl.
  fold (Run.run P (g, d) es). subst promise. simpl.
  now rewrite (stop_stays_pending P 0 es g d Hs Hl).
Qed.

(* ================================================================== *)
(** * Changing the speed *)
(* ================================================================== *)

(** A view of a download that the workers, the [connections] array and
    the log do not enter is the same after listeners have run. *)
Section Frame.
Variable P : Platform.
Context {A : Type} (view : File.t -> A).
Hypothesis view_workers : forall ws g, view (File.with_workers ws g) = view g.
Hypothesis view_connections : forall cs g, view (File.with_connections cs g) = view g.
Hypothesis view_logStream : forall w g, view (File.with_logStream w g) = view g.

Lemma view_heard cid i e g : view (File.heard cid i e g) = view g.
Proof.
  destruct e; simpl; unfold File.log;
    now rewrite ?view_connections, ?view_logStream.
Qed.

Lemma view_hear_all cid es g : view (File.hear_all cid es g) = view g.
Proof.
  unfold File.hear_all. revert g. induction es as [|e es IH]; intros g; simpl.
  - reflexivity.
  - now rewrite IH, view_heard.
Qed.

Lemma view_run_worker cid callback g : view (File.run_worker cid callback g) = view g.
Proof.
  unfold File.run_worker. destruct (File.workers g !! cid) as [c|]; [|reflexivity].
  destruct (callback c) as [c' es]. now rewrite view_hear_all, view_workers.
Qed.

Lemma view_deliver v l g : view (File.deliver P v l g) = view g.
Proof. destruct l; simpl; apply view_run_worker. Qed.

Lemma view_deliver_all v ls g :
  view (fold_left (fun g l => File.deliver P v l g) ls g) = view g.
Proof.
  revert g. induction ls as [|l ls IH]; intros g; simpl.
  - reflexivity.
  - now rewrite IH, view_deliver.
Qed.
End Frame.

(** [File.setSpeed] stores the new total and emits it divided by the
    length of [connections], finished workers included. *)
Lemma File_setSpeed_share P v f :
  JS.isNaN v = false ->
  exists f',
    File.setSpeed P v f = Ok f' /\
    File.speed f' = v /\
    last (File.trace f') =
      Some (File.ev_speed (v / JS.of_nat (length (File.connections f)))%js).
Proof.
  intros Hv. unfold File.setSpeed. rewrite Hv. eexists. split; [reflexivity|].
  unfold File.emit. split.
  - now rewrite (view_deliver_all P File.speed).
  - rewrite (view_deliver_all P File.trace) by reflexivity.
    simpl. now rewrite last_snoc.
Qed.

(** [Manager.setSpeed] stores [mbps * 125000] and hands it to every
    download. *)
Lemma Manager_setSpeed_propagates P mbps M :
  (mbps <=? JS.of_Z 0)%js = false ->
  JS.isNaN (mbps * JS.of_Z 125000)%js = false ->
  let '(M', e) := Manager.setSpeed P mbps M in
  e = None /\
  Manager.speedLimit M' = (mbps * JS.of_Z 125000)%js /\
  length (Manager.downloads M') = length (Manager.downloads M) /\
  Forall (fun f => File.speed f = (mbps * JS.of_Z 125000)%js) (Manager.downloads M').
Proof.
  intros Hpos Hnan. unfold Manager.setSpeed. rewrite Hpos.
  assert (H : forall fs,
             let '(fs', e) := Manager.setSpeed_each P (mbps * JS.of_Z 125000)%js fs in
             e = None /\ length fs' = length fs /\
             Forall (fun f => File.speed f = (mbps * JS.of_Z 125000)%js) fs').
  { induction fs as [|f fs IH]; simpl; [repeat split; constructor|].
    destruct (File_setSpeed_share P _ f Hnan) as (f' & -> & Hspeed & _).
    destruct (Manager.setSpeed_each P _ fs) as [fs' e].
    destruct IH as (-> & Hlen & Hall).
    repeat split; [simpl; now rewrite Hlen | now constructor]. }
  specialize (H (Manager.downloads M)).
  destruct (Manager.setSpeed_each P _ (Manager.downloads M)) as [ds e].
  destruct H as (-> & Hlen & Hall). repeat split; assumption.
Qed.

(** C8 (the code departs from the claim).  In the download of 1000
    bytes over 2 connections, worker 0 finishes and the observer hands the
    whole ceiling of 1250000 bytes per second to worker 1, the one
    unfinished worker.  [Manager.setSpeed(8)] then stores 8 * 125000 =
    1000000 in the manager and in the download, but [File.setSpeed]
    divides by [connections.length], which still counts the finished
    worker: the [speed] event carries 500000 and that becomes the rate
    of worker 1, where the total over the one unfinished worker is
    1000000.  The observer does not emit again, as the count of
    unfinished workers has not changed. *)
Theorem C8_setSpeed_counts_finished_workers :
  let P := Scenario.platform "1000" in
  let view (st : Manager.t * FS) :=
    (Manager.speedLimit (fst st),
     map (fun f =>
            (File.speed f, length (File.connections f), length (File.unfinished f),
             map (fun c => (Connection.finished c, Connection.throttle c))
               (File.workers f),
             last (File.trace f)))
       (Manager.downloads (fst st))) in
  let st1 :=
    Run.manager_run P (Scenario.after_download "1000" 2)
      [Run.On 0 Run.Start;
       Run.On 0 (Run.Worker 0 Run.Responded);
       Run.On 0 (Run.Worker 1 Run.Responded);
       Run.On 0 (Run.Worker 0 Run.PipelineDone);
       Run.On 0 Run.ObserverWake] in
  let st2 := Run.manager_run P st1 [Run.Manager_setSpeed (JS.of_Z 8)] in
  let st3 := Run.manager_run P st2 [Run.On 0 Run.ObserverWake] in
  view st1 =
    (JS.of_Z 1250000,
     [(JS.of_Z 1250000, 2%nat, 1%nat,
       [(true, Some (JS.of_Z 625000)); (false, Some (JS.of_Z 1250000))],
       Some (File.ev_speed (JS.of_Z 1250000)))]) /\
  view st2 =
    (JS.of_Z 1000000,
     [(JS.of_Z 1000000, 2%nat, 1%nat,
       [(true, Some (JS.of_Z 625000)); (false, Some (JS.of_Z 500000))],
       Some (File.ev_speed (JS.of_Z 500000)))]) /\
  view st3 = view st2 /\
  (JS.of_Z 8 * JS.of_Z 125000 = JS.of_Z 1000000)%js /\
  (JS.of_Z 1000000 / JS.of_nat 1 = JS.of_Z 1000000)%js /\
  JS.of_Z 500000 <> JS.of_Z 1000000.
Proof.
  vm_compute. repeat split; try reflexivity. discriminate.
Qed.

(* ================================================================== *)
(** * The manifest codec *)
(* ================================================================== *)

(** ** Hexadecimal *)

Lemma from_hex_byte (x : Byte.byte) (r : string) :
  Buffer.from_hex
    (String (Buffer.hex_digit (Byte.to_N x / 16))
       (String (Buffer.hex_digit (Byte.to_N x mod 16)) r))
  = x :: Buffer.from_hex r.
Proof. destruct x; reflexivity. Qed.

Lemma from_hex_toString_hex (b : Buffer.t) :
  Buffer.from_hex (Buffer.toString_hex b) = b.
Proof.
  induction b as [|x b IH]; [reflexivity|].
  cbn [Buffer.toString_hex]. now rewrite from_hex_byte, IH.
Qed.

Lemma wellformed_hex_byte (x : Byte.byte) (r : string) :
  wellformed_string
    (String (Buffer.hex_digit (Byte.to_N x / 16))
       (String (Buffer.hex_digit (Byte.to_N x mod 16)) r))
  = wellformed_string r.
Proof. destruct x; reflexivity. Qed.

Lemma wellformed_toString_hex (b : Buffer.t) :
  wellformed_string (Buffer.toString_hex b) = true.
Proof.
  induction b as [|x b IH]; [reflexivity|].
  cbn [Buffer.toString_hex]. now rewrite wellformed_hex_byte.
Qed.

Lemma string_of_list_byte_of_string' s :
  string_of_list_byte (list_byte_of_string s) = s.
Proof. apply string_of_list_byte_of_string. Qed.

(** ** Well-formed UTF-8 *)

Lemma bytes_cons c r :
  list_byte_of_string (String c r) = byte_of_ascii c :: list_byte_of_string r.
Proof. reflexivity. Qed.

Lemma append_cons c a b : (String c a +:+ b)%string = String c (a +:+ b).
Proof. reflexivity. Qed.

Lemma append_nil b : (EmptyString +:+ b)%string = b.
Proof. reflexivity. Qed.

Lemma bytes_app a b :
  list_byte_of_string (a +:+ b) = list_byte_of_string a ++ list_byte_of_string b.
Proof.
  induction a as [|c a IH]; [reflexivity|].
  rewrite append_cons. now rewrite !bytes_cons, IH.
Qed.

Lemma utf8_app_bounded (n : nat) (a b : Buffer.t) :
  (length a <= n)%nat ->
  Buffer.utf8_wellformed a = true ->
  Buffer.utf8_wellformed (a ++ b) = Buffer.utf8_wellformed b.
Proof.
  revert a. induction n as [|n IH]; intros a Hlen Ha.
  - destruct a; [reflexivity|simpl in Hlen; lia].
  - destruct a as [|x r]; [reflexivity|].
    cbn [app Buffer.utf8_wellformed] in *.
    destruct (Buffer.in_range 0 127 x).
    { apply IH; [simpl in Hlen; lia | exact Ha]. }
    destruct (Buffer.in_range 194 223 x).
    { destruct r as [|y r']; [discriminate|]. cbn [app].
      apply andb_true_iff in Ha as [-> Ha]. cbn [andb].
      apply IH; [simpl in Hlen; lia | exact Ha]. }
    destruct (Buffer.in_range 224 239 x).
    { destruct r as [|y [|z r']]; try discriminate. cbn [app].
      apply andb_true_iff in Ha as [Hyz Ha]. rewrite Hyz. cbn [andb].
      apply IH; [simpl in Hlen; lia | exact Ha]. }
    destruct (Buffer.in_range 240 244 x); [|discriminate].
    destruct r as [|y [|z [|w r']]]; try discriminate. cbn [app].
    apply andb_true_iff in Ha as [Hyzw Ha]. rewrite Hyzw. cbn [andb].
    apply IH; [simpl in Hlen; lia | exact Ha].
Qed.

Lemma wellformed_app a b :
  wellformed_string a = true ->
  wellformed_string (a +:+ b) = wellformed_string b.
Proof.
  intros Ha. unfold wellformed_string in *. rewrite bytes_app.
  now apply (utf8_app_bounded (length (list_byte_of_string a))).
Qed.

Lemma wellformed_app_true a b :
  wellformed_string a = true -> wellformed_string b = true ->
  wellformed_string (a +:+ b) = true.
Proof. intros Ha Hb. now rewrite wellformed_app. Qed.

(** ASCII text is well formed. *)
Lemma ascii_byte_in_range c :
  (N_of_ascii c <? 128)%N = true -> Buffer.in_range 0 127 (byte_of_ascii c) = true.
Proof.
  destruct c as [[] [] [] [] [] [] [] []]; vm_compute; congruence.
Qed.

Lemma wellformed_ascii s : ascii_only s = true -> wellformed_string s = true.
Proof.
  unfold ascii_only, wellformed_string.
  induction s as [|c s IH]; [reflexivity|].
  cbn [list_ascii_of_string forallb]. rewrite bytes_cons.
  intros [Hc Hs]%andb_true_iff. cbn [Buffer.utf8_wellformed].
  rewrite ascii_byte_in_range by assumption. now apply IH.
Qed.

(** ** Quoting keeps strings well formed *)

Lemma escape_char_low c :
  Buffer.in_range 0 127 (byte_of_ascii c) = true ->
  ascii_only (JSON.escape_char c) = true.
Proof. destruct c as [[] [] [] [] [] [] [] []]; vm_compute; congruence. Qed.

Lemma escape_char_high c :
  Buffer.in_range 0 127 (byte_of_ascii c) = false ->
  JSON.escape_char c = String c EmptyString.
Proof. destruct c as [[] [] [] [] [] [] [] []]; vm_compute; congruence. Qed.

Lemma in_range_high lo hi x :
  (128 <= lo)%N -> Buffer.in_range lo hi x = true -> Buffer.in_range 0 127 x = false.
Proof.
  unfold Buffer.in_range. intros Hlo [H1 H2]%andb_true_iff.
  apply N.leb_le in H1. apply andb_false_iff. right. apply N.leb_gt. lia.
Qed.

Lemma escape_cont c :
  forall lo hi, (128 <= lo)%N ->
  Buffer.in_range lo hi (byte_of_ascii c) = true ->
  JSON.escape_char c = String c EmptyString.
Proof.
  intros lo hi Hlo H. apply escape_char_high. now apply (in_range_high lo hi).
Qed.

Lemma wellformed_cons_low c r :
  Buffer.in_range 0 127 (byte_of_ascii c) = true ->
  wellformed_string (String c r) = wellformed_string r.
Proof.
  intros H. unfold wellformed_string. rewrite bytes_cons.
  cbn [Buffer.utf8_wellformed]. now rewrite H.
Qed.

Lemma wellformed_escape_bounded (n : nat) (s : string) :
  (String.length s <= n)%nat ->
  wellformed_string s = true ->
  wellformed_string (JSON.escape s) = true.
Proof.
  revert s. induction n as [|n IH]; intros s Hlen Hs.
  - destruct s; [reflexivity|simpl in Hlen; lia].
  - destruct s as [|c r]; [reflexivity|].
    cbn [JSON.escape].
    destruct (Buffer.in_range 0 127 (byte_of_ascii c)) eqn:Hlow.
    { rewrite wellformed_cons_low in Hs by assumption.
      apply wellformed_app_true.
      - apply wellformed_ascii. now apply escape_char_low.
      - apply IH; [simpl in Hlen; lia | exact Hs]. }
    rewrite (escape_char_high c Hlow), append_cons, append_nil.
    unfold wellformed_string in Hs |- *. rewrite bytes_cons in Hs |- *.
    cbn [Buffer.utf8_wellformed] in Hs |- *. rewrite Hlow in Hs |- *.
    destruct (Buffer.in_range 194 223 (byte_of_ascii c)).
    { destruct r as [|y r']; [discriminate|].
      rewrite bytes_cons in Hs. apply andb_true_iff in Hs as [Hy Hs].
      cbn [JSON.escape]. rewrite (escape_cont y 128 191), append_cons, append_nil, bytes_cons
        by (exact Hy || lia).
      rewrite Hy. cbn [andb]. apply (IH r'); [simpl in Hlen; lia | exact Hs]. }
    destruct (Buffer.in_range 224 239 (byte_of_ascii c)).
    { destruct r as [|y [|z r']]; try discriminate.
      rewrite !bytes_cons in Hs.
      apply andb_true_iff in Hs as [Hyz Hs]. pose proof Hyz as Hyz'.
      apply andb_true_iff in Hyz as [Hy Hz].
      assert (Hy' : JSON.escape_char y = String y EmptyString).
      { destruct (Buffer.in_range 224 224 (byte_of_ascii c));
          [apply (escape_cont y 160 191); [lia | exact Hy]|].
        destruct (Buffer.in_range 237 237 (byte_of_ascii c));
          [apply (escape_cont y 128 159); [lia | exact Hy]
          |apply (escape_cont y 128 191); [lia | exact Hy]]. }
      cbn [JSON.escape].
      rewrite Hy', (escape_cont z 128 191) by (exact Hz || lia).
      rewrite !append_cons, !append_nil, !bytes_cons.
      rewrite Hyz'. cbn [andb]. apply (IH r'); [simpl in Hlen; lia | exact Hs]. }
    destruct (Buffer.in_range 240 244 (byte_of_ascii c)); [|discriminate].
    destruct r as [|y [|z [|w r']]]; try discriminate.
    rewrite !bytes_cons in Hs.
    apply andb_true_iff in Hs as [Hyzw Hs]. pose proof Hyzw as Hyzw'.
    apply andb_true_iff in Hyzw as [Hyz Hw]. apply andb_true_iff in Hyz as [Hy Hz].
    assert (Hy' : JSON.escape_char y = String y EmptyString).
    { destruct (Buffer.in_range 240 240 (byte_of_ascii c));
        [apply (escape_cont y 144 191); [lia | exact Hy]|].
      destruct (Buffer.in_range 244 244 (byte_of_ascii c));
        [apply (escape_cont y 128 143); [lia | exact Hy]
        |apply (escape_cont y 128 191); [lia | exact Hy]]. }
    cbn [JSON.escape].
    rewrite Hy', (escape_cont z 128 191), (escape_cont w 128 191)
      by (exact Hz || exact Hw || lia).
    rewrite !append_cons, !append_nil, !bytes_cons.
    rewrite Hyzw'. cbn [andb]. apply (IH r'); [simpl in Hlen; lia | exact Hs].
Qed.

Lemma wellformed_quote s :
  wellformed_string s = true -> wellformed_string (JSON.quote s) = true.
Proof.
  intros Hs. unfold JSON.quote.
  rewrite wellformed_cons_low by reflexivity.
  apply wellformed_app_true; [|reflexivity].
  now apply (wellformed_escape_bounded (String.length s)).
Qed.

(** ** String literals *)

Lemma append_assoc (a b c : string) : ((a +:+ b) +:+ c)%string = (a +:+ (b +:+ c))%string.
Proof.
  induction a as [|x a IH]; [reflexivity|]. now rewrite !append_cons, IH.
Qed.

Lemma parse_string_escape_char c r :
  JSON.parse_string (JSON.escape_char c +:+ r) =
  ('(t, r') ← JSON.parse_string r; Some (String c t, r')).
Proof. destruct c as [[] [] [] [] [] [] [] []]; reflexivity. Qed.

Lemma parse_string_escape s r :
  JSON.parse_string (JSON.escape s +:+ String "034" r) = Some (s, r).
Proof.
  induction s as [|c s IH]; [reflexivity|].
  cbn [JSON.escape]. rewrite append_assoc, parse_string_escape_char, IH.
  reflexivity.
Qed.

Lemma quote_parses s r :
  exists q, (JSON.quote s +:+ r)%string = String "034" q /\
            JSON.parse_string q = Some (s, r).
Proof.
  exists (JSON.escape s +:+ String "034" r)%string. split.
  - unfold JSON.quote. now rewrite append_cons, append_assoc.
  - apply parse_string_escape.
Qed.

(** ** Numbers *)

Lemma span_digits_uint d r :
  delimited r = true ->
  JSON.span_digits (NilEmpty.string_of_uint d +:+ r) = (NilEmpty.string_of_uint d, r).
Proof.
  intros Hr. induction d; cbn [NilEmpty.string_of_uint];
    rewrite ?append_cons, ?append_nil; cbn [JSON.span_digits];
    try (change (JSON.is_digit _) with true; cbv iota; rewrite IHd; reflexivity).
  destruct r as [|c r]; [reflexivity|]. cbn [JSON.span_digits].
  destruct (JSON.is_digit c) eqn:Hc; [|reflexivity].
  exfalso. revert Hr Hc. clear.
  destruct c as [[] [] [] [] [] [] [] []]; vm_compute; congruence.
Qed.

(** The decimal form of a positive number starts with a digit that is
    not 0. *)
Lemma to_uint_normal p : Decimal.unorm (Pos.to_uint p) = Pos.to_uint p.
Proof.
  rewrite <- DecimalPos.Unsigned.to_of, DecimalPos.Unsigned.of_to. reflexivity.
Qed.

Lemma to_uint_head p u : Pos.to_uint p <> Decimal.D0 u.
Proof.
  intros H. pose proof (to_uint_normal p) as Hn. rewrite H in Hn.
  rewrite DecimalFacts.unorm_D0 in Hn.
  unfold Decimal.unorm in Hn.
  destruct (Decimal.nzhead u) eqn:Hu; try discriminate.
  - injection Hn as <-. now apply (DecimalPos.Unsigned.to_uint_nonzero p).
  - now apply (DecimalFacts.nzhead_nonzero u u0).
Qed.

Lemma not_delimited_number c r :
  delimited (String c r) = true ->
  JSON.parse_frac (String c r) = Some (EmptyString, String c r) /\
  JSON.parse_exp (String c r) = Some (EmptyString, String c r).
Proof.
  revert c. intros [[] [] [] [] [] [] [] []]; vm_compute; intros; try discriminate;
    split; reflexivity.
Qed.

Lemma parse_tail r :
  delimited r = true ->
  JSON.parse_frac r = Some (EmptyString, r) /\ JSON.parse_exp r = Some (EmptyString, r).
Proof.
  destruct r as [|c r]; [now split|]. apply not_delimited_number.
Qed.

Lemma parse_int_part_pos p r :
  delimited r = true ->
  JSON.parse_int_part (NilZero.string_of_uint (Pos.to_uint p) +:+ r)
  = Some (NilZero.string_of_uint (Pos.to_uint p), r) /\
  exists c t, NilZero.string_of_uint (Pos.to_uint p) = String c t /\
              Ascii.eqb c "-" = false /\ JSON.is_digit c = true.
Proof.
  intros Hr. pose proof (to_uint_head p) as Hhead.
  pose proof (DecimalPos.Unsigned.to_uint_nonnil p) as Hnil.
  destruct (Pos.to_uint p) as [|u|u|u|u|u|u|u|u|u|u];
    [contradiction | exfalso; now apply (Hhead u) | ..];
    cbn [NilZero.string_of_uint NilEmpty.string_of_uint];
    rewrite append_cons; cbn [JSON.parse_int_part];
    (split; [change (Ascii.eqb _ "0") with false;
             change (JSON.is_digit _) with true; cbv iota;
             rewrite span_digits_uint by assumption; reflexivity
            |eexists _, _; repeat split; reflexivity]).
Qed.

Lemma uint_of_string_pos p :
  NilZero.uint_of_string (NilZero.string_of_uint (Pos.to_uint p)) = Some (Pos.to_uint p).
Proof. apply NilZero.usu, DecimalPos.Unsigned.to_uint_nonnil. Qed.

Lemma of_uint_pos p : Z.of_uint (Pos.to_uint p) = Z.pos p.
Proof. unfold Z.of_uint. now rewrite DecimalPos.Unsigned.of_to. Qed.

Lemma parse_number_digits P i r d :
  delimited r = true ->
  JSON.parse_int_part (i +:+ r) = Some (i, r) ->
  NilZero.uint_of_string i = Some d ->
  (forall c t, i = String c t -> Ascii.eqb c "-" = false) ->
  JSON.parse_number P (i +:+ r) = Some (JS.of_Z (Z.of_uint d), r) /\
  JSON.parse_number P (String "-" (i +:+ r)) = Some (JS.of_Z (- Z.of_uint d), r).
Proof.
  intros Hr Hint Hd Hminus. destruct (parse_tail r Hr) as [Hfrac Hexp].
  unfold JSON.parse_number. split.
  - assert (Hc : match (i +:+ r)%string with
                 | String "-" r0 => (true, r0)
                 | _ => (false, (i +:+ r)%string)
                 end = (false, (i +:+ r)%string)).
    { destruct i as [|c t]; [discriminate|].
      specialize (Hminus c t eq_refl). rewrite append_cons.
      revert Hminus. clear.
      destruct c as [[] [] [] [] [] [] [] []]; vm_compute; congruence. }
    rewrite Hc, Hint. simpl. rewrite Hfrac. simpl. rewrite Hexp. simpl.
    rewrite Hd. reflexivity.
  - rewrite Hint. simpl. rewrite Hfrac. simpl. rewrite Hexp. simpl.
    rewrite Hd. reflexivity.
Qed.

Lemma parse_number_Z P z r :
  delimited r = true ->
  JSON.parse_number P (JS.Z_toString z +:+ r) = Some (JS.of_Z z, r).
Proof.
  intros Hr.
  unfold JS.Z_toString. destruct z as [|p|p]; cbn [Z.to_int NilZero.string_of_int].
  - apply (parse_number_digits P "0" r (Decimal.D0 Decimal.Nil)); try reflexivity;
      try assumption.
    intros c t [= <- _]. reflexivity.
  - destruct (parse_int_part_pos p r Hr) as (Hint & c & t & Hd & Hminus & _).
    rewrite <- (of_uint_pos p).
    apply (parse_number_digits P _ r (Pos.to_uint p) Hr Hint (uint_of_string_pos p)).
    intros c' t' Heq. rewrite Hd in Heq. now injection Heq as <- _.
  - destruct (parse_int_part_pos p r Hr) as (Hint & c & t & Hd & Hminus & _).
    rewrite append_cons.
    change (Z.neg p) with (- Z.pos p). rewrite <- (of_uint_pos p).
    apply (parse_number_digits P _ r (Pos.to_uint p) Hr Hint (uint_of_string_pos p)).
    intros c' t' Heq. rewrite Hd in Heq. now injection Heq as <- _.
Qed.

(** ** Objects in enumeration order *)

Lemma distinct_app_l a b : distinct (a ++ b) = true -> distinct a = true.
Proof.
  induction a as [|k a IH]; [reflexivity|]. cbn [app distinct].
  intros [Hk Hrest]%andb_true_iff. apply andb_true_iff. split; [|now apply IH].
  apply negb_true_iff. apply negb_true_iff in Hk. rewrite existsb_app in Hk.
  now apply orb_false_iff in Hk as [-> _].
Qed.

Lemma distinct_snoc a k :
  distinct (a ++ [k]) = true -> existsb (fun k' => String.eqb k' k) a = false.
Proof.
  induction a as [|k0 a IH]; [reflexivity|]. cbn [app distinct existsb].
  intros [Hk Hrest]%andb_true_iff. apply negb_true_iff in Hk.
  rewrite existsb_app in Hk. apply orb_false_iff in Hk as [_ Hk].
  cbn [existsb] in Hk. rewrite orb_false_r in Hk.
  apply orb_false_iff. split; [exact Hk | now apply IH].
Qed.

Lemma order_member lo ks k :
  enumeration_order lo ks = true -> In k ks ->
  forall i, JSON.array_index k = Some i -> lo < i.
Proof.
  revert lo. induction ks as [|k0 ks IH]; intros lo Hord Hin i Hi; [destruct Hin|].
  cbn [enumeration_order] in Hord.
  destruct (JSON.array_index k0) as [j|] eqn:Hj.
  - apply andb_true_iff in Hord as [Hlo Hord]. apply Z.ltb_lt in Hlo.
    destruct Hin as [<-|Hin].
    + rewrite Hj in Hi. injection Hi as <-. exact Hlo.
    + specialize (IH j Hord Hin i Hi). lia.
  - apply andb_true_iff in Hord as [Hnon _].
    destruct Hin as [<-|Hin]; [congruence|].
    rewrite forallb_forall in Hnon. specialize (Hnon k Hin).
    unfold is_index in Hnon. rewrite Hi in Hnon. discriminate.
Qed.

Lemma order_prefix lo a b :
  enumeration_order lo (a ++ b) = true -> enumeration_order lo a = true.
Proof.
  revert lo. induction a as [|k a IH]; intros lo; [reflexivity|].
  cbn [app enumeration_order]. destruct (JSON.array_index k).
  - intros [-> Hord]%andb_true_iff. now apply IH.
  - intros [Hnon Hdis]%andb_true_iff. rewrite forallb_app in Hnon.
    apply andb_true_iff in Hnon as [-> _].
    now apply (distinct_app_l (k :: a) b) in Hdis as ->.
Qed.

Lemma order_fresh lo ks k :
  enumeration_order lo (ks ++ [k]) = true ->
  existsb (fun k' => String.eqb k' k) ks = false.
Proof.
  revert lo. induction ks as [|k0 ks IH]; intros lo Hord; [reflexivity|].
  cbn [app enumeration_order] in Hord. cbn [existsb].
  destruct (JSON.array_index k0) as [j|] eqn:Hj.
  - apply andb_true_iff in Hord as [_ Hord].
    rewrite (IH j Hord), orb_false_r.
    destruct (String.eqb_spec k0 k) as [->|]; [|reflexivity].
    pose proof (order_member j (ks ++ [k]) k Hord
                  ltac:(apply in_or_app; right; now left) j Hj). lia.
  - apply andb_true_iff in Hord as [_ Hdis].
    now apply (distinct_snoc (k0 :: ks) k).
Qed.

Lemma has_key_keys k o :
  JSON.has_key k o = existsb (fun k' => String.eqb k' k) (map fst o).
Proof.
  unfold JSON.has_key. induction o as [|m o IH]; [reflexivity|].
  cbn [map existsb]. now rewrite IH.
Qed.

Lemma insert_index_last lo o k v i :
  enumeration_order lo (map fst o ++ [k]) = true ->
  JSON.array_index k = Some i ->
  JSON.insert_index i k v o = o ++ [(k, v)].
Proof.
  revert lo. induction o as [|[k0 v0] o IH]; intros lo Hord Hi; [reflexivity|].
  cbn [map app fst enumeration_order] in Hord. cbn [JSON.insert_index fst app].
  destruct (JSON.array_index k0) as [j|] eqn:Hj.
  - apply andb_true_iff in Hord as [_ Hord].
    pose proof (order_member j (map fst o ++ [k]) k Hord
                  ltac:(apply in_or_app; right; now left) i Hi) as Hlt.
    apply Z.ltb_lt in Hlt. rewrite Hlt. f_equal. now apply (IH j).
  - apply andb_true_iff in Hord as [Hnon _]. rewrite forallb_app in Hnon.
    apply andb_true_iff in Hnon as [_ Hnon]. cbn [forallb] in Hnon.
    unfold is_index in Hnon. rewrite Hi in Hnon. discriminate.
Qed.

Lemma define_property_last lo o k v :
  enumeration_order lo (map fst o ++ [k]) = true ->
  JSON.define_property o (k, v) = o ++ [(k, v)].
Proof.
  intros Hord. unfold JSON.define_property.
  rewrite has_key_keys, (order_fresh lo _ _ Hord).
  destruct (JSON.array_index k) as [i|] eqn:Hi; [|reflexivity].
  now apply (insert_index_last lo).
Qed.

Lemma object_of_ordered_from lo acc l :
  enumeration_order lo (map fst (acc ++ l)) = true ->
  fold_left JSON.define_property l acc = acc ++ l.
Proof.
  revert acc. induction l as [|[k v] l IH]; intros acc Hord; cbn [fold_left].
  - now rewrite app_nil_r.
  - rewrite (define_property_last lo).
    + rewrite IH; [now rewrite <- app_assoc|]. now rewrite <- app_assoc.
    + apply (order_prefix lo _ (map fst l)).
      rewrite <- app_assoc. now rewrite map_app in Hord.
Qed.

Lemma object_of_ordered l :
  enumeration_order (-1) (map fst l) = true -> JSON.object_of l = l.
Proof. intros H. now apply (object_of_ordered_from (-1) [] l). Qed.

(** ** Values *)

Lemma value_induction (Q : JSON.value -> Prop) :
  Q JSON.Null ->
  (forall b, Q (JSON.Bool b)) ->
  (forall n, Q (JSON.Num n)) ->
  (forall s, Q (JSON.Str s)) ->
  (forall l, Forall Q l -> Q (JSON.Arr l)) ->
  (forall l, Forall (fun m => Q (snd m)) l -> Q (JSON.Obj l)) ->
  forall v, Q v.
Proof.
  intros HNull HBool HNum HStr HArr HObj.
  fix IH 1. intros [|b|n|s|l|l].
  - exact HNull.
  - apply HBool.
  - apply HNum.
  - apply HStr.
  - apply HArr. induction l as [|x l IHl]; constructor; [apply IH | exact IHl].
  - apply HObj. induction l as [|[k x] l IHl]; constructor; [apply IH | exact IHl].
Qed.

Lemma length_append (a b : string) :
  String.length (a +:+ b) = (String.length a + String.length b)%nat.
Proof. induction a as [|c a IH]; [reflexivity|]. rewrite append_cons. simpl. now rewrite IH. Qed.

Lemma substring_all (s : string) : substring 0 (String.length s) s = s.
Proof. induction s as [|c s IH]; [reflexivity|]. simpl. now rewrite IH. Qed.

Lemma strip_prefix_app (p r : string) : JSON.strip_prefix p (p +:+ r) = Some r.
Proof.
  unfold JSON.strip_prefix.
  assert (Hp : String.prefix p (p +:+ r) = true).
  { induction p as [|c p IH]; [now destruct r|].
    rewrite append_cons. simpl.
    destruct (ascii_dec c c) as [_|Hne]; [exact IH|contradiction]. }
  rewrite Hp. f_equal. rewrite length_append.
  replace (String.length p + String.length r - String.length p)%nat
    with (String.length r) by lia.
  induction p as [|c p IH]; [apply substring_all|].
  rewrite append_cons. simpl. apply IH.
  clear -Hp. rewrite append_cons in Hp. simpl in Hp.
  now destruct (ascii_dec c c).
Qed.

Lemma Z_toString_head z :
  exists c t, JS.Z_toString z = String c t /\
              (Ascii.eqb c "-" || JSON.is_digit c) = true.
Proof.
  unfold JS.Z_toString. destruct z as [|p|p]; cbn [Z.to_int NilZero.string_of_int].
  - now eexists _, _.
  - destruct (parse_int_part_pos p EmptyString eq_refl) as (_ & c & t & Hd & _ & Hdig).
    exists c, t. split; [exact Hd|]. rewrite Hdig. apply orb_true_r.
  - now eexists _, _.
Qed.

Lemma safe_integer_of_Z n :
  safe_integer n = true -> exists z, n = JS.of_Z z /\ Z.abs z < 2 ^ 53.
Proof.
  destruct n as [[z [| |]]| | |]; try discriminate. simpl.
  intros H%Z.ltb_lt. exists z. split; [reflexivity|exact H].
Qed.

Lemma print_safe_integer P z :
  Z.abs z < 2 ^ 53 -> JSON.print_number P (JS.of_Z z) = JS.Z_toString z.
Proof.
  intros Hz. unfold JSON.print_number. change (JS.of_Z z) with (JS.Fin (inject_Z z)) at 1.
  cbv iota. change (JS.Fin (inject_Z z)) with (JS.of_Z z).
  apply JSFacts.toString_of_Z.
  assert (2 ^ 53 < 10 ^ 21) by (vm_compute; reflexivity). lia.
Qed.

Lemma stringify_head P v :
  serializable v = true ->
  exists c t, JSON.stringify P v = String c t /\ opens_value c = true.
Proof.
  destruct v as [|[]|n|s|l|l]; intros Hv; try (now eexists _, _).
  apply safe_integer_of_Z in Hv as (z & -> & Hz).
  cbn [JSON.stringify]. rewrite print_safe_integer by assumption.
  destruct (Z_toString_head z) as (c & t & -> & Hc).
  exists c, t. split; [reflexivity|].
  unfold opens_value. revert Hc. clear.
  destruct c as [[] [] [] [] [] [] [] []]; vm_compute; congruence.
Qed.

Lemma opens_value_facts c :
  opens_value c = true ->
  JSON.is_ws c = false /\ Ascii.eqb c "]" = false /\ Ascii.eqb c "}" = false.
Proof. destruct c as [[] [] [] [] [] [] [] []]; vm_compute; intuition congruence. Qed.

Lemma skip_ws_value P v r :
  serializable v = true ->
  JSON.skip_ws (JSON.stringify P v +:+ r) = (JSON.stringify P v +:+ r)%string.
Proof.
  intros Hv. destruct (stringify_head P v Hv) as (c & t & -> & Hc).
  rewrite append_cons. cbn [JSON.skip_ws].
  now destruct (opens_value_facts c Hc) as (-> & _).
Qed.

Lemma skip_ws_delimiter r : delimited r = true -> JSON.skip_ws r = r.
Proof.
  destruct r as [|c r]; [reflexivity|]. cbn [delimited JSON.skip_ws].
  intros H. replace (JSON.is_ws c) with false; [reflexivity|].
  revert H. clear. destruct c as [[] [] [] [] [] [] [] []]; vm_compute; congruence.
Qed.

(** A number is read by [parse_number]. *)
Lemma parse_value_number P fuel c t :
  (Ascii.eqb c "-" || JSON.is_digit c) = true ->
  JSON.parse_value P (S fuel) (String c t) =
  ('(n, r') ← JSON.parse_number P (String c t); Some (JSON.Num n, r')).
Proof.
  intros Hc. cbn [JSON.parse_value JSON.skip_ws].
  assert (H : JSON.is_ws c = false /\ Ascii.eqb c "n" = false /\
              Ascii.eqb c "t" = false /\ Ascii.eqb c "f" = false /\
              Ascii.eqb c "034" = false /\ Ascii.eqb c "[" = false /\
              Ascii.eqb c "{" = false).
  { revert Hc. clear.
    destruct c as [[] [] [] [] [] [] [] []]; vm_compute; intuition congruence. }
  destruct H as (-> & -> & -> & -> & -> & -> & ->). now rewrite Hc.
Qed.

(** ** Parsing what was printed *)

Section RoundTrip.
Variable P : Platform.

(** [reads v]: the parser, given enough fuel, reads [v] back from its
    printed form and stops at the delimiter that follows it. *)
Let reads (v : JSON.value) : Prop :=
  serializable v = true ->
  forall fuel r,
    (String.length (JSON.stringify P v) < fuel)%nat ->
    delimited r = true ->
    JSON.parse_value P fuel (JSON.stringify P v +:+ r) = Some (v, r).

Lemma stringify_nonempty v :
  serializable v = true -> (1 <= String.length (JSON.stringify P v))%nat.
Proof.
  intros Hv. destruct (stringify_head P v Hv) as (c & t & -> & _). simpl. lia.
Qed.

Lemma join_two sep (x y : string) l :
  JSON.join sep (x :: y :: l) = (x +:+ sep +:+ JSON.join sep (y :: l))%string.
Proof. reflexivity. Qed.

Lemma parse_elements_join l :
  l <> [] ->
  Forall reads l ->
  forallb serializable l = true ->
  forall fuel r,
    (String.length (JSON.join "," (map (JSON.stringify P) l)) + 1 < fuel)%nat ->
    JSON.parse_elements P fuel
      (JSON.join "," (map (JSON.stringify P) l) +:+ String "]" r)
    = Some (l, r).
Proof.
  induction l as [|x l IH]; [contradiction|]. intros _ Hall Hser fuel r Hfuel.
  inversion Hall as [|? ? Hx Hl]; subst.
  cbn [forallb] in Hser. apply andb_true_iff in Hser as [Hsx Hsl].
  destruct fuel as [|fuel]; [lia|].
  destruct l as [|y l'].
  - cbn [map JSON.join] in *. cbn [JSON.parse_elements].
    rewrite (Hx Hsx fuel (String "]" r)) by (reflexivity || lia).
    reflexivity.
  - rewrite (map_cons _ x), (map_cons _ y), join_two in Hfuel |- *.
    rewrite <- (map_cons (JSON.stringify P) y) in Hfuel |- *.
    rewrite !length_append in Hfuel. cbn [String.length] in Hfuel.
    pose proof (stringify_nonempty x Hsx) as Hnx.
    rewrite !append_assoc, append_cons, append_nil.
    cbn [JSON.parse_elements].
    rewrite (Hx Hsx fuel) by (reflexivity || lia).
    cbn [mbind option_bind JSON.skip_ws]. change (JSON.is_ws ",") with false. cbv iota.
    rewrite IH; [reflexivity | discriminate | exact Hl | exact Hsl | lia].
Qed.

Lemma parse_members_join l :
  l <> [] ->
  Forall (fun m => reads (snd m)) l ->
  forallb (fun m => wellformed_string (fst m) && serializable (snd m)) l = true ->
  forall fuel r,
    (String.length
       (JSON.join "," (map (fun m => JSON.quote (fst m) +:+ ":" +:+ JSON.stringify P (snd m)) l))
     + 1 < fuel)%nat ->
    JSON.parse_members P fuel
      (JSON.join "," (map (fun m => JSON.quote (fst m) +:+ ":" +:+ JSON.stringify P (snd m)) l)
       +:+ String "}" r)
    = Some (l, r).
Proof.
  set (item := fun m : string * JSON.value =>
                 (JSON.quote (fst m) +:+ ":" +:+ JSON.stringify P (snd m))%string).
  induction l as [|[k x] l IH]; [contradiction|]. intros _ Hall Hser fuel r Hfuel.
  inversion Hall as [|? ? Hx Hl]; subst. cbn [snd] in Hx.
  cbn [forallb fst snd] in Hser. apply andb_true_iff in Hser as [Hkx Hsl].
  apply andb_true_iff in Hkx as [_ Hsx].
  destruct fuel as [|fuel]; [lia|].
  pose proof (stringify_nonempty x Hsx) as Hnx.
  assert (Hitem : item (k, x) = (JSON.quote k +:+ ":" +:+ JSON.stringify P x)%string)
    by reflexivity.
  destruct l as [|m l'].
  - cbn [map JSON.join] in *. rewrite Hitem in Hfuel |- *.
    rewrite !length_append in Hfuel. cbn [String.length] in Hfuel.
    rewrite !append_assoc.
    destruct (quote_parses k (":" +:+ JSON.stringify P x +:+ String "}" r))
      as (q & -> & Hq).
    cbn [JSON.parse_members JSON.skip_ws]. change (JSON.is_ws "034") with false.
    cbv iota. rewrite Hq. cbn [mbind option_bind].
    rewrite append_cons, append_nil. cbn [JSON.skip_ws].
    change (JSON.is_ws ":") with false. cbv iota.
    rewrite (Hx Hsx fuel (String "}" r)) by (reflexivity || lia).
    reflexivity.
  - rewrite (map_cons item (k, x)), (map_cons item m), join_two in Hfuel |- *.
    rewrite <- (map_cons item m) in Hfuel |- *. rewrite Hitem in Hfuel |- *.
    rewrite !length_append in Hfuel. cbn [String.length] in Hfuel.
    rewrite !append_assoc.
    match goal with |- JSON.parse_members _ _ (JSON.quote k +:+ ?rest) = _ =>
      destruct (quote_parses k rest) as (q & -> & Hq)
    end.
    cbn [JSON.parse_members JSON.skip_ws]. change (JSON.is_ws "034") with false.
    cbv iota. rewrite Hq. cbn [mbind option_bind].
    rewrite append_cons, append_nil. cbn [JSON.skip_ws].
    change (JSON.is_ws ":") with false. cbv iota.
    rewrite !append_cons, append_nil.
    rewrite (Hx Hsx fuel) by (reflexivity || lia).
    cbn [mbind option_bind JSON.skip_ws]. change (JSON.is_ws ",") with false. cbv iota.
    rewrite IH; [reflexivity | discriminate | exact Hl | exact Hsl | lia].
Qed.

Lemma reads_all v : reads v.
Proof.
  induction v as [|b|n|s|l IHl|l IHl] using value_induction;
    intros Hv fuel r Hfuel Hr; (destruct fuel as [|fuel]; [lia|]).
  - change (JSON.stringify P JSON.Null +:+ r)%string with (String "n" ("ull" +:+ r)).
    cbn [JSON.parse_value JSON.skip_ws]. change (JSON.is_ws "n") with false.
    cbv iota. change (Ascii.eqb "n" "n") with true. cbv iota.
    now rewrite strip_prefix_app.
  - destruct b.
    + change (JSON.stringify P (JSON.Bool true) +:+ r)%string
        with (String "t" ("rue" +:+ r)).
      cbn [JSON.parse_value JSON.skip_ws]. change (JSON.is_ws "t") with false.
      cbv iota. change (Ascii.eqb "t" "n") with false.
      change (Ascii.eqb "t" "t") with true. cbv iota.
      now rewrite strip_prefix_app.
    + change (JSON.stringify P (JSON.Bool false) +:+ r)%string
        with (String "f" ("alse" +:+ r)).
      cbn [JSON.parse_value JSON.skip_ws]. change (JSON.is_ws "f") with false.
      cbv iota. change (Ascii.eqb "f" "n") with false.
      change (Ascii.eqb "f" "t") with false.
      change (Ascii.eqb "f" "f") with true. cbv iota.
      now rewrite strip_prefix_app.
  - apply safe_integer_of_Z in Hv as (z & -> & Hz).
    cbn [JSON.stringify]. rewrite print_safe_integer by assumption.
    pose proof (parse_number_Z P z r Hr) as Hnum.
    destruct (Z_toString_head z) as (c & t & Hhead & Hc).
    rewrite Hhead, append_cons in Hnum |- *.
    rewrite parse_value_number by assumption. now rewrite Hnum.
  - cbn [JSON.stringify].
    destruct (quote_parses s r) as (q & -> & Hq).
    cbn [JSON.parse_value JSON.skip_ws]. change (JSON.is_ws "034") with false.
    cbv iota. change (Ascii.eqb "034" "n") with false.
    change (Ascii.eqb "034" "t") with false. change (Ascii.eqb "034" "f") with false.
    change (Ascii.eqb "034" "034") with true. cbv iota. now rewrite Hq.
  - cbn [serializable] in Hv. cbn [JSON.stringify] in Hfuel |- *.
    repeat rewrite append_cons in Hfuel. repeat rewrite append_nil in Hfuel.
    repeat rewrite append_cons. repeat rewrite append_nil.
    cbn [JSON.parse_value JSON.skip_ws]. change (JSON.is_ws "[") with false.
    cbv iota. change (Ascii.eqb "[" "n") with false.
    change (Ascii.eqb "[" "t") with false. change (Ascii.eqb "[" "f") with false.
    change (Ascii.eqb "[" "034") with false. change (Ascii.eqb "[" "[") with true.
    cbv iota.
    destruct l as [|x l]; [reflexivity|].
    rewrite append_assoc, append_cons, append_nil.
    cbn [String.length] in Hfuel. rewrite length_append in Hfuel.
    cbn [String.length] in Hfuel.
    assert (Hhead : exists c t,
               (JSON.join "," (map (JSON.stringify P) (x :: l)) +:+ String "]" r)%string
               = String c t /\ opens_value c = true).
    { cbn [forallb] in Hv. apply andb_true_iff in Hv as [Hx _].
      destruct (stringify_head P x Hx) as (c & t & Hc & Ho).
      cbn [map]. destruct l; cbn [JSON.join map]; rewrite Hc, ?append_cons;
        eexists _, _; (split; [reflexivity | exact Ho]). }
    destruct Hhead as (c & t & Hshape & Ho).
    destruct (opens_value_facts c Ho) as (Hws & Hclose & _).
    transitivity ('(l0, r') ← JSON.parse_elements P fuel
                    (JSON.join "," (map (JSON.stringify P) (x :: l)) +:+ String "]" r);
                  Some (JSON.Arr l0, r')).
    { rewrite Hshape. cbn [JSON.skip_ws]. rewrite Hws.
      revert Hclose. clear.
      destruct c as [[] [] [] [] [] [] [] []]; intros Hclose;
        first [discriminate Hclose | reflexivity]. }
    rewrite parse_elements_join; [reflexivity | discriminate | exact IHl | exact Hv | lia].
  - cbn [serializable] in Hv. apply andb_true_iff in Hv as [Hord Hv].
    cbn [JSON.stringify] in Hfuel |- *.
    repeat rewrite append_cons in Hfuel. repeat rewrite append_nil in Hfuel.
    repeat rewrite append_cons. repeat rewrite append_nil.
    cbn [JSON.parse_value JSON.skip_ws]. change (JSON.is_ws "{") with false.
    cbv iota. change (Ascii.eqb "{" "n") with false.
    change (Ascii.eqb "{" "t") with false. change (Ascii.eqb "{" "f") with false.
    change (Ascii.eqb "{" "034") with false. change (Ascii.eqb "{" "[") with false.
    change (Ascii.eqb "{" "{") with true. cbv iota.
    destruct l as [|[k x] l]; [reflexivity|].
    rewrite append_assoc, append_cons, append_nil.
    cbn [String.length] in Hfuel. rewrite length_append in Hfuel.
    cbn [String.length] in Hfuel.
    set (printed := (JSON.join ","
                       (map (fun m => JSON.quote (fst m) +:+ ":" +:+ JSON.stringify P (snd m))
                          ((k, x) :: l)) +:+ String "}" r)%string) in *.
    assert (Hshape : exists t, printed = String "034" t).
    { subst printed. cbn [map fst snd]. unfold JSON.quote.
      destruct l; cbn [JSON.join map]; rewrite ?append_cons; now eexists. }
    destruct Hshape as (t & Hshape).
    transitivity ('(l0, r') ← JSON.parse_members P fuel printed;
                  Some (JSON.Obj (JSON.object_of l0), r')).
    { rewrite Hshape. reflexivity. }
    subst printed.
    rewrite parse_members_join; [| discriminate | exact IHl | exact Hv | lia].
    cbn [mbind option_bind]. now rewrite object_of_ordered.
Qed.

(** [JSON.parse] inverts [JSON.stringify] on serializable values. *)
Lemma parse_stringify v :
  serializable v = true -> JSON.parse P (JSON.stringify P v) = Some v.
Proof.
  intros Hv. unfold JSON.parse.
  pose proof (reads_all v Hv (S (String.length (JSON.stringify P v))) EmptyString
                ltac:(lia) eq_refl) as H.
  assert (Hnil : forall s : string, (s +:+ EmptyString)%string = s).
  { induction s as [|c s IH]; [reflexivity|]. now rewrite append_cons, IH. }
  rewrite Hnil in H. rewrite H. reflexivity.
Qed.
End RoundTrip.

(** ** Printed values are well-formed text *)

Lemma uint_ascii d : ascii_only (NilEmpty.string_of_uint d) = true.
Proof. induction d; cbn [NilEmpty.string_of_uint]; [reflexivity | exact IHd ..]. Qed.

Lemma Z_toString_ascii z : ascii_only (JS.Z_toString z) = true.
Proof.
  unfold JS.Z_toString.
  destruct z as [|p|p]; cbn [Z.to_int NilZero.string_of_int]; [reflexivity | |].
  - unfold NilZero.string_of_uint. destruct (Pos.to_uint p) eqn:E;
      [reflexivity | rewrite <- E; apply uint_ascii ..].
  - change (ascii_only (NilZero.string_of_uint (Pos.to_uint p)) = true).
    unfold NilZero.string_of_uint. destruct (Pos.to_uint p) eqn:E;
      [reflexivity | rewrite <- E; apply uint_ascii ..].
Qed.

Lemma wellformed_join (l : list string) :
  Forall (fun s => wellformed_string s = true) l ->
  wellformed_string (JSON.join "," l) = true.
Proof.
  induction 1 as [|x l Hx Hl IH]; [reflexivity|].
  destruct l as [|y l]; [exact Hx|].
  rewrite join_two. apply wellformed_app_true; [exact Hx|].
  rewrite append_cons, append_nil, wellformed_cons_low by reflexivity. exact IH.
Qed.

Lemma wellformed_stringify P v :
  serializable v = true -> wellformed_string (JSON.stringify P v) = true.
Proof.
  induction v as [|b|n|s|l IHl|l IHl] using value_induction; intros Hv.
  - reflexivity.
  - now destruct b.
  - apply safe_integer_of_Z in Hv as (z & -> & Hz).
    cbn [JSON.stringify]. rewrite print_safe_integer by assumption.
    apply wellformed_ascii, Z_toString_ascii.
  - now apply wellformed_quote.
  - cbn [serializable] in Hv. cbn [JSON.stringify].
    rewrite append_cons, append_nil, wellformed_cons_low by reflexivity.
    apply wellformed_app_true; [|reflexivity].
    apply wellformed_join. apply Forall_map.
    rewrite Forall_forall in IHl |- *. intros x Hx.
    apply IHl; [exact Hx|].
    rewrite forallb_forall in Hv. apply Hv. now apply list_elem_of_In.
  - cbn [serializable] in Hv. apply andb_true_iff in Hv as [_ Hv].
    cbn [JSON.stringify].
    rewrite append_cons, append_nil, wellformed_cons_low by reflexivity.
    apply wellformed_app_true; [|reflexivity].
    apply wellformed_join. apply Forall_map.
    rewrite Forall_forall in IHl |- *. intros [k x] Hx.
    rewrite forallb_forall in Hv.
    specialize (Hv (k, x) ltac:(now apply list_elem_of_In)).
    cbn [fst snd] in Hv |- *. apply andb_true_iff in Hv as [Hk Hs].
    apply wellformed_app_true; [now apply wellformed_quote|].
    rewrite append_cons, append_nil, wellformed_cons_low by reflexivity.
    apply (IHl (k, x) Hx Hs).
Qed.

(** ** The codec *)

Lemma toString_utf8_wellformed dec s :
  wellformed_string s = true ->
  Buffer.toString_utf8 dec (list_byte_of_string s) = s.
Proof.
  intros H. unfold Buffer.toString_utf8. unfold wellformed_string in H.
  rewrite H. apply string_of_list_byte_of_string.
Qed.

(** Reading back what was written gives the value that was printed. *)
Lemma decode_encode_value P d :
  serializable (FileOptions.to_value d) = true ->
  FileOptions.decode P (FileOptions.encode P d) = Some (FileOptions.to_value d).
Proof.
  intros Hv. unfold FileOptions.decode, FileOptions.encode.
  rewrite toString_utf8_wellformed by apply wellformed_toString_hex.
  rewrite from_hex_toString_hex. unfold Buffer.reverse. rewrite rev_involutive.
  unfold Buffer.from_utf8.
  rewrite toString_utf8_wellformed by now apply wellformed_stringify.
  now apply parse_stringify.
Qed.

(** ** Plans as values *)

Lemma array_index_of_nat i :
  Z.of_nat i < 2 ^ 32 - 1 ->
  JSON.array_index (JS.Z_toString (Z.of_nat i)) = Some (Z.of_nat i).
Proof.
  intros Hi. destruct (Z.of_nat i) as [|p|p] eqn:E; [reflexivity | | lia].
  unfold JSON.array_index.
  change (JS.Z_toString (Z.pos p)) with (NilZero.string_of_uint (Pos.to_uint p)).
  rewrite uint_of_string_pos. cbn [mbind option_bind]. rewrite of_uint_pos.
  change (JS.Z_toString (Z.pos p)) with (NilZero.string_of_uint (Pos.to_uint p)).
  rewrite String.eqb_refl. apply Z.ltb_lt in Hi. now rewrite Hi.
Qed.

Lemma parts_order lo ps :
  ascending lo (map fst ps) = true ->
  enumeration_order lo (map fst (map FileOptions.part_value ps)) = true.
Proof.
  revert lo. induction ps as [|[i [f [a b]]] ps IH]; intros lo H; [reflexivity|].
  cbn [map fst ascending] in H.
  apply andb_true_iff in H as [[Hlo Hi]%andb_true_iff Hr].
  cbn [map fst FileOptions.part_value enumeration_order].
  rewrite array_index_of_nat by now apply Z.ltb_lt.
  rewrite Hlo. cbn [andb]. now apply IH.
Qed.

Lemma parts_serializable ps :
  forallb valid_part ps = true ->
  forallb (fun m => wellformed_string (fst m) && serializable (snd m))
    (map FileOptions.part_value ps) = true.
Proof.
  induction ps as [|[i [f [a b]]] ps IH]; [reflexivity|].
  cbn [forallb map]. intros [Hp Hr]%andb_true_iff. rewrite (IH Hr), andb_true_r.
  unfold valid_part in Hp. apply andb_true_iff in Hp as [[Hf Ha]%andb_true_iff Hb].
  cbn [FileOptions.part_value fst snd serializable forallb]. rewrite Hf, Ha, Hb.
  now rewrite (wellformed_ascii _ (Z_toString_ascii _)).
Qed.

Lemma parts_of_value lo ps :
  ascending lo (map fst ps) = true ->
  mapM FileOptions.part_of_value (map FileOptions.part_value ps) = Some ps.
Proof.
  revert lo. induction ps as [|[i [f [a b]]] ps IH]; intros lo H; [reflexivity|].
  cbn [map fst ascending] in H.
  apply andb_true_iff in H as [[Hlo Hi]%andb_true_iff Hr].
  cbn [map mapM]. rewrite (IH _ Hr).
  unfold FileOptions.part_of_value. cbn [FileOptions.part_value fst snd].
  rewrite array_index_of_nat by now apply Z.ltb_lt.
  cbn [mbind option_bind mret option_ret]. now rewrite Nat2Z.id.
Qed.

Lemma valid_plan_serializable d :
  valid_plan d = true -> serializable (FileOptions.to_value d) = true.
Proof.
  unfold valid_plan. rewrite !andb_true_iff.
  intros ((((((((Hu & Hp) & Hn) & Hd) & Hc) & Hs) & Hv) & Ho) & Hps).
  unfold FileOptions.to_value. cbn [serializable]. apply andb_true_iff; split.
  - destruct (FileOptions.resumed d); vm_compute; reflexivity.
  - rewrite forallb_app. cbn [forallb fst snd serializable].
    rewrite Hu, Hp, Hn, Hd, Hc, Hs, Hv, (parts_order _ _ Ho), (parts_serializable _ Hps).
    destruct (FileOptions.resumed d); reflexivity.
Qed.

Lemma of_value_to_value d :
  ascending (-1) (map fst (FileOptions.parts d)) = true ->
  FileOptions.of_value (FileOptions.to_value d) = Some d.
Proof.
  destruct d as [url path name size parts resumed speed destination contentType finished].
  cbn [FileOptions.parts]. intros Ho.
  unfold FileOptions.to_value, FileOptions.of_value.
  cbn [FileOptions.url FileOptions.path FileOptions.name FileOptions.size
       FileOptions.parts FileOptions.resumed FileOptions.speed
       FileOptions.destination FileOptions.contentType FileOptions.finished].
  destruct resumed as [b|];
    (change (FileOptions.get_string "url" ?o) with (Some url);
     cbn -[mapM FileOptions.part_of_value FileOptions.part_value];
     rewrite (parts_of_value _ _ Ho); reflexivity).
Qed.




(* ================================================================== *)
(** * Invariants of a download *)
(* ================================================================== *)

(** A property of a download that every field update, every log line
    and every emitted event of a given kind maintains is maintained by
    the methods of the coordinator and by the callbacks of its workers.
    Each lemma depends on the updates that its method performs only. *)
Section Invariant.
Variable P : Platform.
Variable R : File.t -> Prop.
Variable allowed : File.emitted -> Prop.
Hypothesis R_workers : forall ws g, R g -> R (File.with_workers ws g).
Hypothesis R_destroyed :
  forall cid g, R g ->
    R (File.with_connections
         (filter (fun c => negb (Nat.eqb c cid)) (File.connections g)) g).
Hypothesis R_spawned :
  forall cid g, R g -> R (File.with_connections (File.connections g ++ [cid]) g).
Hypothesis R_speed : forall v g, R g -> R (File.with_speed v g).
Hypothesis R_inter : forall b g, R g -> R (File.with_inter b g).
Hypothesis R_stoped : forall g, R g -> R (File.with_stoped true g).
Hypothesis R_allConfig : forall c g, R g -> R (File.with_allConfig c g).
Hypothesis R_registered : forall r g, R g -> R (File.with_registered r g).
Hypothesis R_issued : forall rs g, R g -> R (File.with_issued rs g).
Hypothesis R_stop_calls : forall ss g, R g -> R (File.with_stop_calls ss g).
Hypothesis R_started : forall p g, R g -> R (File.with_started p g).
Hypothesis R_waitingLog : forall b g, R g -> R (File.with_waitingLog b g).
Hypothesis R_observer : forall o g, R g -> R (File.with_observer o g).
Hypothesis R_revalidating : forall b g, R g -> R (File.with_revalidating b g).
Hypothesis R_emitted :
  forall e g, allowed e -> R g -> R (File.with_trace (File.trace g ++ [e]) g).
Hypothesis R_log : forall m g, R g -> R (File.log m g).
Hypothesis R_on :
  forall ev l g, ev <> "write"%string ->
    R g -> R (File.with_logStream (Writer.on ev l (File.logStream g)) g).
Hypothesis R_closed :
  forall g, R g -> R (File.with_logStream (Writer.stop (File.logStream g)) g).
Hypothesis R_flushed :
  forall g, R g ->
    R (File.with_logStream (fst (Writer.write_callback (File.logStream g))) g).

Lemma inv_logs ms g : R g -> R (File.logs ms g).
Proof.
  unfold File.logs. revert g. induction ms as [|m ms IH]; intros g Hg; simpl.
  - exact Hg.
  - apply IH. now apply R_log.
Qed.

Lemma inv_heard cid i e g : R g -> R (File.heard cid i e g).
Proof.
  intros Hg. destruct e; simpl.
  - now apply R_log.
  - exact Hg.
  - match goal with
    | |- R (File.with_connections _ ?h) => apply (R_destroyed cid h)
    end.
    now apply R_log.
Qed.

Lemma inv_hear_all cid es g : R g -> R (File.hear_all cid es g).
Proof.
  unfold File.hear_all. revert g. induction es as [|e es IH]; intros g Hg; simpl.
  - exact Hg.
  - apply IH. now apply inv_heard.
Qed.

Lemma inv_run_worker cid callback g : R g -> R (File.run_worker cid callback g).
Proof.
  intros Hg. unfold File.run_worker.
  destruct (File.workers g !! cid) as [c|]; [|exact Hg].
  destruct (callback c) as [c' es].
  apply inv_hear_all. now apply R_workers.
Qed.

Lemma inv_deliver v l g : R g -> R (File.deliver P v l g).
Proof. intros Hg. destruct l; simpl; now apply inv_run_worker. Qed.

Lemma inv_deliver_all v ls g :
  R g -> R (fold_left (fun g l => File.deliver P v l g) ls g).
Proof.
  revert g. induction ls as [|l ls IH]; intros g Hg; simpl.
  - exact Hg.
  - apply IH. now apply inv_deliver.
Qed.

Lemma inv_emit event e v g : allowed e -> R g -> R (File.emit P event e v g).
Proof.
  intros He Hg. unfold File.emit. apply inv_deliver_all. now apply R_emitted.
Qed.

Lemma inv_setSpeed v g g' :
  (forall s, allowed (File.ev_speed s)) ->
  R g -> File.setSpeed P v g = Ok g' -> R g'.
Proof.
  intros Ha Hg. unfold File.setSpeed, throw.
  destruct (JS.isNaN v); [discriminate|]. intros [= <-].
  apply inv_emit; [apply Ha|]. now apply R_speed.
Qed.

Lemma inv_stop g : allowed File.ev_stop -> R g -> R (File.stop P g).
Proof.
  intros Ha Hg. unfold File.stop. apply inv_emit; [exact Ha|].
  match goal with
  | |- R (File.with_logStream (Writer.on ?ev ?l (File.logStream ?h)) ?h') =>
      change h' with h; apply R_on; [discriminate|]
  end.
  now apply R_stop_calls, R_stoped.
Qed.

Lemma inv_resolve_stop k g : R g -> R (File.resolve_stop k g).
Proof.
  intros Hg. unfold File.resolve_stop.
  destruct (File.stop_calls g !! k); [|exact Hg]. now apply R_stop_calls.
Qed.

Lemma inv_stop_timer k g : R g -> R (File.stop_timer k g).
Proof.
  intros Hg. unfold File.stop_timer.
  destruct (File.stop_calls g !! k) as [s|]; [|exact Hg].
  destruct (File.timer_armed s); [|exact Hg].
  match goal with |- context [if ?c then _ else _] => destruct c end.
  - apply inv_resolve_stop. now apply R_stop_calls.
  - now apply R_stop_calls.
Qed.

Lemma inv_run_log_listener l g : R g -> R (File.run_log_listener l g).
Proof.
  intros Hg. destruct l; simpl.
  - match goal with |- context [if ?c then _ else _] => destruct c end;
      [now apply inv_resolve_stop | exact Hg].
  - now apply R_started, R_inter.
Qed.

Lemma inv_write_callback g : R g -> R (File.write_callback g).
Proof.
  intros Hg. unfold File.write_callback.
  pose proof (R_flushed g Hg) as Hw.
  destruct (Writer.write_callback (File.logStream g)) as [w ls]. simpl in Hw.
  revert Hw. generalize (File.with_logStream w g).
  induction ls as [|l ls IH]; intros h Hh; simpl.
  - exact Hh.
  - apply IH. now apply inv_run_log_listener.
Qed.

Lemma inv_cleanup d g : R g -> R (fst (fst (File.cleanup P d g))).
Proof.
  intros Hg. unfold File.cleanup.
  pose proof (R_closed g Hg) as H.
  destruct (rmSync_recursive P d _); [exact H|].
  destruct (fs.existsSync d _); [|exact H].
  destruct (fs.writeFileSync _ _ _); simpl; now apply R_allConfig.
Qed.

Lemma inv_composeFile d g : R g -> R (fst (fst (File.composeFile d g))).
Proof.
  intros Hg. unfold File.composeFile.
  destruct (File.parts g) as [|[i [file0 r]] rest]; simpl; [exact Hg|].
  now apply R_log.
Qed.

Lemma inv_observer prev outer d g :
  allowed File.ev_finish -> (forall s, allowed (File.ev_speed s)) ->
  R g -> R (fst (File.observer P prev outer d g)).
Proof.
  intros Hfin Hsp Hg. unfold File.observer.
  destruct (Nat.eqb (length (File.unfinished g)) 0 && negb (File.stoped g)).
  - match goal with |- context [File.composeFile ?d ?h] =>
      assert (H : R (fst (fst (File.composeFile d h))))
    end.
    { apply inv_composeFile, R_log, inv_emit; [exact Hfin|].
      now apply R_log, R_inter. }
    match goal with |- context [File.composeFile ?d ?h] =>
      destruct (File.composeFile d h) as [[h' d'] o]
    end.
    simpl in *. now apply R_observer.
  - simpl. apply R_observer.
    destruct (bool_decide _); [exact Hg|]. now apply inv_emit.
Qed.

(** Once [stop] has been called the observer only polls. *)
Lemma inv_observer_stopped prev outer d g :
  File.stoped g = true ->
  (forall s, allowed (File.ev_speed s)) ->
  R g -> R (fst (File.observer P prev outer d g)).
Proof.
  intros Hst Hsp Hg. unfold File.observer. rewrite Hst, andb_false_r.
  simpl. apply R_observer.
  destruct (bool_decide _); [exact Hg|]. now apply inv_emit.
Qed.

Lemma inv_compose_closed d g : R g -> R (fst (File.compose_closed P d g)).
Proof.
  intros Hg. unfold File.compose_closed.
  destruct (File.observer_at g); try exact Hg.
  match goal with |- context [File.cleanup ?P ?d ?h] =>
    assert (H : R (fst (fst (File.cleanup P d h))))
      by (apply inv_cleanup; now do 2 apply R_log);
    destruct (File.cleanup P d h) as [[h' d'] cleaned]
  end.
  simpl in H. destruct cleaned; simpl.
  - apply R_observer. destruct outer; [now apply R_started|exact H].
  - now apply R_observer.
Qed.

Lemma inv_observer_wake d g :
  allowed File.ev_finish -> (forall s, allowed (File.ev_speed s)) ->
  R g -> R (fst (File.observer_wake P d g)).
Proof.
  intros Hfin Hsp Hg. unfold File.observer_wake.
  destruct (File.observer_at g); try exact Hg. now apply inv_observer.
Qed.

Lemma inv_sample g :
  (forall s p t, (p >? JS.of_Z 100)%js = false -> allowed (File.ev_progress s p t)) ->
  R g -> R (File.sample P g).
Proof.
  intros Ha Hg. unfold File.sample.
  destruct (negb (File.inter g)); [exact Hg|].
  destruct (Nat.eqb (length (File.connections g)) 0).
  - destruct (File.waitingLog g); [exact Hg|].
    apply R_waitingLog, R_on; [discriminate|exact Hg].
  - destruct (negb (Nat.eqb (length (File.unfinished g)) 0)); [|exact Hg].
    apply R_emitted; [|exact Hg]. apply Ha.
    destruct (File.sampled_progress g >? JS.of_Z 100)%js eqn:E; [reflexivity|exact E].
Qed.

Lemma inv_spawn part g d : R g -> R (fst (File.spawn P part (g, d))).
Proof.
  intros Hg. unfold File.spawn. destruct part as [i [file range]].
  match goal with |- context [Connection.start ?P ?d ?c] =>
    destruct (Connection.start P d c) as [[[c' d'] es] req]
  end.
  simpl.
  assert (H : forall h, R h ->
                R match req with
                  | Some r => File.with_issued (File.issued h ++ [(length (File.workers g), r)]) h
                  | None => h
                  end).
  { intros h Hh. destruct req; [now apply R_issued|exact Hh]. }
  apply H. apply inv_hear_all. apply R_workers.
  match goal with
  | |- R (File.with_connections (?cs ++ [?cid]) ?h) =>
      apply (R_spawned cid h)
  end.
  now apply R_workers.
Qed.

Lemma inv_spawn_all parts st :
  R (fst st) -> R (fst (fold_left (fun st part => File.spawn P part st) parts st)).
Proof.
  revert st. induction parts as [|p parts IH]; intros [g d] Hg; simpl.
  - exact Hg.
  - apply IH. now apply inv_spawn.
Qed.

Lemma inv_start d g :
  allowed File.ev_start -> allowed File.ev_finish ->
  (forall s, allowed (File.ev_speed s)) ->
  R g -> R (fst (File.start P d g)).
Proof.
  intros Hst Hfin Hsp Hg. unfold File.start.
  match goal with |- context [File.with_inter true ?h] =>
    assert (H : R (File.with_inter true h))
      by (apply R_inter, inv_emit; [exact Hst | now apply R_log]);
    generalize dependent (File.with_inter true h)
  end.
  intros h Hh.
  destruct (fs.isDirectory d (File.path h)) as [[|]|]; try exact Hh.
  destruct (negb (URLUtils.validate P (File.url h))); cbn [fst].
  - now apply inv_logs.
  - pose proof (inv_spawn_all (File.parts h) (h, d) Hh) as Hs.
    destruct (fold_left _ (File.parts h) (h, d)) as [h' d'].
    now apply inv_observer.
Qed.

Lemma inv_revalidated g : R g -> R (File.revalidated P g).
Proof.
  intros Hg. unfold File.revalidated.
  destruct (File.revalidating g); [|exact Hg].
  destruct (URLUtils.getData P _).
  - apply inv_logs. now apply R_revalidating.
  - now apply R_revalidating.
Qed.

Lemma inv_worker_step cid e g : R g -> R (Run.worker_step P cid e g).
Proof.
  intros Hg. unfold Run.worker_step.
  destruct e;
    match goal with |- context [if ?c then _ else _] => destruct c end;
    try exact Hg; try now apply inv_run_worker.
  unfold Run.responded. destruct (File.workers g !! cid); [|exact Hg].
  now apply R_registered, R_workers.
Qed.

(** An invariant of stopped downloads is maintained without any
    [finish] event. *)
Section Stopped.
Hypothesis R_is_stopped : forall g, R g -> File.stoped g = true.

Lemma inv_observer_wake_stopped d g :
  (forall s, allowed (File.ev_speed s)) ->
  R g -> R (fst (File.observer_wake P d g)).
Proof.
  intros Hsp Hg. unfold File.observer_wake.
  destruct (File.observer_at g); try exact Hg.
  apply inv_observer_stopped; auto.
Qed.

Lemma inv_start_stopped d g :
  allowed File.ev_start -> (forall s, allowed (File.ev_speed s)) ->
  R g -> R (fst (File.start P d g)).
Proof.
  intros Hst Hsp Hg. unfold File.start.
  match goal with |- context [File.with_inter true ?h] =>
    assert (H : R (File.with_inter true h))
      by (apply R_inter, inv_emit; [exact Hst | now apply R_log]);
    generalize dependent (File.with_inter true h)
  end.
  intros h Hh.
  destruct (fs.isDirectory d (File.path h)) as [[|]|]; try exact Hh.
  destruct (negb (URLUtils.validate P (File.url h))); cbn [fst].
  - now apply inv_logs.
  - pose proof (inv_spawn_all (File.parts h) (h, d) Hh) as Hs.
    destruct (fold_left _ (File.parts h) (h, d)) as [h' d'].
    apply inv_observer_stopped; auto.
Qed.

Lemma inv_step_stopped g d e :
  allowed File.ev_start -> allowed File.ev_stop ->
  (forall s, allowed (File.ev_speed s)) ->
  (forall s p t, allowed (File.ev_progress s p t)) ->
  R g -> R (fst (Run.step P (g, d) e)).
Proof.
  intros Hst Hsp Hspeed Hprog Hg. destruct e; simpl.
  - now apply inv_start_stopped.
  - now apply inv_stop.
  - destruct (File.setSpeed P speed g) as [g'|] eqn:Hset; [|exact Hg].
    now apply (inv_setSpeed speed g g').
  - apply inv_sample; auto.
  - now apply inv_observer_wake_stopped.
  - now apply inv_stop_timer.
  - now apply inv_write_callback.
  - now apply inv_compose_closed.
  - now apply inv_revalidated.
  - now apply inv_worker_step.
Qed.

Lemma inv_run_stopped es g d :
  allowed File.ev_start -> allowed File.ev_stop ->
  (forall s, allowed (File.ev_speed s)) ->
  (forall s p t, allowed (File.ev_progress s p t)) ->
  R g -> R (fst (Run.run P (g, d) es)).
Proof.
  intros Hst Hsp Hspeed Hprog. unfold Run.run.
  revert g d. induction es as [|e es IH]; intros g d Hg; cbn [fold_left].
  - exact Hg.
  - pose proof (inv_step_stopped g d e Hst Hsp Hspeed Hprog Hg) as Hstep.
    destruct (Run.step P (g, d) e) as [g' d']. now apply IH.
Qed.
End Stopped.

(** An invariant of downloads that have a part is maintained although
    the observer cannot be waiting for the destination to close. *)
Section WithParts.
Hypothesis R_has_parts : forall g, R g -> File.parts g <> [].
Hypothesis R_waiting : forall n g, R g -> R (File.with_observer (File.Waiting n) g).
Hypothesis R_joining : forall g, R g -> R (File.with_observer File.Joining g).



End WithParts.

(** Hence by every event. *)
Lemma inv_step g d e :
  allowed File.ev_start -> allowed File.ev_stop -> allowed File.ev_finish ->
  (forall s, allowed (File.ev_speed s)) ->
  (forall s p t, (p >? JS.of_Z 100)%js = false -> allowed (File.ev_progress s p t)) ->
  R g -> R (fst (Run.step P (g, d) e)).
Proof.
  intros Hst Hsp Hfin Hspeed Hprog Hg. destruct e; simpl.
  - now apply inv_start.
  - now apply inv_stop.
  - destruct (File.setSpeed P speed g) as [g'|] eqn:Hset; [|exact Hg].
    now apply (inv_setSpeed speed g g').
  - now apply inv_sample.
  - now apply inv_observer_wake.
  - now apply inv_stop_timer.
  - now apply inv_write_callback.
  - now apply inv_compose_closed.
  - now apply inv_revalidated.
  - now apply inv_worker_step.
Qed.

Lemma inv_run es g d :
  allowed File.ev_start -> allowed File.ev_stop -> allowed File.ev_finish ->
  (forall s, allowed (File.ev_speed s)) ->
  (forall s p t, (p >? JS.of_Z 100)%js = false -> allowed (File.ev_progress s p t)) ->
  R g -> R (fst (Run.run P (g, d) es)).
Proof.
  intros Hst Hsp Hfin Hspeed Hprog. unfold Run.run.
  revert g d. induction es as [|e es IH]; intros g d Hg; cbn [fold_left].
  - exact Hg.
  - pose proof (inv_step g d e Hst Hsp Hfin Hspeed Hprog Hg) as Hstep.
    destruct (Run.step P (g, d) e) as [g' d']. now apply IH.
Qed.
End Invariant.

(** Arguments of the lemmas above for an invariant that no update of the
    download breaks. *)
Ltac closed_under_updates := intros; cbn in *; intuition (auto; congruence).

(** A scenario that returns, with its result. *)
Ltac returned c f d E :=
  let Hr := fresh "Hr" in
  assert (Hr : returns c = true) by (vm_compute; reflexivity);
  destruct c as [[f d]|?] eqn:E; [clear Hr | discriminate Hr].

(** What is known of the result of a scenario by evaluation. *)
Ltac observed c E view result :=
  let H := fresh "Hobs" in
  assert (H : view <$> Cases.value_of c = Some result)
    by (vm_compute; reflexivity);
  rewrite E in H; cbn [Cases.value_of fmap option_fmap option_map fst snd] in H;
  injection H; clear H.

(** A download as its constructor leaves it. *)
Lemma create_fresh P d o f d' :
  File.create P d o = Ok (f, d') ->
  settings f =
    (FileOptions.url o, FileOptions.path o, FileOptions.name o, FileOptions.size o,
     FileOptions.parts o, FileOptions.destination o, FileOptions.contentType o) /\
  File.allConfig f = o /\
  File.workers f = [] /\ File.connections f = [] /\ File.registered f = [] /\
  File.trace f = [] /\ File.issued f = [] /\ File.stop_calls f = [] /\
  File.started f = File.Pending /\ File.observer_at f = File.NotObserving /\
  File.stoped f = false /\ File.inter f = false /\
  Writer.registered (File.logStream f) = [] /\
  balanced (File.logStream f).
Proof.
  unfold File.create, throw.
  repeat (match goal with |- context [if ?c then _ else _] => destruct c end;
          try discriminate).
  all: unfold bind;
    repeat (match goal with
            | |- context [match ?c with _ => _ end] => destruct c eqn:?
            end; try discriminate).
  all: intros [= <- <-]; repeat split; reflexivity.
Qed.

(** ** The settings of a download *)

(** X1: no method of the coordinator and no callback assigns [url],
    [path], [name], [size], [parts], [destination] or [contentType]:
    whatever happens to a download, they are what they were. *)
Theorem settings_never_change (P : Platform) (es : list Run.event) (f : File.t) (d : FS) :
  settings (fst (Run.run P (f, d) es)) = settings f.
Proof.
  apply (inv_run P (fun g => settings g = settings f) (fun _ => True));
    closed_under_updates.
Qed.

(** ** Reported progress *)

Lemma within_100_snoc tr e :
  forallb within_100 tr = true -> within_100 e = true ->
  forallb within_100 (tr ++ [e]) = true.
Proof. intros Htr He. rewrite forallb_app, Htr. simpl. now rewrite He. Qed.

(** X2: the percentage of a [progress] event is never above 100,
    whatever the workers report: in every execution of a download from
    its construction on, each [progress] event emitted carries a value
    [p] for which [p > 100] is false. *)
Theorem progress_events_within_100
    (P : Platform) (d0 d : FS) (o : FileOptions.t) (f : File.t) (es : list Run.event) :
  File.create P d0 o = Ok (f, d) ->
  forallb within_100 (File.trace (fst (Run.run P (f, d) es))) = true.
Proof.
  intros Hc. apply create_fresh in Hc as (_ & _ & _ & _ & _ & Htr & _).
  apply (inv_run P (fun g => forallb within_100 (File.trace g) = true)
           (fun e => within_100 e = true));
    try (closed_under_updates; fail).
  - intros e g He Hg. cbn. now apply within_100_snoc.
  - intros s p t Hp. cbv beta. unfold within_100. now rewrite Hp.
  - now rewrite Htr.
Qed.

Lemma progress_events_within_100_witness :
  exists f d,
    Cases.created = Ok (f, d) /\
    forallb within_100 (File.trace (fst (Run.run Cases.P (f, d) Scenario.overshoot)))
    = true.
Proof.
  returned Cases.created f d E. exists f, d. split; [reflexivity|].
  exact (progress_events_within_100 Cases.P Cases.disk d Scenario.plan f
           Scenario.overshoot E).
Defined.


(** ** After [stop] *)

Lemma finishes_snoc tr e f :
  is_finish e = false ->
  finishes (File.with_trace (tr ++ [e]) f) = length (List.filter is_finish tr).
Proof.
  intros He. unfold finishes, File.with_trace. cbn [File.trace].
  rewrite List.filter_app, length_app. cbn [List.filter]. rewrite He. simpl. lia.
Qed.

(** X3: [stop] is final.  Once [stop] has been called, [stoped] stays
    set and no [finish] event is emitted any more, whatever happens next:
    the observer only polls. *)
Theorem no_finish_after_stop (P : Platform) (f : File.t) (d : FS) (es : list Run.event) :
  let g := fst (Run.run P (f, d) (Run.Stop :: es)) in
  File.stoped g = true /\ finishes g = finishes f.
Proof.
  cbn zeta. unfold Run.run. cbn [fold_left Run.step].
  fold (Run.run P (File.stop P f, d) es).
  apply (inv_run_stopped P
           (fun g => File.stoped g = true /\ finishes g = finishes f)
           (fun e => is_finish e = false));
    try (closed_under_updates; fail).
  - intros e g He [Hs Hf]. split; [exact Hs|].
    rewrite finishes_snoc by exact He. exact Hf.
  - unfold File.stop.
    apply (inv_emit P (fun g => File.stoped g = true /\ finishes g = finishes f)
             (fun e => is_finish e = false));
      try (closed_under_updates; fail).
    + intros e g He [Hs Hf]. split; [exact Hs|].
      rewrite finishes_snoc by exact He. exact Hf.
Qed.

(** ** The promise of [start] *)

Section StartPending.
Variable P : Platform.









End StartPending.




(** ** The promise of [stop] *)

Lemma balanced_log m f :
  balanced (File.logStream f) -> balanced (File.logStream (File.log m f)).
Proof.
  unfold balanced. cbn. intros ->. rewrite length_app. cbn. lia.
Qed.

(** [stop] only adds to the queue of the log: the counter and the queue
    still agree after it. *)
Lemma balanced_stop P f :
  balanced (File.logStream f) -> balanced (File.logStream (File.stop P f)).
Proof.
  intros Hb. unfold File.stop.
  apply (inv_emit P (fun g => balanced (File.logStream g)) (fun _ => True));
    try (closed_under_updates; fail).
  intros m g. apply balanced_log.
Qed.

Lemma stop_calls_stop P f :
  File.stop_calls (File.stop P f)
  = File.stop_calls f ++ [File.mkStop File.Pending true].
Proof.
  unfold File.stop.
  apply (inv_emit P
           (fun g => File.stop_calls g
                     = File.stop_calls f ++ [File.mkStop File.Pending true])
           (fun _ => True));
    closed_under_updates.
Qed.

Section StopResolves.
Variable P : Platform.
Variable k : nat.

(** The timer of the [k]-th call of [stop] has not fired, and its
    promise is pending or resolved with [true]. *)
Let armed (f : File.t) : Prop :=
  exists s, File.stop_calls f !! k = Some s /\ File.timer_armed s = true /\
            File.resolve true (File.outcome s) = File.Resolved true.

Lemma armed_resolve_stop k' f : armed f -> armed (File.resolve_stop k' f).
Proof.
  intros (s & Hs & Ht & Ho). unfold File.resolve_stop.
  destruct (File.stop_calls f !! k') as [s'|] eqn:Hk'; [|now exists s].
  cbn. destruct (decide (k' = k)) as [->|Hne].
  - rewrite Hs in Hk'. injection Hk' as <-.
    eexists. cbn [File.stop_calls File.with_stop_calls].
    rewrite list_lookup_insert_eq by now apply lookup_lt_Some in Hs.
    split; [reflexivity|]. cbn. split; [exact Ht|]. now rewrite Ho.
  - exists s. cbn [File.stop_calls File.with_stop_calls].
    now rewrite list_lookup_insert_ne.
Qed.

Lemma armed_run_log_listener l f :
  armed f ->
  armed (File.run_log_listener l f) /\
  File.logStream (File.run_log_listener l f) = File.logStream f.
Proof.
  intros Hf. destruct l; cbn.
  - destruct (Writer.pendingWrites (File.logStream f) =? 0).
    + split; [now apply armed_resolve_stop|].
      unfold File.resolve_stop. now destruct (File.stop_calls f !! k0).
    + now split.
  - now split.
Qed.

Lemma armed_listeners ls f :
  armed f ->
  armed (fold_left (fun f l => File.run_log_listener l f) ls f) /\
  File.logStream (fold_left (fun f l => File.run_log_listener l f) ls f)
  = File.logStream f.
Proof.
  revert f. induction ls as [|l ls IH]; intros f Hf; cbn [fold_left].
  - now split.
  - destruct (armed_run_log_listener l f Hf) as [Ha Hl].
    destruct (IH _ Ha) as [Ha' Hl']. split; [exact Ha'|]. now rewrite Hl', Hl.
Qed.

Lemma armed_write_callback f :
  armed f ->
  armed (File.write_callback f) /\
  File.logStream (File.write_callback f)
  = fst (Writer.write_callback (File.logStream f)).
Proof.
  intros Hf. unfold File.write_callback.
  destruct (Writer.write_callback (File.logStream f)) as [w ls].
  apply (armed_listeners ls (File.with_logStream w f)). exact Hf.
Qed.

(** The callbacks of all queued writes bring the counter to 0. *)
Lemma drained n f d :
  length (Writer.inflight (File.logStream f)) = n ->
  balanced (File.logStream f) ->
  armed f ->
  armed (fst (Run.run P (f, d) (drain n))) /\
  Writer.pendingWrites (File.logStream (fst (Run.run P (f, d) (drain n)))) = 0.
Proof.
  unfold Run.run. revert f. induction n as [|n IH]; intros f Hn Hb Hf.
  - cbn. split; [exact Hf|]. unfold balanced in Hb. rewrite Hb, Hn. reflexivity.
  - cbn [drain repeat fold_left Run.step].
    destruct (armed_write_callback f Hf) as [Ha Hl].
    apply IH; [| |exact Ha]; rewrite Hl; unfold Writer.write_callback;
      unfold balanced in *;
      destruct (Writer.inflight (File.logStream f)) as [|data rest];
      try discriminate; cbn in *; lia.
Qed.

Lemma timer_resolves f :
  armed f -> Writer.pendingWrites (File.logStream f) = 0 ->
  File.outcome <$> File.stop_calls (File.stop_timer k f) !! k
  = Some (File.Resolved true).
Proof.
  intros (s & Hs & Ht & Ho) Hp. unfold File.stop_timer. rewrite Hs, Ht.
  cbn [File.logStream File.with_stop_calls]. rewrite Hp. cbn [Z.eqb].
  unfold File.resolve_stop. cbn [File.stop_calls File.with_stop_calls].
  pose proof (lookup_lt_Some _ _ _ Hs) as Hlt.
  rewrite list_lookup_insert_eq by exact Hlt.
  cbn [File.stop_calls File.with_stop_calls File.outcome File.timer_armed].
  rewrite list_lookup_insert_eq by now rewrite length_insert.
  cbn. now rewrite Ho.
Qed.
End StopResolves.

(** X5: [stop] resolves when the log is drained in time.  If the
    counter of the log writer agrees with its queue when [stop] is
    called, and the callbacks of all queued writes (the lines that the
    stopped workers log included) run before the 1000 ms timer, then
    the timer resolves the promise of that call with [true]. *)
Theorem stop_resolves_once_drained (P : Platform) (f : File.t) (d : FS) :
  balanced (File.logStream f) ->
  let k := length (File.stop_calls f) in
  let n := length (Writer.inflight (File.logStream (File.stop P f))) in
  File.outcome <$>
    File.stop_calls
      (fst (Run.run P (f, d) (Run.Stop :: drain n ++ [Run.StopTimer k]))) !! k
  = Some (File.Resolved true).
Proof.
  intros Hb k n. unfold Run.run. cbn [fold_left Run.step].
  rewrite fold_left_app.
  fold (Run.run P (File.stop P f, d) (drain n)).
  assert (Ha : exists s, File.stop_calls (File.stop P f) !! k = Some s /\
                         File.timer_armed s = true /\
                         File.resolve true (File.outcome s) = File.Resolved true).
  { exists (File.mkStop File.Pending true). rewrite stop_calls_stop.
    subst k. rewrite lookup_app_r by lia. rewrite Nat.sub_diag.
    now repeat split. }
  destruct (drained P k n (File.stop P f) d eq_refl (balanced_stop P f Hb) Ha)
    as [Harmed Hzero].
  destruct (Run.run P (File.stop P f, d) (drain n)) as [g d'].
  cbn [fold_left Run.step fst] in *.
  now apply timer_resolves.
Qed.

Lemma stop_resolves_once_drained_witness :
  exists f d,
    Cases.created = Ok (f, d) /\
    balanced (File.logStream f) /\
    File.outcome <$>
      File.stop_calls
        (fst (Run.run Cases.P (f, d)
                (Run.Stop ::
                 drain (length (Writer.inflight (File.logStream (File.stop Cases.P f))))
                 ++ [Run.StopTimer (length (File.stop_calls f))])))
      !! length (File.stop_calls f)
    = Some (File.Resolved true).
Proof.
  returned Cases.created f d E. exists f, d. split; [reflexivity|].
  pose proof (create_fresh _ _ _ _ _ E) as Hfresh.
  assert (Hb : balanced (File.logStream f)) by (repeat apply proj2 in Hfresh; exact Hfresh).
  split; [exact Hb|].
  exact (stop_resolves_once_drained Cases.P f d Hb).
Defined.


(** ** What [stop] reaches *)

Lemma workers_hear_all cid es g :
  File.workers (File.hear_all cid es g) = File.workers g.
Proof.
  apply (inv_hear_all (fun h => File.workers h = File.workers g));
    closed_under_updates.
Qed.

Lemma workers_run_worker cid callback g c :
  File.workers g !! cid = Some c ->
  File.workers (File.run_worker cid callback g)
  = <[cid := fst (callback c)]> (File.workers g).
Proof.
  intros Hc. unfold File.run_worker. rewrite Hc.
  destruct (callback c) as [c' es]. now rewrite workers_hear_all.
Qed.

Lemma workers_run_worker_missing cid callback g :
  File.workers g !! cid = None -> File.run_worker cid callback g = g.
Proof. intros Hc. unfold File.run_worker. now rewrite Hc. Qed.

(** A listener changes the worker that owns it and no other. *)
Lemma deliver_other P v l g cid :
  owner l <> cid ->
  File.workers (File.deliver P v l g) !! cid = File.workers g !! cid.
Proof.
  intros Hne.
  assert (H : forall callback,
             File.workers (File.run_worker (owner l) callback g) !! cid
             = File.workers g !! cid).
  { intros callback. destruct (File.workers g !! owner l) as [c|] eqn:Hc.
    - rewrite (workers_run_worker _ _ _ c Hc). now rewrite list_lookup_insert_ne.
    - now rewrite workers_run_worker_missing. }
  destruct l; apply H.
Qed.

Lemma deliver_all_other P v ls g cid :
  Forall (fun l => owner l <> cid) ls ->
  File.workers (fold_left (fun g l => File.deliver P v l g) ls g) !! cid
  = File.workers g !! cid.
Proof.
  intros Hls. revert g. induction Hls as [|l ls Hl _ IH]; intros g; cbn [fold_left].
  - reflexivity.
  - now rewrite IH, deliver_other.
Qed.

Lemma workers_emit_other P event e v g cid :
  Forall (fun r => owner (snd r) <> cid) (File.registered g) ->
  File.workers (File.emit P event e v g) !! cid = File.workers g !! cid.
Proof.
  intros Hreg. unfold File.emit. rewrite deliver_all_other; [reflexivity|].
  apply Forall_forall. intros l Hl.
  apply list_elem_of_fmap in Hl as ([ev l'] & -> & Hin).
  apply list_elem_of_filter in Hin as [_ Hin].
  rewrite Forall_forall in Hreg. apply (Hreg _ Hin).
Qed.

(** X6: [stop] does not reach a worker whose request is still awaiting
    its response.  Such a worker has not subscribed to [stop] yet
    (it subscribes after [await axios(...)]), so [stop] leaves it as it
    is, and when the response arrives it starts piping, neither stopped
    nor aborted. *)
Theorem stop_misses_pending_workers
    (P : Platform) (f : File.t) (d : FS) (cid : nat) (c : Connection.t) :
  File.workers f !! cid = Some c ->
  Connection.at_pc c = Connection.AwaitingResponse ->
  Forall (fun r => owner (snd r) <> cid) (File.registered f) ->
  File.workers (File.stop P f) !! cid = Some c /\
  exists c',
    File.workers
      (fst (Run.run P (f, d) [Run.Stop; Run.Worker cid Run.Responded])) !! cid
    = Some c' /\
    Connection.at_pc c' = Connection.Piping /\
    Connection.stopped c' = Connection.stopped c /\
    Connection.aborted c' = Connection.aborted c /\
    Connection.st_closed c' = Connection.st_closed c.
Proof.
  intros Hc Hpc Hreg.
  assert (Hstop : File.workers (File.stop P f) !! cid = Some c).
  { unfold File.stop. now rewrite workers_emit_other. }
  split; [exact Hstop|].
  unfold Run.run. cbn [fold_left Run.step fst Run.worker_step].
  unfold Run.at_pc_is. rewrite Hstop, Hpc.
  unfold Run.responded. rewrite Hstop.
  eexists. cbn [File.workers File.with_registered File.with_workers].
  rewrite list_lookup_insert_eq by now apply lookup_lt_Some in Hstop.
  repeat split; reflexivity.
Qed.

Lemma stop_misses_pending_workers_witness :
  exists f d c,
    Cases.started = Ok (f, d) /\
    File.workers f !! 0%nat = Some c /\
    Connection.at_pc c = Connection.AwaitingResponse /\
    Forall (fun r => owner (snd r) <> 0%nat) (File.registered f) /\
    File.workers (File.stop Cases.P f) !! 0%nat = Some c /\
    exists c',
      File.workers
        (fst (Run.run Cases.P (f, d) [Run.Stop; Run.Worker 0 Run.Responded])) !! 0%nat
      = Some c' /\
      Connection.at_pc c' = Connection.Piping /\
      Connection.stopped c' = Connection.stopped c /\
      Connection.aborted c' = Connection.aborted c /\
      Connection.st_closed c' = Connection.st_closed c.
Proof.
  returned Cases.started f d E.
  observed Cases.started E
    (fun st : File.t * FS =>
       (Connection.at_pc <$> File.workers (fst st) !! 0%nat,
        File.registered (fst st)))
    (Some Connection.AwaitingResponse, @nil (string * File.listener)).
  intros Hreg Hpc.
  destruct (File.workers f !! 0%nat) as [c|] eqn:Hc; [|discriminate Hpc].
  injection Hpc as Hpc.
  assert (Hnone : Forall (fun r => owner (snd r) <> 0%nat) (File.registered f))
    by (rewrite Hreg; constructor).
  exists f, d, c. split; [reflexivity|]. split; [exact Hc|].
  split; [exact Hpc|]. split; [exact Hnone|].
  exact (stop_misses_pending_workers Cases.P f d 0 c Hc Hpc Hnone).
Defined.


(** A worker that has finished or has been stopped. *)
Lemma on_stop_halts c :
  let c' := fst (Connection.on_stop c) in
  Connection.finished c' || Connection.stopped c' = true.
Proof.
  unfold Connection.on_stop.
  destruct (Connection.stopped c) eqn:Hs, (Connection.finished c) eqn:Hf;
    cbn; rewrite ?Hs, ?Hf; reflexivity.
Qed.

Lemma on_speed_keeps P v c :
  let c' := fst (Connection.on_speed P v c) in
  Connection.finished c' = Connection.finished c /\
  Connection.stopped c' = Connection.stopped c.
Proof.
  unfold Connection.on_speed. destruct (Connection.finished c) eqn:Hf; cbn; auto.
Qed.

Section Halted.
Variable P : Platform.
Variable cid : nat.

Let halted (g : File.t) : Prop :=
  exists c, File.workers g !! cid = Some c /\
            Connection.finished c || Connection.stopped c = true.

Lemma halted_deliver v l g : halted g -> halted (File.deliver P v l g).
Proof.
  intros (c & Hc & Hh).
  destruct (decide (owner l = cid)) as [Heq|Hne].
  - unfold halted.
    destruct l as [cid'|cid']; cbn in Heq; subst cid'; cbn [File.deliver].
    + rewrite (workers_run_worker _ _ _ c Hc).
      eexists. rewrite list_lookup_insert_eq by now apply lookup_lt_Some in Hc.
      split; [reflexivity|].
      destruct (on_speed_keeps P v c) as [-> ->]. exact Hh.
    + rewrite (workers_run_worker _ _ _ c Hc).
      eexists. rewrite list_lookup_insert_eq by now apply lookup_lt_Some in Hc.
      split; [reflexivity|]. apply on_stop_halts.
  - exists c. now rewrite deliver_other.
Qed.

Lemma present_deliver v l g :
  is_Some (File.workers g !! cid) -> is_Some (File.workers (File.deliver P v l g) !! cid).
Proof.
  intros [c Hc].
  destruct (decide (owner l = cid)) as [Heq|Hne].
  - destruct l as [cid'|cid']; cbn in Heq; subst cid'; cbn [File.deliver];
      rewrite (workers_run_worker _ _ _ c Hc);
      eexists; now rewrite list_lookup_insert_eq by now apply lookup_lt_Some in Hc.
  - exists c. now rewrite deliver_other.
Qed.

Lemma halted_on_stop v g :
  is_Some (File.workers g !! cid) -> halted (File.deliver P v (File.on_stop cid) g).
Proof.
  intros [c Hc]. unfold halted. cbn [File.deliver].
  rewrite (workers_run_worker _ _ _ c Hc).
  eexists. rewrite list_lookup_insert_eq by now apply lookup_lt_Some in Hc.
  split; [reflexivity|]. apply on_stop_halts.
Qed.

Lemma halted_deliver_all v ls g :
  halted g -> halted (fold_left (fun g l => File.deliver P v l g) ls g).
Proof.
  revert g. induction ls as [|l ls IH]; intros g Hg; cbn [fold_left].
  - exact Hg.
  - apply IH. now apply halted_deliver.
Qed.

Lemma halts_deliver_all v ls g :
  In (File.on_stop cid) ls -> is_Some (File.workers g !! cid) ->
  halted (fold_left (fun g l => File.deliver P v l g) ls g).
Proof.
  revert g. induction ls as [|l ls IH]; intros g Hin Hg; cbn [fold_left].
  - destruct Hin.
  - destruct Hin as [->|Hin].
    + apply halted_deliver_all. now apply halted_on_stop.
    + apply IH; [exact Hin|]. now apply present_deliver.
Qed.
End Halted.

(** X7: [stop] reaches every worker that has subscribed to it: after
    [stop], a worker whose [stop] listener is registered has finished or
    is stopped. *)
Theorem stop_halts_subscribed_workers
    (P : Platform) (f : File.t) (cid : nat) :
  In ("stop"%string, File.on_stop cid) (File.registered f) ->
  is_Some (File.workers f !! cid) ->
  exists c,
    File.workers (File.stop P f) !! cid = Some c /\
    Connection.finished c || Connection.stopped c = true.
Proof.
  intros Hin Hc. unfold File.stop, File.emit.
  apply halts_deliver_all.
  - apply list_elem_of_In. apply list_elem_of_fmap.
    exists ("stop"%string, File.on_stop cid). split; [reflexivity|].
    apply list_elem_of_filter. split; [reflexivity|].
    now apply list_elem_of_In.
  - exact Hc.
Qed.

Lemma stop_halts_subscribed_workers_witness :
  exists f d,
    Cases.piping = Ok (f, d) /\
    In ("stop"%string, File.on_stop 0) (File.registered f) /\
    is_Some (File.workers f !! 0%nat) /\
    exists c,
      File.workers (File.stop Cases.P f) !! 0%nat = Some c /\
      Connection.finished c || Connection.stopped c = true.
Proof.
  returned Cases.piping f d E.
  observed Cases.piping E
    (fun st : File.t * FS =>
       (Connection.at_pc <$> File.workers (fst st) !! 0%nat,
        File.registered (fst st)))
    (Some Connection.Piping,
     [("speed"%string, File.on_speed 0); ("stop"%string, File.on_stop 0);
      ("speed"%string, File.on_speed 1); ("stop"%string, File.on_stop 1)]).
  intros Hreg Hpc.
  assert (Hin : In ("stop"%string, File.on_stop 0) (File.registered f))
    by (rewrite Hreg; cbn; auto).
  assert (Hw : is_Some (File.workers f !! 0%nat))
    by (destruct (File.workers f !! 0%nat); [eauto|discriminate Hpc]).
  exists f, d. split; [reflexivity|]. split; [exact Hin|]. split; [exact Hw|].
  exact (stop_halts_subscribed_workers Cases.P f 0 Hin Hw).
Defined.


(** ** A download whose workers all failed *)

(** With no unfinished connection left in the array and no call of
    [stop], an invocation of the observer announces the end of the
    download: it emits [finish]. *)
Lemma observer_announces P prev outer d g :
  File.unfinished g = [] -> File.stoped g = false ->
  File.trace (fst (File.observer P prev outer d g)) = File.trace g ++ [File.ev_finish].
Proof.
  intros Hu Hs. unfold File.observer. rewrite Hu, Hs. cbn [length Nat.eqb negb andb].
  match goal with |- context [File.composeFile ?d ?h] =>
    assert (H : File.trace (fst (fst (File.composeFile d h)))
                = File.trace g ++ [File.ev_finish]);
    [|destruct (File.composeFile d h) as [[h' d'] o]; exact H]
  end.
  apply (inv_composeFile (fun h => File.trace h = File.trace g ++ [File.ev_finish]));
    try (closed_under_updates; fail).
  cbn [File.trace File.log File.with_logStream].
  unfold File.emit.
  apply (inv_deliver_all P (fun h => File.trace h = File.trace g ++ [File.ev_finish]));
    closed_under_updates.
Qed.

(** The failure of the request of a worker takes the worker out of the
    array of connections. *)
Lemma request_failed_leaves P cid m g c :
  File.workers g !! cid = Some c ->
  let g' := File.run_worker cid (Connection.request_failed P m) g in
  File.connections g' = filter (fun x => negb (Nat.eqb x cid)) (File.connections g) /\
  File.trace g' = File.trace g /\ File.stoped g' = File.stoped g /\
  File.observer_at g' = File.observer_at g.
Proof.
  intros Hc. cbn zeta. split.
  - unfold File.run_worker. rewrite Hc. unfold Connection.request_failed.
    unfold File.hear_all. rewrite fold_left_app. cbn [fold_left File.heard].
    cbn [File.connections File.with_connections File.log File.with_logStream].
    f_equal.
    match goal with |- File.connections (fold_left ?step ?es ?h) = _ =>
      change (File.connections (fold_left step es h) = File.connections h)
    end.
    unfold Connection.failure_logs.
    destruct (any_of _ m); reflexivity.
  - apply (inv_run_worker
             (fun h => File.trace h = File.trace g /\ File.stoped h = File.stoped g /\
                       File.observer_at h = File.observer_at g));
      closed_under_updates.
Qed.

(** X8: a download whose only connection fails is announced as
    finished.  The failure of the request destroys the worker, which
    takes it out of [connections]; the observer then finds no unfinished
    connection and, unless [stop] was called, emits [finish], although
    no byte was written. *)
Theorem failed_download_is_announced_finished
    (P : Platform) (f : File.t) (d : FS) (cid n : nat) (m : string) :
  File.connections f = [cid] ->
  Run.at_pc_is cid Connection.AwaitingResponse f = true ->
  File.stoped f = false ->
  File.observer_at f = File.Waiting n ->
  let g := fst (Run.run P (f, d)
                  [Run.Worker cid (Run.RequestFailed m); Run.ObserverWake]) in
  File.connections g = [] /\
  File.trace g = File.trace f ++ [File.ev_finish].
Proof.
  intros Hconn Hpc Hs Hobs. cbn zeta. unfold Run.run.
  cbn [fold_left Run.step Run.worker_step]. rewrite Hpc.
  assert (Hc : exists c, File.workers f !! cid = Some c).
  { unfold Run.at_pc_is in Hpc. destruct (File.workers f !! cid); [eauto|discriminate]. }
  destruct Hc as [c Hc].
  destruct (request_failed_leaves P cid m f c Hc) as (Hconn' & Htr' & Hs' & Hobs').
  set (f1 := File.run_worker cid (Connection.request_failed P m) f) in *.
  rewrite Hconn, filter_cons, filter_nil in Hconn'.
  case_decide as Hne; [now rewrite Nat.eqb_refl in Hne|].
  unfold File.observer_wake. rewrite Hobs', Hobs.
  assert (Hu : File.unfinished f1 = []) by (unfold File.unfinished; now rewrite Hconn').
  split.
  - apply (inv_observer P (fun h => File.connections h = []) (fun _ => True));
      try (closed_under_updates; fail).
    intros cid' g Hg. cbn. now rewrite Hg.
  - rewrite observer_announces by (assumption || congruence). now rewrite Htr'.
Qed.

Lemma failed_download_is_announced_finished_witness :
  exists f d,
    Cases.single_started = Ok (f, d) /\
    File.connections f = [0%nat] /\
    Run.at_pc_is 0 Connection.AwaitingResponse f = true /\
    File.stoped f = false /\
    File.observer_at f = File.Waiting 1 /\
    File.connections
      (fst (Run.run Cases.P (f, d)
              [Run.Worker 0 (Run.RequestFailed "ECONNRESET"); Run.ObserverWake])) = [] /\
    File.trace
      (fst (Run.run Cases.P (f, d)
              [Run.Worker 0 (Run.RequestFailed "ECONNRESET"); Run.ObserverWake]))
    = File.trace f ++ [File.ev_finish].
Proof.
  returned Cases.single_started f d E.
  observed Cases.single_started E
    (fun st : File.t * FS =>
       (File.connections (fst st),
        Run.at_pc_is 0 Connection.AwaitingResponse (fst st),
        File.stoped (fst st), File.observer_at (fst st)))
    ([0%nat], true, false, File.Waiting 1).
  intros Hobs Hs Hpc Hconn.
  exists f, d. split; [reflexivity|].
  split; [exact Hconn|]. split; [exact Hpc|]. split; [exact Hs|]. split; [exact Hobs|].
  exact (failed_download_is_announced_finished Cases.P f d 0 1 "ECONNRESET"
           Hconn Hpc Hs Hobs).
Defined.


(** ** The log writer *)

Lemma flush_succ {L} n (w : Writer.t L) :
  flush (S n) w = fst (Writer.write_callback (flush n w)).
Proof. reflexivity. Qed.

(** After [k] callbacks the queue has lost its [k] oldest writes and the
    counter has gone down by [k]. *)
Lemma flush_queue {L} (k : nat) (w : Writer.t L) :
  (k <= length (Writer.inflight w))%nat ->
  Writer.inflight (flush k w) = drop k (Writer.inflight w) /\
  Writer.pendingWrites (flush k w) = Writer.pendingWrites w - Z.of_nat k.
Proof.
  induction k as [|k IH]; intros Hk.
  - cbn. rewrite drop_0. split; [reflexivity|lia].
  - destruct IH as [Hq Hp]; [lia|]. rewrite flush_succ.
    unfold Writer.write_callback. rewrite Hq.
    destruct (drop k (Writer.inflight w)) as [|data rest] eqn:Hd.
    + apply (f_equal length) in Hd. rewrite length_drop in Hd. cbn in Hd. lia.
    + cbn. rewrite Hp. split; [|lia].
      replace (S k) with (k + 1)%nat by lia.
      rewrite <- drop_drop, Hd. reflexivity.
Qed.

(** X9: [pendingWrites] counts the writes whose callback has not run,
    until [stop]: [stop] sets the counter to 0 and leaves the queued
    writes to complete, so each completion after [stop] takes the counter
    further below 0. *)
Theorem writer_counter {L} (w : Writer.t L) (k : nat) :
  balanced w ->
  (k <= length (Writer.inflight w))%nat ->
  balanced (flush k w) /\
  Writer.pendingWrites (flush k w)
  = Z.of_nat (length (Writer.inflight w)) - Z.of_nat k /\
  Writer.pendingWrites (flush k (Writer.stop w)) = - Z.of_nat k.
Proof.
  intros Hb Hk. unfold balanced in *.
  destruct (flush_queue k w Hk) as [Hq Hp].
  destruct (flush_queue k (Writer.stop w) Hk) as [_ Hp'].
  rewrite Hq, Hp, Hb, length_drop. cbn in Hp'. repeat split; lia.
Qed.

Lemma writer_counter_witness :
  let w : Writer.t nat :=
    Writer.write "c" (Writer.write "b" (Writer.write "a" Writer.create)) in
  balanced w /\ (2 <= length (Writer.inflight w))%nat /\
  Writer.pendingWrites (flush 2 w) = 1 /\
  Writer.pendingWrites (flush 2 (Writer.stop w)) = -2.
Proof.
  cbv zeta.
  assert (Hb : balanced (Writer.write "c" (Writer.write "b"
                           (Writer.write "a" (@Writer.create nat)))))
    by reflexivity.
  assert (Hk : (2 <= length (Writer.inflight
                    (Writer.write "c" (Writer.write "b"
                       (Writer.write "a" (@Writer.create nat))))))%nat)
    by (cbn; lia).
  split; [exact Hb|]. split; [exact Hk|].
  exact (proj2 (writer_counter _ 2 Hb Hk)).
Defined.

(** ** Speed limits *)

Lemma div_by_no_connection z :
  0 < z -> (JS.of_Z z / JS.of_nat 0)%js = JS.PInf.
Proof.
  intros Hz. unfold JS.div, JS.of_nat, JS.of_Z. cbn [Z.of_nat].
  change (Qeq_bool (inject_Z 0) 0) with true. cbv iota.
  unfold Qcompare. cbn [Qnum Qden inject_Z]. rewrite Z.mul_1_r.
  change (0 * 1) with 0. now apply Z.compare_gt_iff in Hz as ->.
Qed.

(** X10: a speed set before any connection exists is announced as an
    infinite share.  [File.setSpeed] divides by [connections.length];
    with an empty array (before [start], or once every worker is
    destroyed) the [speed] event of a positive limit carries
    [Infinity]. *)
Theorem setSpeed_without_connections (P : Platform) (f : File.t) (z : Z) :
  File.connections f = [] ->
  0 < z ->
  exists f',
    File.setSpeed P (JS.of_Z z) f = Ok f' /\
    File.speed f' = JS.of_Z z /\
    last (File.trace f') = Some (File.ev_speed JS.PInf).
Proof.
  intros Hc Hz.
  destruct (File_setSpeed_share P (JS.of_Z z) f eq_refl) as (f' & Hset & Hspeed & Hlast).
  exists f'. rewrite Hc in Hlast. cbn [length] in Hlast.
  rewrite div_by_no_connection in Hlast by exact Hz. now repeat split.
Qed.

Lemma setSpeed_without_connections_witness :
  exists f d,
    Cases.created = Ok (f, d) /\
    File.connections f = [] /\
    exists f',
      File.setSpeed Cases.P (JS.of_Z 1000000) f = Ok f' /\
      File.speed f' = JS.of_Z 1000000 /\
      last (File.trace f') = Some (File.ev_speed JS.PInf).
Proof.
  assert (Hr : returns Cases.created = true) by (vm_compute; reflexivity).
  destruct Cases.created as [[f d]|e] eqn:E; [clear Hr|discriminate Hr].
  exists f, d. split; [reflexivity|].
  pose proof (create_fresh _ _ _ _ _ E) as (_ & _ & _ & Hc & _).
  split; [exact Hc|].
  exact (setSpeed_without_connections Cases.P f 1000000 Hc eq_refl).
Defined.

(** X11: what [Manager.setSpeed] rejects.  A limit for which
    [speed <= 0] holds is rejected with [InvalidArgumentError] and
    changes nothing.  [NaN] is not such a limit: the manager stores
    [NaN] as its limit; with no download the call returns, with a
    download it throws the error of [File.setSpeed] after the limit was
    stored. *)
Theorem Manager_setSpeed_validation (P : Platform) (M : Manager.t) :
  (forall mbps, (mbps <=? JS.of_Z 0)%js = true ->
     Manager.setSpeed P mbps M
     = (M, Some (Err (mkError InvalidArgumentError
                        "The speed limit must be a positive number.")))) /\
  Manager.speedLimit (fst (Manager.setSpeed P JS.NaN M)) = JS.NaN /\
  Manager.downloads (fst (Manager.setSpeed P JS.NaN M)) = Manager.downloads M /\
  snd (Manager.setSpeed P JS.NaN M)
  = match Manager.downloads M with
    | [] => None
    | _ :: _ => Some (Err (mkError InvalidArgumentError
                             "The speed must be a positive number."))
    end.
Proof.
  split.
  - intros mbps H. unfold Manager.setSpeed. now rewrite H.
  - unfold Manager.setSpeed. cbn [JS.leb JS.mul].
    destruct (Manager.downloads M) as [|f fs]; cbn; auto.
Qed.

(** X12: [Manager.setSpeed] with a positive limit never throws; it
    stores [speed * 125000] bytes per second as the limit of the manager
    and as the speed of every download, and keeps the downloads. *)
Theorem Manager_setSpeed_reaches_every_download
    (P : Platform) (mbps : JS.number) (M : Manager.t) :
  (mbps <=? JS.of_Z 0)%js = false ->
  JS.isNaN (mbps * JS.of_Z 125000)%js = false ->
  snd (Manager.setSpeed P mbps M) = None /\
  Manager.speedLimit (fst (Manager.setSpeed P mbps M)) = (mbps * JS.of_Z 125000)%js /\
  length (Manager.downloads (fst (Manager.setSpeed P mbps M)))
  = length (Manager.downloads M) /\
  Forall (fun f => File.speed f = (mbps * JS.of_Z 125000)%js)
    (Manager.downloads (fst (Manager.setSpeed P mbps M))).
Proof.
  intros Hpos Hnan.
  pose proof (Manager_setSpeed_propagates P mbps M Hpos Hnan) as H.
  destruct (Manager.setSpeed P mbps M) as [M' e]. exact H.
Qed.

Lemma Manager_setSpeed_reaches_every_download_witness :
  let M := fst (Scenario.after_download "1000" 2) in
  length (Manager.downloads M) = 1%nat /\
  snd (Manager.setSpeed Cases.P (JS.of_Z 8) M) = None /\
  Manager.speedLimit (fst (Manager.setSpeed Cases.P (JS.of_Z 8) M))
  = (JS.of_Z 8 * JS.of_Z 125000)%js /\
  length (Manager.downloads (fst (Manager.setSpeed Cases.P (JS.of_Z 8) M)))
  = length (Manager.downloads M) /\
  Forall (fun f => File.speed f = (JS.of_Z 8 * JS.of_Z 125000)%js)
    (Manager.downloads (fst (Manager.setSpeed Cases.P (JS.of_Z 8) M))).
Proof.
  cbv zeta. split; [vm_compute; reflexivity|].
  exact (Manager_setSpeed_reaches_every_download Cases.P (JS.of_Z 8)
           (fst (Scenario.after_download "1000" 2)) eq_refl eq_refl).
Defined.

(** ** The range worker and the disk *)

Lemma open_append_keeps d p q x :
  d !! q = Some x -> Connection.open_append d p !! q = Some x.
Proof.
  intros Hq. unfold Connection.open_append. unfold FS in *.
  destruct (d !! p) eqn:Hp; [exact Hq|].
  rewrite lookup_insert_ne; [exact Hq|]. intros ->. congruence.
Qed.

(** X13: [start] of a worker never removes, truncates or replaces what
    is on the disk: every file and directory is there after it as it
    was, a part file left by an earlier run included, and the one path
    that may be new is the part file of the worker. *)
Theorem start_keeps_the_disk (P : Platform) (d : FS) (c : Connection.t) :
  let d' := snd (fst (fst (Connection.start P d c))) in
  (forall p x, d !! p = Some x -> d' !! p = Some x) /\
  (forall p, p <> Connection.file c -> d' !! p = d !! p).
Proof.
  cbv zeta. unfold Connection.start.
  destruct (Connection.already_downloaded c (Connection.existing d c));
    cbn [fst snd]; split; auto.
  - intros p x. apply open_append_keeps.
  - intros p Hp. unfold Connection.open_append. unfold FS in *.
    destruct (d !! Connection.file c); [reflexivity|].
    now rewrite lookup_insert_ne.
Qed.

(** X14: a file smaller than the number of connections leaves all
    workers but the last idle.  For [1 <= size < N] every part below the
    last is planned as the empty range [[0, -1]], and the worker of an
    empty range finishes at once, whatever is on the disk: it issues no
    request and touches no file. *)
Theorem small_files_leave_workers_idle
    (P : Platform) (size : Z) (N : nat) (tempDir finalName : string) (i : nat)
    (d : FS) (url contentType : string) (speed : JS.number) :
  1 <= size < Z.of_nat N ->
  (i < N - 1)%nat ->
  exists file,
    Manager.plan P (JS.of_Z size) N tempDir finalName !! i
    = Some (i, (file, (JS.of_Z 0, JS.of_Z (-1)))) /\
    let c := Connection.create
               {| Connection.o_url := url;
                  Connection.o_part := (i, file, (JS.of_Z 0, JS.of_Z (-1)));
                  Connection.o_speed := speed;
                  Connection.o_contentType := contentType |} in
    Connection.finished (fst (fst (fst (Connection.start P d c)))) = true /\
    snd (Connection.start P d c) = None /\
    snd (fst (fst (Connection.start P d c))) = d.
Proof.
  intros Hsize Hi. eexists. split.
  - rewrite plan_lookup by lia.
    unfold PlanSpec.range_start, PlanSpec.range_end, PlanSpec.range_start,
      PlanSpec.slice.
    rewrite Z.div_small by lia.
    replace (Nat.eqb i (N - 1)) with false by (symmetry; apply Nat.eqb_neq; lia).
    rewrite Z.mul_0_r. reflexivity.
  - cbv zeta.
    match goal with |- context [Connection.start P d ?c] => set (w := c) end.
    destruct (existing_integer d w) as (n & Hn & He).
    assert (Hshort : Connection.already_downloaded w (Connection.existing d w) = true).
    { rewrite He, (already_downloaded_of_Z w 0 (-1)) by reflexivity.
      apply Z.leb_le. lia. }
    pose proof (start_short_circuits P d w Hshort) as H.
    destruct (Connection.start P d w) as [[[c' d'] es] req].
    cbn [fst snd]. tauto.
Qed.

Lemma small_files_leave_workers_idle_witness :
  1 <= 3 < Z.of_nat 4 /\ (1 < 4 - 1)%nat /\
  exists file,
    Manager.plan Cases.P (JS.of_Z 3) 4 "/tmp/Prometeo/big" "big.zip" !! 1%nat
    = Some (1%nat, (file, (JS.of_Z 0, JS.of_Z (-1)))) /\
    let c := Connection.create
               {| Connection.o_url := "http://example.com/files/big.zip";
                  Connection.o_part := (1%nat, file, (JS.of_Z 0, JS.of_Z (-1)));
                  Connection.o_speed := JS.of_Z 1250000;
                  Connection.o_contentType := "application/zip" |} in
    Connection.finished
      (fst (fst (fst (Connection.start Cases.P Cases.disk c)))) = true /\
    snd (Connection.start Cases.P Cases.disk c) = None /\
    snd (fst (fst (Connection.start Cases.P Cases.disk c))) = Cases.disk.
Proof.
  assert (H1 : 1 <= 3 < Z.of_nat 4) by (cbn; lia).
  assert (H2 : (1 < 4 - 1)%nat) by (cbn; lia).
  split; [exact H1|]. split; [exact H2|].
  exact (small_files_leave_workers_idle Cases.P 3 4 "/tmp/Prometeo/big" "big.zip" 1
           Cases.disk "http://example.com/files/big.zip" "application/zip"
           (JS.of_Z 1250000) H1 H2).
Defined.

(** ** The manifest on the disk *)

Lemma manifest_path_differs (p : string) : (p +:+ "/prometeo.config")%string <> p.
Proof.
  intros H. apply (f_equal String.length) in H.
  rewrite length_append in H. cbn in H. lia.
Qed.

Lemma path_logs ms f : File.path (File.logs ms f) = File.path f.
Proof.
  apply (inv_logs (fun g => File.path g = File.path f)); closed_under_updates.
Qed.

(** What the constructor wrote, [File.validate] reads, and the working
    directory is still there. *)
Lemma created_validates
    (P : Platform) (d d' : FS) (o : FileOptions.t) (f : File.t) :
  valid_plan o = true ->
  FileOptions.resumed o <> Some true ->
  d !! FileOptions.path o = Some Directory ->
  path_resolve P (FileOptions.path o) "./prometeo.config"
  = (FileOptions.path o +:+ "/prometeo.config")%string ->
  File.create P d o = Ok (f, d') ->
  File.validate P d' (FileOptions.path o) = Ok (Some (FileOptions.to_value o)) /\
  d' !! FileOptions.path o = Some Directory.
Proof.
  intros Hv Hres Hdir Hcfg Hc.
  assert (Hnot : negb (default false (FileOptions.resumed o)) = true).
  { destruct (FileOptions.resumed o) as [[|]|]; [congruence|reflexivity..]. }
  assert (Hex : fs.existsSync d (FileOptions.path o) = true)
    by (unfold fs.existsSync; unfold FS in *; now rewrite Hdir).
  revert Hc. unfold File.create, throw. rewrite Hex, Hnot.
  repeat (match goal with |- context [if ?c then _ else _] => destruct c end;
          try discriminate).
  cbn [bind]. rewrite path_logs. cbn [File.path]. rewrite Hcfg.
  unfold fs.writeFileSync.
  match goal with |- context [Connection.open_append d ?log] => set (d1 := Connection.open_append d log) end.
  assert (Hd1 : d1 !! FileOptions.path o = Some Directory)
    by (apply open_append_keeps; exact Hdir).
  unfold FS in *.
  destruct (d1 !! (FileOptions.path o +:+ "/prometeo.config")%string) as [[|content]|];
    try discriminate; cbn [bind]; intros [= _ <-].
  all: unfold File.validate, fs.isDirectory, fs.readFileSync; unfold FS in *.
  all: rewrite lookup_insert_ne by apply manifest_path_differs.
  all: rewrite Hd1; cbn [bind negb]; rewrite lookup_insert_eq.
  all: now rewrite (decode_encode_value P o (valid_plan_serializable o Hv)).
Qed.

(** X15: what the constructor wrote, [File.validate] reads.  For a
    valid plan that is not a resumed one, on a disk that has the working
    directory, and where [path.resolve(path, "./prometeo.config")] is
    [path + "/prometeo.config"], the download that [new File(plan)]
    leaves on the disk is read back by [File.validate(path)] as the
    plan. *)
Theorem constructed_download_validates
    (P : Platform) (d d' : FS) (o : FileOptions.t) (f : File.t) :
  valid_plan o = true ->
  FileOptions.resumed o <> Some true ->
  d !! FileOptions.path o = Some Directory ->
  path_resolve P (FileOptions.path o) "./prometeo.config"
  = (FileOptions.path o +:+ "/prometeo.config")%string ->
  File.create P d o = Ok (f, d') ->
  File.validate P d' (FileOptions.path o) = Ok (Some (FileOptions.to_value o)) /\
  FileOptions.of_value (FileOptions.to_value o) = Some o.
Proof.
  intros Hv Hres Hdir Hcfg Hc. split.
  - exact (proj1 (created_validates P d d' o f Hv Hres Hdir Hcfg Hc)).
  - apply of_value_to_value. unfold valid_plan in Hv.
    rewrite !andb_true_iff in Hv. tauto.
Qed.

Lemma constructed_download_validates_witness :
  exists f d,
    Cases.created = Ok (f, d) /\
    valid_plan Scenario.plan = true /\
    File.validate Cases.P d "/tmp/Prometeo/big"
    = Ok (Some (FileOptions.to_value Scenario.plan)).
Proof.
  returned Cases.created f d E. exists f, d. split; [reflexivity|].
  assert (Hv : valid_plan Scenario.plan = true) by (vm_compute; reflexivity).
  split; [exact Hv|].
  refine (proj1 (constructed_download_validates Cases.P Cases.disk d Scenario.plan f
                   Hv _ _ _ E)).
  - discriminate.
  - vm_compute. reflexivity.
  - vm_compute. reflexivity.
Defined.

(** The manifest that a failed removal leaves. *)
Lemma failed_cleanup_validates (P : Platform) (d : FS) (f : File.t) :
  rmSync_recursive P d (File.path f) = None ->
  d !! File.path f = Some Directory ->
  d !! (File.path f +:+ "/prometeo.config")%string <> Some Directory ->
  path_resolve P (File.path f) "./prometeo.config"
  = (File.path f +:+ "/prometeo.config")%string ->
  valid_plan (File.allConfig f) = true ->
  exists o,
    File.allConfig (fst (fst (File.cleanup P d f))) = o /\
    FileOptions.finished o = true /\
    snd (File.cleanup P d f) = true /\
    File.validate P (snd (fst (File.cleanup P d f))) (File.path f)
    = Ok (Some (FileOptions.to_value o)) /\
    FileOptions.get_bool "finished"
      match FileOptions.to_value o with JSON.Obj l => l | _ => [] end
    = Some true.
Proof.
  intros Hrm Hdir Hcfg Hres Hv. unfold File.cleanup.
  cbn [File.path File.with_logStream]. rewrite Hrm.
  unfold fs.existsSync. unfold FS in *. rewrite Hdir.
  cbn [File.path File.with_allConfig File.with_logStream File.allConfig].
  rewrite Hres.
  set (o := FileOptions.mk _ _ _ _ _ _ _ _ _ true).
  assert (Hvo : valid_plan o = true) by exact Hv.
  unfold fs.writeFileSync. unfold FS in *.
  destruct (d !! (File.path f +:+ "/prometeo.config")%string) as [[|content]|];
    [congruence|..]; cbn [fst snd File.allConfig File.with_allConfig];
    exists o; (split; [reflexivity|]); (split; [reflexivity|]);
    (split; [reflexivity|]).
  all: split; [|destruct (FileOptions.resumed o); reflexivity].
  all: unfold File.validate, fs.isDirectory, fs.readFileSync; unfold FS in *.
  all: rewrite lookup_insert_ne by apply manifest_path_differs.
  all: rewrite Hdir; cbn [bind negb]; rewrite lookup_insert_eq.
  all: now rewrite (decode_encode_value P o (valid_plan_serializable o Hvo)).
Qed.

(** X16: a working directory that could not be removed is marked as
    finished.  When [fs.rmSync] throws in [cleanup] and the directory is
    still there, the manifest is written again with [finished: true];
    [cleanup] resolves, and [File.validate] then reads the plan with
    [finished] set. *)
Theorem failed_cleanup_marks_the_manifest (P : Platform) (d : FS) (f : File.t) :
  rmSync_recursive P d (File.path f) = None ->
  d !! File.path f = Some Directory ->
  d !! (File.path f +:+ "/prometeo.config")%string <> Some Directory ->
  path_resolve P (File.path f) "./prometeo.config"
  = (File.path f +:+ "/prometeo.config")%string ->
  valid_plan (File.allConfig f) = true ->
  exists o,
    File.allConfig (fst (fst (File.cleanup P d f))) = o /\
    FileOptions.finished o = true /\
    snd (File.cleanup P d f) = true /\
    File.validate P (snd (fst (File.cleanup P d f))) (File.path f)
    = Ok (Some (FileOptions.to_value o)) /\
    FileOptions.get_bool "finished"
      match FileOptions.to_value o with JSON.Obj l => l | _ => [] end
    = Some true.
Proof. exact (failed_cleanup_validates P d f). Qed.

Lemma failed_cleanup_marks_the_manifest_witness :
  exists f d,
    Cases.created = Ok (f, d) /\
    rmSync_recursive Cases.locked d (File.path f) = None /\
    valid_plan (File.allConfig f) = true /\
    exists o,
      File.allConfig (fst (fst (File.cleanup Cases.locked d f))) = o /\
      FileOptions.finished o = true /\
      snd (File.cleanup Cases.locked d f) = true /\
      File.validate Cases.locked (snd (fst (File.cleanup Cases.locked d f)))
        (File.path f)
      = Ok (Some (FileOptions.to_value o)) /\
      FileOptions.get_bool "finished"
        match FileOptions.to_value o with JSON.Obj l => l | _ => [] end
      = Some true.
Proof.
  returned Cases.created f d E.
  observed Cases.created E
    (fun st : File.t * FS =>
       (File.path (fst st), File.allConfig (fst st),
        snd st !! "/tmp/Prometeo/big"%string,
        fs.isFile (snd st) "/tmp/Prometeo/big/prometeo.config"))
    ("/tmp/Prometeo/big"%string, Scenario.plan, Some Directory, Ok true).
  intros Hcfg Hdir Hall Hpath.
  exists f, d. split; [reflexivity|]. split; [reflexivity|].
  assert (Hv : valid_plan (File.allConfig f) = true)
    by (rewrite Hall; vm_compute; reflexivity).
  split; [exact Hv|].
  refine (failed_cleanup_marks_the_manifest Cases.locked d f eq_refl _ _ _ Hv).
  - rewrite Hpath. exact Hdir.
  - rewrite Hpath. intros Hd. unfold fs.isFile in Hcfg. unfold FS in *.
    change ("/tmp/Prometeo/big" +:+ "/prometeo.config")%string
      with "/tmp/Prometeo/big/prometeo.config"%string in Hd.
    rewrite Hd in Hcfg. discriminate Hcfg.
  - rewrite Hpath. vm_compute. reflexivity.
Defined.

(** X17: two valid plans that have the same manifest are the same
    plan. *)
Theorem manifests_tell_plans_apart (P : Platform) (a b : FileOptions.t) :
  valid_plan a = true -> valid_plan b = true ->
  FileOptions.encode P a = FileOptions.encode P b -> a = b.
Proof.
  intros Ha Hb He.
  pose proof (decode_encode_value P a (valid_plan_serializable a Ha)) as Hda.
  pose proof (decode_encode_value P b (valid_plan_serializable b Hb)) as Hdb.
  assert (Hv : FileOptions.to_value a = FileOptions.to_value b) by congruence.
  assert (Hoa : FileOptions.of_value (FileOptions.to_value a) = Some a).
  { apply of_value_to_value. unfold valid_plan in Ha.
    rewrite !andb_true_iff in Ha. tauto. }
  assert (Hob : FileOptions.of_value (FileOptions.to_value b) = Some b).
  { apply of_value_to_value. unfold valid_plan in Hb.
    rewrite !andb_true_iff in Hb. tauto. }
  rewrite Hv, Hob in Hoa. now injection Hoa.
Qed.

Lemma manifests_tell_plans_apart_witness :
  valid_plan Scenario.plan = true /\ Scenario.plan = Scenario.plan.
Proof.
  assert (Hv : valid_plan Scenario.plan = true) by (vm_compute; reflexivity).
  split; [exact Hv|].
  exact (manifests_tell_plans_apart Cases.P Scenario.plan Scenario.plan Hv Hv eq_refl).
Defined.

(** X18: when [File.validate] throws and when it returns a value.  It
    throws only on a path that does not exist ([statSync] is outside its
    [try]); on an existing path it returns; and it returns a value only
    for a directory that holds a regular file [prometeo.config] whose
    content decodes to that value. *)
Theorem validate_reads_a_manifest_or_nothing (P : Platform) (d : FS) (p : string) :
  (d !! p = None -> File.validate P d p = Throw (NodeErr "ENOENT")) /\
  (is_Some (d !! p) -> returns (File.validate P d p) = true) /\
  (forall v, File.validate P d p = Ok (Some v) ->
     d !! p = Some Directory /\
     exists content,
       d !! (p +:+ "/prometeo.config")%string = Some (Regular content) /\
       FileOptions.decode P content = Some v).
Proof.
  unfold File.validate, fs.isDirectory, fs.readFileSync. unfold FS in *.
  destruct (d !! p) as [[|c]|]; cbn [bind negb].
  - split; [discriminate|]. split.
    + intros _. now destruct (d !! (p +:+ "/prometeo.config")%string) as [[|?]|].
    + intros v. destruct (d !! (p +:+ "/prometeo.config")%string) as [[|content]|];
        try discriminate.
      intros [= Hv]. split; [reflexivity|]. now exists content.
  - split; [discriminate|]. split; [reflexivity|]. discriminate.
  - split; [reflexivity|]. split; [intros [? ?]; discriminate|]. discriminate.
Qed.

(** X19: a manifest that does not begin with two hexadecimal digits is
    no manifest: [Buffer.from(text, "hex")] is then empty, [JSON.parse]
    rejects the empty text, and the decoding gives nothing. *)
Theorem text_that_is_not_hex_decodes_to_nothing (P : Platform) (content : string) :
  wellformed_string content = true ->
  Buffer.from_hex content = [] ->
  FileOptions.decode P content = None.
Proof.
  intros Hw Hhex. unfold FileOptions.decode.
  rewrite toString_utf8_wellformed by exact Hw. rewrite Hhex. reflexivity.
Qed.

Lemma text_that_is_not_hex_decodes_to_nothing_witness :
  wellformed_string "{}" = true /\ Buffer.from_hex "{}" = [] /\
  FileOptions.decode Cases.P "{}" = None.
Proof.
  assert (Hw : wellformed_string "{}" = true) by reflexivity.
  assert (Hh : Buffer.from_hex "{}" = []) by reflexivity.
  split; [exact Hw|]. split; [exact Hh|].
  exact (text_that_is_not_hex_decodes_to_nothing Cases.P "{}" Hw Hh).
Defined.

(** ** Names and types read off the URL *)








Lemma remove_first_dot e : remove_first "." (String "." e) = e.
Proof.
  change (remove_first "." (String "." e))
    with (if String.prefix "." (String "." e)
          then substring 1 (String.length (String "." e) - 1) (String "." e)
          else String "." (remove_first "." e)).
  assert (Hp : String.prefix "." (String "." e) = true).
  { cbn. destruct (ascii_dec "." "."); [now destruct e|contradiction]. }
  rewrite Hp. cbn [String.length Nat.sub]. rewrite Nat.sub_0_r.
  change (substring 1 (String.length e) (String "." e))
    with (substring 0 (String.length e) e).
  apply substring_all.
Qed.

(** X21: where [getFileType] takes the type from.  Without a
    [content-type] header the type is [.unknow], even if the URL has an
    extension; with one, the extension of the path of the URL wins over
    the content type and is returned as it is. *)
Theorem getFileType_prefers_the_extension (P : Platform) (url : string) (data : Response) :
  (headers data !! "content-type"%string = None ->
     URLUtils.getFileType P url data = ".unknow"%string) /\
  (forall h e,
     headers data !! "content-type"%string = Some h ->
     JS.truthy h = true ->
     path_extname P (URL_pathname P url) = String "." e ->
     URLUtils.getFileType P url data = String "." e).
Proof.
  unfold URLUtils.getFileType. split.
  - now intros ->.
  - intros h e -> -> ->. cbn [negb String.length Nat.ltb Nat.leb].
    now rewrite remove_first_dot.
Qed.

Lemma getFileType_prefers_the_extension_witness :
  let data :=
    mkResponse true (<["content-type"%string := "text/html; charset=utf-8"%string]> ∅) in
  URLUtils.getFileType Cases.P "http://example.com/files/big.zip"
    (mkResponse true ∅) = ".unknow"%string /\
  URLUtils.getFileType Cases.P "http://example.com/files/big.zip" data = ".zip"%string.
Proof.
  cbv zeta. split.
  - exact (proj1 (getFileType_prefers_the_extension Cases.P
                    "http://example.com/files/big.zip" (mkResponse true ∅)) eq_refl).
  - exact (proj2 (getFileType_prefers_the_extension Cases.P
                    "http://example.com/files/big.zip"
                    (mkResponse true
                       (<["content-type"%string := "text/html; charset=utf-8"%string]> ∅)))
             "text/html; charset=utf-8"%string "zip"%string eq_refl eq_refl eq_refl).
Defined.


(** ** What [download] leaves *)

(** What [download] returns and leaves. *)
Lemma download_prepared
    (P : Platform) (M M' : Manager.t) (d d' : FS) (o : Manager.options) (f : File.t) :
  Manager.download P M d o = Ok (M', d', f) ->
  File.workers f = [] /\ File.issued f = [] /\ File.trace f = [] /\
  File.started f = File.Pending /\
  File.url f = Manager.url o /\ File.speed f = Manager.speedLimit M /\
  Manager.downloads M' = Manager.downloads M ++ [f] /\
  Manager.connections M' = Manager.connections M /\
  Manager.tempDir M' = Manager.tempDir M /\
  Manager.speedLimit M' = Manager.speedLimit M.
Proof.
  unfold Manager.download, throw.
  repeat (match goal with |- context [if ?c then _ else _] => destruct c end;
          try discriminate).
  all: destruct (URLUtils.getData P (Manager.url o)) as [data|]; try discriminate.
  all: repeat (match goal with |- context [if ?c then _ else _] => destruct c end;
               try discriminate).
  all: unfold bind.
  all: repeat (match goal with
               | |- context [match ?c with _ => _ end] => destruct c eqn:?
               end; try discriminate).
  all: intros [= <- <- <-].
  all: match goal with
       | H : File.create _ _ _ = Ok _ |- _ =>
           pose proof (create_fields _ _ _ _ _ H) as (_ & _ & _ & Hspeed);
           apply create_fresh in H
             as (Hset & _ & Hw & _ & _ & Htr & Hi & _ & Hst & _)
       end.
  all: unfold settings in Hset; injection Hset as Hurl _ _ _ _ _ _.
  all: cbn in Hurl, Hspeed; repeat split; assumption || reflexivity.
Qed.

(** X22: [download] prepares and does no more.  The download it returns
    has no worker, has issued no request and emitted no event, and its
    [start] is pending; it holds the URL asked for and the limit of the
    manager; the manager has it as its last download and is otherwise
    what it was. *)
Theorem download_only_prepares
    (P : Platform) (M M' : Manager.t) (d d' : FS) (o : Manager.options) (f : File.t) :
  Manager.download P M d o = Ok (M', d', f) ->
  File.workers f = [] /\ File.issued f = [] /\ File.trace f = [] /\
  File.started f = File.Pending /\
  File.url f = Manager.url o /\ File.speed f = Manager.speedLimit M /\
  Manager.downloads M' = Manager.downloads M ++ [f] /\
  Manager.connections M' = Manager.connections M /\
  Manager.tempDir M' = Manager.tempDir M /\
  Manager.speedLimit M' = Manager.speedLimit M.
Proof. exact (download_prepared P M M' d d' o f). Qed.

Lemma download_only_prepares_witness :
  exists M' d' f,
    Scenario.downloaded "1000" 2 = Ok (M', d', f) /\
    File.workers f = [] /\ File.issued f = [] /\ File.trace f = [] /\
    File.started f = File.Pending /\
    File.url f = Manager.url Scenario.request /\
    File.speed f = Manager.speedLimit (Scenario.manager 2) /\
    Manager.downloads M' = Manager.downloads (Scenario.manager 2) ++ [f] /\
    Manager.connections M' = Manager.connections (Scenario.manager 2) /\
    Manager.tempDir M' = Manager.tempDir (Scenario.manager 2) /\
    Manager.speedLimit M' = Manager.speedLimit (Scenario.manager 2).
Proof.
  assert (Hr : returns (Scenario.downloaded "1000" 2) = true) by (vm_compute; reflexivity).
  destruct (Scenario.downloaded "1000" 2) as [[[M' d'] f]|e] eqn:E;
    [clear Hr|discriminate Hr].
  exists M', d', f. split; [reflexivity|].
  exact (download_only_prepares _ _ _ _ _ _ _ E).
Defined.

(* ================================================================== *)
(** * The manager: construction, resumption and lookup *)
(* ================================================================== *)

(** ** Values at the type of plans *)

Lemma number_same_refl n : Prometeo.number_same n n = true.
Proof.
  destruct n as [[a b]| | |]; cbn; [|reflexivity..].
  now rewrite Z.eqb_refl, Pos.eqb_refl.
Qed.

Lemma value_same_refl v : Prometeo.value_same v v = true.
Proof.
  induction v as [|b|n|s|l IHl|l IHl] using value_induction; cbn.
  - reflexivity.
  - now destruct b.
  - apply number_same_refl.
  - apply String.eqb_refl.
  - induction IHl as [|x l Hx _ IH]; [reflexivity|]. now rewrite Hx, IH.
  - induction IHl as [|[k x] l Hx _ IH]; [reflexivity|].
    cbn in Hx. now rewrite String.eqb_refl, Hx, IH.
Qed.

Lemma typed_to_value o :
  ascending (-1) (map fst (FileOptions.parts o)) = true ->
  Prometeo.typed (FileOptions.to_value o) = Some o.
Proof.
  intros Ho. unfold Prometeo.typed.
  now rewrite of_value_to_value, value_same_refl.
Qed.

(** [Object.assign] on the object of a plan gives the object of the
    plan with [resumed] and the new speed. *)
Lemma assign_resumed_to_value v o :
  Prometeo.assign_resumed v (FileOptions.to_value o)
  = FileOptions.to_value (Prometeo.resumed_plan v o).
Proof. destruct o as [? ? ? ? ? [b|] ? ? ? ?]; reflexivity. Qed.

Lemma finished_of_to_value o :
  Prometeo.member "finished" (FileOptions.to_value o)
  = Some (JSON.Bool (FileOptions.finished o)).
Proof. destruct o as [? ? ? ? ? [b|] ? ? ? ?]; reflexivity. Qed.

(** ** Resumption *)

(** The folder of an unfinished plan goes to the constructor of
    [File]. *)
Lemma unfinished_path
    (P : Platform) (M : Manager.t) (d : FS) (folder : string) (o : FileOptions.t) :
  File.validate P d (path_resolve P (Manager.tempDir M) folder)
  = Ok (Some (FileOptions.to_value o)) ->
  ascending (-1) (map fst (FileOptions.parts o)) = true ->
  FileOptions.finished o = false ->
  Prometeo.load_folder P M d folder
  = Some (let* created :=
            File.create P d (Prometeo.resumed_plan (Manager.speedLimit M) o) in
          Ok (Prometeo.push (fst created) M, snd created)).
Proof.
  intros Hval Hasc Hfin. unfold Prometeo.load_folder. rewrite Hval.
  rewrite finished_of_to_value, Hfin.
  change (Prometeo.value_truthy (FileOptions.to_value o)) with true.
  cbn [Prometeo.value_truthy negb andb]. unfold Prometeo.resume.
  rewrite assign_resumed_to_value, typed_to_value by exact Hasc.
  reflexivity.
Qed.

(** X23: a manager resumes the download of a working directory whose
    manifest is the object of an unfinished plan: it constructs the
    download of that plan with [resumed] set and with its own speed
    limit, and adds it to its downloads; a failure of that construction
    is the failure of the manager. *)
Theorem unfinished_download_is_resumed
    (P : Platform) (M : Manager.t) (d : FS) (folder : string) (o : FileOptions.t) :
  File.validate P d (path_resolve P (Manager.tempDir M) folder)
  = Ok (Some (FileOptions.to_value o)) ->
  ascending (-1) (map fst (FileOptions.parts o)) = true ->
  FileOptions.finished o = false ->
  Prometeo.load_folder P M d folder
  = Some (let* created :=
            File.create P d (Prometeo.resumed_plan (Manager.speedLimit M) o) in
          Ok (Prometeo.push (fst created) M, snd created)).
Proof. exact (unfinished_path P M d folder o). Qed.

Lemma unfinished_download_is_resumed_witness :
  exists f d,
    Cases.created = Ok (f, d) /\
    File.validate Cases.P d
      (path_resolve Cases.P (Manager.tempDir (Scenario.manager 2)) "big")
    = Ok (Some (FileOptions.to_value Scenario.plan)) /\
    Prometeo.load_folder Cases.P (Scenario.manager 2) d "big"
    = Some (let* created :=
              File.create Cases.P d
                (Prometeo.resumed_plan (Manager.speedLimit (Scenario.manager 2))
                   Scenario.plan) in
            Ok (Prometeo.push (fst created) (Scenario.manager 2), snd created)).
Proof.
  returned Cases.created f d E.
  observed Cases.created E
    (fun st : File.t * FS =>
       File.validate Cases.P (snd st)
         (path_resolve Cases.P (Manager.tempDir (Scenario.manager 2)) "big"))
    (@Ok (option JSON.value) (Some (FileOptions.to_value Scenario.plan))).
  intros Hval.
  exists f, d. split; [reflexivity|]. split; [exact Hval|].
  exact (unfinished_download_is_resumed Cases.P (Scenario.manager 2) d "big"
           Scenario.plan Hval eq_refl eq_refl).
Defined.


(** X24: a manager removes what it cannot resume: a folder of its
    temporary directory that is no directory, a directory without a
    manifest that can be read, and a directory whose manifest is the
    object of a finished plan are removed with [fs.rmSync] (a failure
    of which is ignored), and give no download. *)
Theorem finished_or_unreadable_folders_are_removed
    (P : Platform) (M : Manager.t) (d : FS) (folder : string) :
  let folderPath := path_resolve P (Manager.tempDir M) folder in
  (File.validate P d folderPath = Ok None ->
     Prometeo.load_folder P M d folder = Some (Ok (M, Prometeo.remove P d folderPath))) /\
  (forall o,
     File.validate P d folderPath = Ok (Some (FileOptions.to_value o)) ->
     FileOptions.finished o = true ->
     Prometeo.load_folder P M d folder = Some (Ok (M, Prometeo.remove P d folderPath))).
Proof.
  cbv zeta. unfold Prometeo.load_folder. split.
  - now intros ->.
  - intros o -> Hfin. rewrite finished_of_to_value, Hfin.
    cbn [Prometeo.value_truthy negb]. now rewrite andb_false_r.
Qed.

(** The checks that a successful construction has passed. *)
Lemma create_checked P d o f d' :
  File.create P d o = Ok (f, d') ->
  Prometeo.blank P (FileOptions.url o) = false /\
  Prometeo.blank P (FileOptions.path o) = false /\
  Prometeo.blank P (FileOptions.destination o) = false /\
  Prometeo.blank P (FileOptions.name o) = false /\
  Prometeo.blank P (FileOptions.contentType o) = false /\
  (FileOptions.size o <=? JS.of_Z 0)%js = false /\
  (FileOptions.speed o <=? JS.of_Z 0)%js = false.
Proof.
  unfold File.create, throw, Prometeo.blank.
  repeat (match goal with |- context [if ?c then _ else _] => destruct c eqn:? end;
          try discriminate).
  all: intros _; repeat split; assumption.
Qed.

(** The construction of a resumed download succeeds once its checks
    pass and its working directory exists. *)
Lemma create_resumed P d o :
  Prometeo.blank P (FileOptions.url o) = false ->
  Prometeo.blank P (FileOptions.path o) = false ->
  Prometeo.blank P (FileOptions.destination o) = false ->
  Prometeo.blank P (FileOptions.name o) = false ->
  Prometeo.blank P (FileOptions.contentType o) = false ->
  (FileOptions.size o <=? JS.of_Z 0)%js = false ->
  (FileOptions.speed o <=? JS.of_Z 0)%js = false ->
  fs.existsSync d (FileOptions.path o) = true ->
  FileOptions.resumed o = Some true ->
  exists g d', File.create P d o = Ok (g, d').
Proof.
  unfold Prometeo.blank. intros H1 H2 H3 H4 H5 H6 H7 H8 H9.
  unfold File.create, throw. rewrite H1, H2, H3, H4, H5, H6, H7, H8, H9.
  change (negb (default false (Some true))) with false. cbn [bind].
  match goal with |- context [if ?c then _ else _] => destruct c end;
    eexists _, _; reflexivity.
Qed.

(** X25: a download that was constructed and not finished is resumed
    by the next manager.  Let [new File(plan)] have succeeded for a
    valid plan in a working directory that [temporary directory/folder]
    names; a manager with a positive speed limit that then loads that
    folder adds a download to its list, which has the URL, the paths,
    the size and the parts of the first one, the speed limit of the
    manager, and [resumed] set. *)
Theorem next_manager_resumes_the_download
    (P : Platform) (M : Manager.t) (d0 d : FS) (o : FileOptions.t) (f : File.t)
    (folder : string) :
  valid_plan o = true ->
  FileOptions.resumed o <> Some true ->
  FileOptions.finished o = false ->
  d0 !! FileOptions.path o = Some Directory ->
  path_resolve P (FileOptions.path o) "./prometeo.config"
  = (FileOptions.path o +:+ "/prometeo.config")%string ->
  File.create P d0 o = Ok (f, d) ->
  path_resolve P (Manager.tempDir M) folder = FileOptions.path o ->
  (Manager.speedLimit M <=? JS.of_Z 0)%js = false ->
  exists g d',
    Prometeo.load_folder P M d folder = Some (Ok (Prometeo.push g M, d')) /\
    settings g = settings f /\
    File.speed g = Manager.speedLimit M /\
    FileOptions.resumed (File.allConfig g) = Some true.
Proof.
  intros Hv Hres Hfin Hdir Hcfg Hc Hfolder Hspeed.
  destruct (created_validates P d0 d o f Hv Hres Hdir Hcfg Hc) as [Hval Hdir'].
  assert (Hasc : ascending (-1) (map fst (FileOptions.parts o)) = true).
  { unfold valid_plan in Hv. rewrite !andb_true_iff in Hv. tauto. }
  rewrite <- Hfolder in Hval.
  rewrite (unfinished_path P M d folder o Hval Hasc Hfin).
  destruct (create_checked P d0 o f d Hc) as (H1 & H2 & H3 & H4 & H5 & H6 & _).
  destruct (create_resumed P d (Prometeo.resumed_plan (Manager.speedLimit M) o))
    as (g & d' & Hg); try assumption; try reflexivity.
  { unfold fs.existsSync. cbn [FileOptions.path Prometeo.resumed_plan].
    unfold FS in *. now rewrite Hdir'. }
  rewrite Hg. cbn [bind fst snd]. exists g, d'. split; [reflexivity|].
  pose proof (create_fields _ _ _ _ _ Hg) as (_ & _ & _ & Hsp).
  apply create_fresh in Hg as (Hsg & Hall & _).
  apply create_fresh in Hc as (Hsf & _).
  rewrite Hsg, Hsf, Hall. repeat split. exact Hsp.
Qed.

Lemma next_manager_resumes_the_download_witness :
  exists f d,
    Cases.created = Ok (f, d) /\
    valid_plan Scenario.plan = true /\
    exists g d',
      Prometeo.load_folder Cases.P (Scenario.manager 2) d "big"
      = Some (Ok (Prometeo.push g (Scenario.manager 2), d')) /\
      settings g = settings f /\
      File.speed g = Manager.speedLimit (Scenario.manager 2) /\
      FileOptions.resumed (File.allConfig g) = Some true.
Proof.
  returned Cases.created f d E. exists f, d. split; [reflexivity|].
  assert (Hv : valid_plan Scenario.plan = true) by (vm_compute; reflexivity).
  split; [exact Hv|].
  refine (next_manager_resumes_the_download Cases.P (Scenario.manager 2) Cases.disk d
            Scenario.plan f "big" Hv _ eq_refl _ _ E _ eq_refl).
  - discriminate.
  - vm_compute. reflexivity.
  - vm_compute. reflexivity.
  - vm_compute. reflexivity.
Defined.


(** X26: a working directory that [cleanup] could not remove is
    removed by the next manager.  After a removal that failed, the
    manifest says [finished]; a manager that loads the folder of that
    directory adds no download and removes the directory with
    [fs.rmSync], a failure of which it ignores. *)
Theorem next_manager_removes_a_failed_cleanup
    (P : Platform) (M : Manager.t) (d : FS) (f : File.t) (folder : string) :
  rmSync_recursive P d (File.path f) = None ->
  d !! File.path f = Some Directory ->
  d !! (File.path f +:+ "/prometeo.config")%string <> Some Directory ->
  path_resolve P (File.path f) "./prometeo.config"
  = (File.path f +:+ "/prometeo.config")%string ->
  valid_plan (File.allConfig f) = true ->
  path_resolve P (Manager.tempDir M) folder = File.path f ->
  Prometeo.load_folder P M (snd (fst (File.cleanup P d f))) folder
  = Some (Ok (M, Prometeo.remove P (snd (fst (File.cleanup P d f))) (File.path f))).
Proof.
  intros Hrm Hdir Hcfg Hres Hv Hfolder.
  destruct (failed_cleanup_validates P d f Hrm Hdir Hcfg Hres Hv)
    as (o & _ & Hfin & _ & Hval & _).
  unfold Prometeo.load_folder. rewrite Hfolder, Hval.
  rewrite finished_of_to_value, Hfin.
  cbn [Prometeo.value_truthy negb]. now rewrite andb_false_r.
Qed.

Lemma next_manager_removes_a_failed_cleanup_witness :
  exists f d,
    Cases.created = Ok (f, d) /\
    rmSync_recursive Cases.locked d (File.path f) = None /\
    Prometeo.load_folder Cases.locked (Scenario.manager 2)
      (snd (fst (File.cleanup Cases.locked d f))) "big"
    = Some (Ok (Scenario.manager 2,
                Prometeo.remove Cases.locked
                  (snd (fst (File.cleanup Cases.locked d f))) (File.path f))).
Proof.
  returned Cases.created f d E.
  observed Cases.created E
    (fun st : File.t * FS =>
       (File.path (fst st), File.allConfig (fst st),
        snd st !! "/tmp/Prometeo/big"%string,
        fs.isFile (snd st) "/tmp/Prometeo/big/prometeo.config"))
    ("/tmp/Prometeo/big"%string, Scenario.plan, Some Directory, @Ok bool true).
  intros Hcfg Hdir Hall Hpath.
  exists f, d. split; [reflexivity|]. split; [reflexivity|].
  assert (Hv : valid_plan (File.allConfig f) = true)
    by (rewrite Hall; vm_compute; reflexivity).
  refine (next_manager_removes_a_failed_cleanup Cases.locked (Scenario.manager 2) d f
            "big" eq_refl _ _ _ Hv _).
  - rewrite Hpath. exact Hdir.
  - rewrite Hpath. intros Hd. unfold fs.isFile in Hcfg. unfold FS in *.
    change ("/tmp/Prometeo/big" +:+ "/prometeo.config")%string
      with "/tmp/Prometeo/big/prometeo.config"%string in Hd.
    rewrite Hd in Hcfg. discriminate Hcfg.
  - rewrite Hpath. vm_compute. reflexivity.
  - rewrite Hpath. vm_compute. reflexivity.
Defined.


(** ** Construction *)

(** X27: [new Prometeo()] takes the defaults and needs its temporary
    directory.  With no option given, the manager has 4 connections, the
    default directory and user agent, and a limit of 10 * 125000 bytes
    per second; the default directory is not created, so the error of
    [fs.readdirSync] on it is the error of the constructor; and with
    nothing in the directory the manager has no download and the disk
    is as it was. *)
Theorem new_manager_takes_the_defaults (P : Platform) (H : Prometeo.Host) (d : FS) :
  let none := Prometeo.mkOptions None None None None in
  (forall e,
     Prometeo.readdirSync H d (Prometeo.default_tempdir H) = Throw e ->
     Prometeo.create P H d none = Some (Throw e)) /\
  (Prometeo.readdirSync H d (Prometeo.default_tempdir H) = Ok [] ->
   Prometeo.create P H d none
   = Some (Ok ({| Manager.connections := 4;
                  Manager.tempDir := Prometeo.default_tempdir H;
                  Manager.userAgent := Prometeo.default_userAgent;
                  Manager.speedLimit := JS.of_Z 1250000;
                  Manager.downloads := [] |}, d))).
Proof.
  cbv zeta. unfold Prometeo.create.
  change (Prometeo.validateOptions P H d (Prometeo.mkOptions None None None None))
    with (@Ok FS d).
  change (Manager.tempDir (Prometeo.configured H (Prometeo.mkOptions None None None None)))
    with (Prometeo.default_tempdir H).
  split.
  - now intros e ->.
  - intros ->. reflexivity.
Qed.

Lemma new_manager_takes_the_defaults_witness :
  Prometeo.create Cases.P (Resumption.host "/home/user/Prometeo") Scenario.disk
    (Prometeo.mkOptions None None None None)
  = Some (Throw (NodeErr "ENOENT")) /\
  Prometeo.create Cases.P (Resumption.host "/srv/empty") Scenario.disk
    (Prometeo.mkOptions None None None None)
  = Some (Ok ({| Manager.connections := 4;
                 Manager.tempDir := "/srv/empty";
                 Manager.userAgent := Prometeo.default_userAgent;
                 Manager.speedLimit := JS.of_Z 1250000;
                 Manager.downloads := [] |}, Scenario.disk)).
Proof.
  split.
  - exact (proj1 (new_manager_takes_the_defaults Cases.P
                    (Resumption.host "/home/user/Prometeo") Scenario.disk)
             (NodeErr "ENOENT") eq_refl).
  - exact (proj2 (new_manager_takes_the_defaults Cases.P
                    (Resumption.host "/srv/empty") Scenario.disk) eq_refl).
Defined.


(** X28: an option that is falsy counts as absent, and a negative one is
    an error.  [connections: 0], [tempdir: ""], [userAgent: ""],
    [speedLimit: 0] and [speedLimit: NaN] construct the manager that the
    absent option constructs; a negative number of connections and a
    negative speed limit are rejected with [InvalidArgumentError]. *)
Theorem falsy_options_are_absent_and_negative_ones_rejected
    (P : Platform) (H : Prometeo.Host) (d : FS)
    (c : option Z) (t u : option string) (s : option JS.number) :
  Prometeo.create P H d (Prometeo.mkOptions (Some 0) t u s)
  = Prometeo.create P H d (Prometeo.mkOptions None t u s) /\
  Prometeo.create P H d (Prometeo.mkOptions c (Some EmptyString) u s)
  = Prometeo.create P H d (Prometeo.mkOptions c None u s) /\
  Prometeo.create P H d (Prometeo.mkOptions c t (Some EmptyString) s)
  = Prometeo.create P H d (Prometeo.mkOptions c t None s) /\
  Prometeo.create P H d (Prometeo.mkOptions c t u (Some (JS.of_Z 0)))
  = Prometeo.create P H d (Prometeo.mkOptions c t u None) /\
  Prometeo.create P H d (Prometeo.mkOptions c t u (Some JS.NaN))
  = Prometeo.create P H d (Prometeo.mkOptions c t u None) /\
  (forall z, z < 0 ->
     Prometeo.create P H d (Prometeo.mkOptions (Some z) t u s)
     = Some (throw InvalidArgumentError
               "The number of connections must be a positive integer.")) /\
  (forall z, z < 0 ->
     exists message,
       Prometeo.create P H d (Prometeo.mkOptions c t u (Some (JS.of_Z z)))
       = Some (throw InvalidArgumentError message)).
Proof.
  repeat split; try reflexivity.
  - intros z Hz. unfold Prometeo.create, Prometeo.validateOptions.
    cbn [Prometeo.connections].
    replace (negb (z =? 0) && (z <=? 0)) with true; [reflexivity|].
    symmetry. apply andb_true_iff. split; [|apply Z.leb_le; lia].
    apply negb_true_iff, Z.eqb_neq. lia.
  - intros z Hz.
    assert (Hs : Prometeo.number_truthy (JS.of_Z z) && (JS.of_Z z <=? JS.of_Z 0)%js = true).
    { rewrite JSFacts.leb_of_Z. apply andb_true_iff. split; [|apply Z.leb_le; lia].
      unfold Prometeo.number_truthy, JS.of_Z.
      change 0%Q with (inject_Z 0). rewrite JSFacts.Qeq_bool_inject_Z.
      apply negb_true_iff, Z.eqb_neq. lia. }
    assert (Hthrow : exists message,
               Prometeo.validateOptions P H d
                 (Prometeo.mkOptions c t u (Some (JS.of_Z z)))
               = throw InvalidArgumentError message).
    { unfold Prometeo.validateOptions.
      cbn [Prometeo.speedLimit Prometeo.connections Prometeo.tempdir
           Prometeo.userAgent].
      rewrite Hs.
      do 2 (match goal with |- context [if ?c then _ else _] => destruct c end;
            [eexists; reflexivity|]).
      assert (Hdir : forall r : result FS,
                 (exists d', r = Ok d') \/
                 (exists message, r = throw InvalidArgumentError message) ->
                 exists message,
                   bind r (fun d' =>
                     if match u with
                        | Some s0 => JS.truthy s0 && Prometeo.blank P s0
                        | None => false
                        end
                     then throw InvalidArgumentError
                            "The user agent (userAgent) must be a non-empty string."
                     else if true
                     then throw InvalidArgumentError
                            "The speed limit must be a positive number."
                     else Ok d')
                   = throw InvalidArgumentError message).
      { intros r [[d' ->]|[message ->]]; cbn [bind throw]; [|eexists; reflexivity].
        match goal with |- context [if ?c then _ else _] => destruct c end;
          eexists; reflexivity. }
      apply Hdir. destruct t as [s0|]; [|left; eexists; reflexivity].
      match goal with |- context [if ?c then _ else _] => destruct c end;
        [|left; eexists; reflexivity].
      destruct (Prometeo.mkdirSync H d s0); [left|right]; eexists; reflexivity. }
    destruct Hthrow as [e He]. exists e. unfold Prometeo.create. now rewrite He.
Qed.

(** ** Lookup *)

Lemma find_app_last {A} (p : A -> bool) l x :
  p x = true -> exists y, List.find p (l ++ [x]) = Some y /\ p y = true.
Proof.
  intros Hx. induction l as [|a l IH]; cbn.
  - rewrite Hx. eauto.
  - destruct (p a) eqn:Ha; eauto.
Qed.

(** X29: [getDownload] finds a download by the URL that [download]
    was given, and finds nothing for an empty query.  After
    [download({url, ...})] has returned, [getDownload({url})] returns a
    download of that URL (the first of the manager that has it); a
    query without a name and a URL, or with empty ones, matches no
    download. *)
Theorem getDownload_after_download
    (P : Platform) (M M' : Manager.t) (d d' : FS) (o : Manager.options) (f : File.t) :
  Manager.download P M d o = Ok (M', d', f) ->
  (exists g,
     Prometeo.getDownload (Prometeo.mkQuery None (Some (Manager.url o))) M' = Some g /\
     File.url g = Manager.url o) /\
  Prometeo.getDownload (Prometeo.mkQuery None None) M' = None /\
  Prometeo.getDownload (Prometeo.mkQuery (Some EmptyString) (Some EmptyString)) M' = None.
Proof.
  intros Hd.
  assert (Hurl : JS.truthy (Manager.url o) = true).
  { revert Hd. unfold Manager.download.
    destruct (Manager.url o); [discriminate|reflexivity]. }
  pose proof (download_prepared _ _ _ _ _ _ _ Hd)
    as (_ & _ & _ & _ & Hfu & _ & Hds & _).
  split; [|split].
  - unfold Prometeo.getDownload. rewrite Hds.
    destruct (find_app_last
                (Prometeo.matches (Prometeo.mkQuery None (Some (Manager.url o))))
                (Manager.downloads M) f) as (g & Hg & Hm).
    { unfold Prometeo.matches. cbn. rewrite Hurl, Hfu. cbn. apply String.eqb_refl. }
    exists g. split; [exact Hg|].
    unfold Prometeo.matches in Hm. cbn in Hm. rewrite Hurl in Hm. cbn in Hm.
    now apply String.eqb_eq in Hm.
  - unfold Prometeo.getDownload. clear.
    induction (Manager.downloads M') as [|a l IH]; [reflexivity|exact IH].
  - unfold Prometeo.getDownload. clear.
    induction (Manager.downloads M') as [|a l IH]; [reflexivity|exact IH].
Qed.

Lemma getDownload_after_download_witness :
  exists M' d' f,
    Scenario.downloaded "1000" 2 = Ok (M', d', f) /\
    (exists g,
       Prometeo.getDownload
         (Prometeo.mkQuery None (Some (Manager.url Scenario.request))) M' = Some g /\
       File.url g = Manager.url Scenario.request) /\
    Prometeo.getDownload (Prometeo.mkQuery None None) M' = None /\
    Prometeo.getDownload (Prometeo.mkQuery (Some EmptyString) (Some EmptyString)) M'
    = None.
Proof.
  assert (Hr : returns (Scenario.downloaded "1000" 2) = true) by (vm_compute; reflexivity).
  destruct (Scenario.downloaded "1000" 2) as [[[M' d'] f]|e] eqn:E;
    [clear Hr|discriminate Hr].
  exists M', d', f. split; [reflexivity|].
  exact (getDownload_after_download _ _ _ _ _ _ _ E).
Defined.


(* ================================================================== *)
(** * The workers of a download *)
(* ================================================================== *)

(** What a worker is given: its index, its part file and its range. *)
Lemma start_keeps_the_part P d c :
  let c' := fst (fst (fst (Connection.start P d c))) in
  Connection.index c' = Connection.index c /\
  Connection.file c' = Connection.file c /\
  Connection.range c' = Connection.range c /\
  Connection.url c' = Connection.url c /\
  Connection.speedLimit c' = Connection.speedLimit c.
Proof.
  cbv zeta. unfold Connection.start.
  destruct (Connection.already_downloaded c (Connection.existing d c));
    cbn; repeat split; reflexivity.
Qed.

(** With no listener registered, an emit only records the event. *)
Lemma emit_silent P event e v g :
  File.registered g = [] ->
  File.emit P event e v g = File.with_trace (File.trace g ++ [e]) g.
Proof. intros Hr. unfold File.emit. now rewrite Hr. Qed.

Lemma observer_silent P prev outer d g :
  File.registered g = [] ->
  File.workers (fst (File.observer P prev outer d g)) = File.workers g /\
  File.connections (fst (File.observer P prev outer d g)) = File.connections g.
Proof.
  intros Hr. unfold File.observer.
  destruct (Nat.eqb (length (File.unfinished g)) 0 && negb (File.stoped g)).
  - rewrite emit_silent by exact Hr. unfold File.composeFile.
    cbn [File.parts File.log File.with_logStream File.with_trace File.with_inter].
    destruct (File.parts g) as [|[i [file0 r]] rest]; cbn; now split.
  - destruct (bool_decide _); cbn [fst]; [now split|].
    rewrite emit_silent by exact Hr. now split.
Qed.

(** [start] of a worker destroys nothing. *)
Lemma start_emits_no_destroy P d c :
  Forall (fun e => e <> Connection.destroy) (snd (fst (Connection.start P d c))).
Proof.
  unfold Connection.start.
  destruct (Connection.already_downloaded c (Connection.existing d c)); cbn [fst snd].
  - repeat constructor; discriminate.
  - constructor; [discriminate|].
    destruct (Connection.existing d c >? JS.of_Z 0)%js; repeat constructor; discriminate.
Qed.

Lemma connections_hear_all cid es g :
  Forall (fun e => e <> Connection.destroy) es ->
  File.connections (File.hear_all cid es g) = File.connections g.
Proof.
  unfold File.hear_all. intros Hes. revert g.
  induction Hes as [|e es He _ IH]; intros g; cbn [fold_left]; [reflexivity|].
  rewrite IH. destruct e; [reflexivity..|contradiction].
Qed.

Section Spawn.
Variable P : Platform.

(** The static part of a worker. *)
Let given (c : Connection.t) :=
  (Connection.index c, (Connection.file c, Connection.range c)).

Lemma spawn_adds part g d :
  let g' := fst (File.spawn P part (g, d)) in
  exists c,
    File.workers g' = File.workers g ++ [c] /\
    File.connections g' = File.connections g ++ [length (File.workers g)] /\
    given c = part /\
    Connection.url c = File.url g /\
    Connection.speedLimit c = (File.speed g / JS.of_nat (length (File.parts g)))%js /\
    File.registered g' = File.registered g /\
    settings g' = settings g /\ File.speed g' = File.speed g.
Proof.
  cbv zeta. unfold File.spawn. destruct part as [i [file range]].
  match goal with |- context [Connection.start P d ?c] =>
    pose proof (start_keeps_the_part P d c) as Hk;
    pose proof (start_emits_no_destroy P d c) as Hes;
    destruct (Connection.start P d c) as [[[c' d'] es] req]
  end.
  cbn [fst snd] in Hk, Hes. destruct Hk as (Hi & Hf & Hr & Hu & Hs).
  exists c'. cbn [fst].
  match goal with |- context [File.hear_all ?cid es ?h] =>
    assert (Hh : File.workers (File.hear_all cid es h) = File.workers g ++ [c'] /\
                 File.registered (File.hear_all cid es h) = File.registered g /\
                 settings (File.hear_all cid es h) = settings g /\
                 File.speed (File.hear_all cid es h) = File.speed g);
    [|pose proof (connections_hear_all cid es h Hes) as Hc;
      generalize dependent (File.hear_all cid es h)]
  end.
  { apply (inv_hear_all
             (fun h => File.workers h = File.workers g ++ [c'] /\
                       File.registered h = File.registered g /\
                       settings h = settings g /\ File.speed h = File.speed g));
      try (closed_under_updates; fail).
    cbn. repeat split.
    rewrite insert_app_r_alt by lia. now rewrite Nat.sub_diag. }
  intros h (Hw & Hreg & Hset & Hsp) Hc. cbn in Hc.
  assert (Hgoal : forall h',
             File.workers h' = File.workers h -> File.connections h' = File.connections h ->
             File.registered h' = File.registered h -> settings h' = settings h ->
             File.speed h' = File.speed h ->
             File.workers h' = File.workers g ++ [c'] /\
             File.connections h' = File.connections g ++ [length (File.workers g)] /\
             given c' = (i, (file, range)) /\
             Connection.url c' = File.url g /\
             Connection.speedLimit c'
             = (File.speed g / JS.of_nat (length (File.parts g)))%js /\
             File.registered h' = File.registered g /\
             settings h' = settings g /\ File.speed h' = File.speed g).
  { intros h' -> -> -> -> ->. unfold given. rewrite Hi, Hf, Hr, Hu, Hs.
    repeat split; assumption. }
  destruct req; apply Hgoal; reflexivity.
Qed.

Lemma spawn_all_adds parts g d :
  let g' := fst (fold_left (fun st part => File.spawn P part st) parts (g, d)) in
  exists cs,
    File.workers g' = File.workers g ++ cs /\
    File.connections g'
    = File.connections g ++ seq (length (File.workers g)) (length parts) /\
    map given cs = parts /\
    Forall (fun c =>
              Connection.url c = File.url g /\
              Connection.speedLimit c
              = (File.speed g / JS.of_nat (length (File.parts g)))%js) cs /\
    File.registered g' = File.registered g /\
    settings g' = settings g /\ File.speed g' = File.speed g.
Proof.
  cbv zeta. revert g d. induction parts as [|part parts IH]; intros g d.
  - exists []. cbn. rewrite !app_nil_r. repeat split; constructor.
  - cbn [fold_left].
    destruct (spawn_adds part g d) as (c & Hw & Hc & Hg & Hu & Hs & Hr & Hset & Hsp).
    destruct (File.spawn P part (g, d)) as [g1 d1]. cbn [fst] in *.
    destruct (IH g1 d1) as (cs & Hw' & Hc' & Hg' & Hall & Hr' & Hset' & Hsp').
    exists (c :: cs). rewrite Hw', Hc', Hw, Hc, Hr', Hr, Hset', Hset, Hsp', Hsp.
    rewrite <- !app_assoc. cbn [app map length seq].
    rewrite length_app. cbn [length]. rewrite Nat.add_1_r.
    repeat split; try reflexivity.
    + now rewrite Hg, Hg'.
    + constructor; [now split|].
      assert (Hparts : File.parts g1 = File.parts g).
      { unfold settings in Hset. now injection Hset. }
      assert (Hurl : File.url g1 = File.url g).
      { unfold settings in Hset. now injection Hset. }
      rewrite Hparts, Hurl, Hsp in Hall. exact Hall.
Qed.
End Spawn.

(** X30: [start] makes one worker for each part.  For a download as
    its constructor left it, with its working directory on the disk and a
    URL that parses, [start] creates the workers of the parts in the order
    of the parts, each with the index, the part file and the range of its
    part, the URL of the download, and the speed limit divided by the
    number of parts; and [connections] holds them all. *)
Theorem start_spawns_a_worker_for_each_part
    (P : Platform) (d0 d : FS) (o : FileOptions.t) (f : File.t) :
  File.create P d0 o = Ok (f, d) ->
  fs.isDirectory d (File.path f) = Ok true ->
  URLUtils.validate P (File.url f) = true ->
  let g := fst (File.start P d f) in
  map (fun c => (Connection.index c, (Connection.file c, Connection.range c)))
    (File.workers g) = File.parts f /\
  File.connections g = seq 0 (length (File.parts f)) /\
  Forall (fun c =>
            Connection.url c = File.url f /\
            Connection.speedLimit c
            = (File.speed f / JS.of_nat (length (File.parts f)))%js)
    (File.workers g).
Proof.
  intros Hc Hdir Hurl. cbv zeta.
  apply create_fresh in Hc as (_ & _ & Hw & Hconn & Hreg & _).
  unfold File.start. rewrite emit_silent by exact Hreg.
  cbn [File.path File.url File.with_inter File.with_trace File.log File.with_logStream].
  rewrite Hdir, Hurl. cbn [negb].
  match goal with |- context [fold_left _ _ (?h, d)] =>
    assert (Hh : File.workers h = [] /\ File.connections h = [] /\
                 File.registered h = [] /\ File.parts h = File.parts f /\
                 File.url h = File.url f /\ File.speed h = File.speed f)
      by (cbn; repeat split; assumption);
    generalize dependent h
  end.
  intros h Hh. destruct Hh as (Hw0 & Hc0 & Hr0 & Hp0 & Hu0 & Hs0).
  rewrite Hp0.
  pose proof (spawn_all_adds P (File.parts f) h d) as Hs. cbv zeta in Hs.
  destruct (fold_left (fun st part => File.spawn P part st) (File.parts f) (h, d))
    as [h' d'].
  cbn [fst] in Hs. destruct Hs as (cs & Hw' & Hc' & Hg & Hall & Hr' & _).
  rewrite Hw0 in Hw', Hc'. rewrite Hc0 in Hc'. rewrite Hr0 in Hr'.
  rewrite Hu0, Hs0, Hp0 in Hall.
  cbn in Hw', Hc'.
  destruct (observer_silent P None true d' h' Hr') as [-> ->].
  rewrite Hw', Hc'. repeat split; assumption.
Qed.

Lemma start_spawns_a_worker_for_each_part_witness :
  exists f d,
    Cases.created = Ok (f, d) /\
    map (fun c => (Connection.index c, (Connection.file c, Connection.range c)))
      (File.workers (fst (File.start Cases.P d f))) = File.parts f /\
    File.connections (fst (File.start Cases.P d f)) = seq 0 (length (File.parts f)) /\
    Forall (fun c =>
              Connection.url c = File.url f /\
              Connection.speedLimit c
              = (File.speed f / JS.of_nat (length (File.parts f)))%js)
      (File.workers (fst (File.start Cases.P d f))).
Proof.
  returned Cases.created f d E.
  observed Cases.created E
    (fun st : File.t * FS =>
       (fs.isDirectory (snd st) (File.path (fst st)),
        URLUtils.validate Cases.P (File.url (fst st))))
    (@Ok bool true, true).
  intros Hurl Hdir.
  exists f, d. split; [reflexivity|].
  exact (start_spawns_a_worker_for_each_part Cases.P Cases.disk d Scenario.plan f
           E Hdir Hurl).
Defined.
